(** * iTwin.js core: the iMdl tile decoder and the polygon offset engine

    A shallow embedding of
      - [core/frontend/src/imdl/ImdlParser.ts] (tile decoder), and
      - [core/geometry/src/curve/internalContexts/PolygonOffsetContext.ts]
        (joint chain of the XY wire offset),
    with the properties of the natural-language specification stated and
    settled over the embedded code.

    Conventions.
      - A JavaScript [number] holding an offset, a length or a count is an
        integer of [Z]; a coordinate, a fraction or an angle is an exact
        rational of [Q] (the rounding of IEEE doubles is modelled only for
        the node id that [parseInt] returns).
      - [undefined] is [None]; a thrown exception is [Throw] of [Result].
      - Objects that the code mutates and shares by reference (the joints of
        a chain) live in an explicit store and are named by their index. *)

From Stdlib Require Import ZArith QArith Qabs Qround Qminmax List String Ascii Strings.Byte Bool Lia Lqa.
From Stdlib Require Import DecimalString DecimalN DecimalPos.
From stdpp Require Import list sorting.
Import ListNotations.

Set Warnings "-register-all".
Open Scope Z_scope.

(** ** Exceptions *)

Inductive Result (A : Type) : Type :=
| Ok (a : A)
| Throw.
Arguments Ok {A} a.
Arguments Throw {A}.

(** Sequencing, with stdpp's notation [x <- r; k] written [x ← r; k]. *)
#[global] Instance Result_bind : MBind Result := fun A B k r =>
  match r with
  | Ok a => k a
  | Throw => Throw
  end.

#[global] Instance Result_ret : MRet Result := fun A a => Ok a.

#[global] Instance Result_fmap : FMap Result := fun A B f r =>
  match r with
  | Ok a => Ok (f a)
  | Throw => Throw
  end.

(** ** JSON values, as [JSON.parse] yields them *)

Inductive Json : Type :=
| JUndefined
| JNull
| JBool (b : bool)
| JNumber (q : Q)
| JString (s : string)
| JArray (items : list Json)
| JObject (props : list (string * Json)).

Module JsonUtils.

(** [typeof json === "object"]: true of objects, arrays and [null]. *)
Definition asObject (json : Json) : Json :=
  match json with
  | JObject _ | JArray _ | JNull => json
  | _ => JUndefined
  end.

Definition asArray (json : Json) : Json :=
  match json with
  | JArray _ => json
  | _ => JUndefined
  end.

(** [Math.trunc] of a rational. *)
Definition trunc (q : Q) : Z := Z.quot (Qnum q) (Z.pos (Qden q)).

Definition asInt (json : Json) : Z :=
  match json with
  | JNumber q => trunc q
  | _ => 0
  end.

End JsonUtils.

(** [json === undefined] *)
Definition isUndefined (json : Json) : bool :=
  match json with
  | JUndefined => true
  | _ => false
  end.

(** [!json] of a value that is [undefined], [null], an object or an array. *)
Definition isNullish (json : Json) : bool :=
  match json with
  | JUndefined | JNull => true
  | _ => false
  end.

(** [a ?? b] *)
Definition nullish (a b : Json) : Json :=
  match a with
  | JUndefined | JNull => b
  | _ => a
  end.

Fixpoint assoc (key : string) (props : list (string * Json)) : Json :=
  match props with
  | [] => JUndefined
  | (k, v) :: rest =>
      match assoc key rest with
      | JUndefined => if String.eqb k key then v else JUndefined
      | later => later
      end
  end.

(** [json[key]] for the own properties of a parsed value: reading a property
    of [null] or [undefined] is a TypeError; a primitive has none of the keys
    the decoder asks for.  Properties inherited from a prototype are not
    modelled. *)
Definition getProp (json : Json) (key : string) : Result Json :=
  match json with
  | JUndefined | JNull => Throw
  | JObject props => Ok (assoc key props)
  | JArray _ | JBool _ | JNumber _ | JString _ => Ok JUndefined
  end.

(** ** The byte stream

    Modelled from the spec: [ByteStream] of @itwin/core-bentley is not among
    the sources.  The spec gives it a backing buffer, a mutable read cursor,
    fixed-width little-endian reads, raw slices and bounds tracking through
    [isPastTheEnd]: a read that runs past the end of the buffer moves the
    cursor past the end and is detected there, bytes that do not exist read
    as zero.  A typed array of negative length does not exist in JavaScript:
    asking for one is a RangeError. *)
Module ByteStream.

Record t : Type := mk { buffer : list byte; curPos : Z }.

Definition length (s : t) : Z := Z.of_nat (List.length (buffer s)).

Definition setCurPos (s : t) (pos : Z) : t := mk (buffer s) pos.

Definition isPastTheEnd (s : t) : bool := length s <? curPos s.

Definition byteAt (buf : list byte) (pos : Z) : Z :=
  if pos <? 0 then 0
  else match buf !! Z.to_nat pos with
       | Some b => Z.of_N (Byte.to_N b)
       | None => 0
       end.

Definition uint32At (buf : list byte) (pos : Z) : Z :=
  byteAt buf pos
  + Z.shiftl (byteAt buf (pos + 1)) 8
  + Z.shiftl (byteAt buf (pos + 2)) 16
  + Z.shiftl (byteAt buf (pos + 3)) 24.

Definition uint16At (buf : list byte) (pos : Z) : Z :=
  byteAt buf pos + Z.shiftl (byteAt buf (pos + 1)) 8.

Definition readUint32 (s : t) : Z * t :=
  (uint32At (buffer s) (curPos s), setCurPos s (curPos s + 4)).

(** The bytes of [[pos, pos + n)] that exist. *)
Definition slice (buf : list byte) (pos n : Z) : list byte :=
  firstn (Z.to_nat n) (skipn (Z.to_nat pos) buf).

Definition nextBytes (s : t) (numBytes : Z) : list byte * t :=
  (slice (buffer s) (curPos s) numBytes, setCurPos s (curPos s + numBytes)).

Definition nextUint32s (s : t) (numUint32s : Z) : Result (list Z * t) :=
  if numUint32s <? 0 then Throw
  else
    let avail := Z.min numUint32s ((length s - curPos s) / 4) in
    Ok (map (fun i => uint32At (buffer s) (curPos s + 4 * Z.of_nat i))
            (seq 0 (Z.to_nat avail)),
        setCurPos s (curPos s + 4 * numUint32s)).

End ByteStream.

(** ** What @itwin/core-common contributes

    None of these declarations is among the sources; the decoder is
    parameterised by them. *)
Module TileReadStatus.
Inductive t : Type :=
| InvalidTileData
| InvalidScene
| InvalidHeader
| InvalidFeatureTable
| NewerMajorVersion.
End TileReadStatus.

Record ImdlHeader : Type := {
  imdl_isValid : bool;
  imdl_isReadableVersion : bool;
  imdl_flags : Z
}.

Class CoreCommon : Type := {
  TileFormat_Unknown : Z;
  TileFormat_Gltf : Z;
  GltfVersions_Version1 : Z;
  GltfVersions_Version2 : Z;
  GltfVersions_Gltf1SceneFormat : Z;
  GltfV2ChunkTypes_JSON : Z;
  GltfV2ChunkTypes_Binary : Z;
  ImdlFlags_MultiModelFeatureTable : Z;
(** [new ImdlHeader(stream)]: the decoded header and the read position
    behind it. *)
ImdlHeader_new : ByteStream.t -> ImdlHeader * Z;
(** [utf8ToString]; [None] is [undefined]. *)
utf8ToString : list byte -> option string;
(** [JSON.parse]; [None] is a thrown SyntaxError. *)
JSON_parse : string -> option Json;
(** [json.toString()] of a value that is neither a string nor nullish. *)
Json_toString : Json -> string
}.

(** Modelled from the spec: [TileHeader] of @itwin/core-common is not among
    the sources.  A chunk header starts with a format tag and a version, one
    32-bit word each; [invalidate] overwrites the format tag. *)
Module TileHeader.
Record t : Type := mk { format : Z; version : Z }.

Definition new (stream : ByteStream.t) : t * ByteStream.t :=
  let '(format, stream) := ByteStream.readUint32 stream in
  let '(version, stream) := ByteStream.readUint32 stream in
  (mk format version, stream).
End TileHeader.

(** Modelled from the spec: [FeatureTableHeader] of @itwin/core-common is not
    among the sources.  The header is three 32-bit words, the declared total
    length (which includes the header's own [sizeInBytes]), the sub-category
    count and the feature count; it cannot be read when the stream ends
    before it does. *)
Module FeatureTableHeader.
Record t : Type := mk { length : Z; numSubCategories : Z; count : Z }.

Definition sizeInBytes : Z := 12.

Definition readFrom (stream : ByteStream.t) : option t * ByteStream.t :=
  let '(length, stream) := ByteStream.readUint32 stream in
  let '(numSubCategories, stream) := ByteStream.readUint32 stream in
  let '(count, stream) := ByteStream.readUint32 stream in
  (if ByteStream.isPastTheEnd stream then None
   else Some (mk length numSubCategories count), stream).
End FeatureTableHeader.

(** ** Typed arrays over the tile's [ArrayBuffer] *)
Module Uint8Array.

(** A view: where it starts in the buffer, and its bytes. *)
Record t : Type := mk { byteOffset : Z; data : list byte }.

Definition byteLength (a : t) : Z := Z.of_nat (List.length (data a)).

(** [new Uint8Array(buffer, byteOffset)] *)
Definition ofBuffer (buffer : list byte) (offset : Z) : Result t :=
  if (offset <? 0) || (Z.of_nat (List.length buffer) <? offset) then Throw
  else Ok (mk offset (skipn (Z.to_nat offset) buffer)).

Definition relativeIndex (len i : Z) : Z :=
  if i <? 0 then Z.max (len + i) 0 else Z.min i len.

(** [a.subarray(begin, end)] *)
Definition subarray (a : t) (begin end_ : Z) : t :=
  let len := byteLength a in
  let b := relativeIndex len begin in
  let e := relativeIndex len end_ in
  mk (byteOffset a + b) (ByteStream.slice (data a) b (Z.max (e - b) 0)).

(** The elements of [new Uint8Array(bytes)]. *)
Definition toUint8s (a : t) : list Z :=
  map (fun b => Z.of_N (Byte.to_N b)) (data a).

(** The elements of
    [new UintNArray(bytes.buffer, bytes.byteOffset, bytes.byteLength / width)]:
    a RangeError unless the view starts on a multiple of the element
    width; a fractional length is truncated. *)
Definition toUints (width : Z) (read : list byte -> Z -> Z) (a : t) : Result (list Z) :=
  if negb (byteOffset a mod width =? 0) then Throw
  else Ok (map (fun i => read (data a) (width * Z.of_nat i))
               (seq 0 (Z.to_nat (byteLength a / width)))).

End Uint8Array.

(** ** Property access on parsed values

    What [ImdlParser] needs of ECMAScript beyond [getProp]: the
    value used as a property key, element access on arrays and strings,
    truthiness, [Object.keys] and [for ... of].  A parsed value has own
    properties only; the inherited ones (methods, [constructor],
    [__proto__]) are functions or prototype objects, which the decoder
    reads only to ask them for a property that they do not have, and they
    are read as [undefined]. *)
Module JsObject.
Open Scope string_scope.
Open Scope Z_scope.

Definition digitValue (c : ascii) : option Z :=
  let n := Z.of_nat (nat_of_ascii c) in
  if ((48 <=? n) && (n <=? 57))%Z then Some (n - 48) else None.

(** The digits of the longest prefix of [s] made of decimal digits. *)
Fixpoint digitsPrefix (s : string) : list Z :=
  match s with
  | EmptyString => []
  | String c s' =>
      match digitValue c with
      | Some d => d :: digitsPrefix s'
      | None => []
      end
  end.

(** [String(i)] of a non-negative integer. *)
Definition indexString (i : Z) : string := NilZero.string_of_uint (N.to_uint (Z.to_N i)).

(** The array index that a property key denotes: the key is the decimal
    numeral of an integer below [2^32 - 1]. *)
Definition arrayIndex (key : string) : option Z :=
  match digitsPrefix key with
  | [] => None
  | ds =>
      let i := fold_left (fun acc d => 10 * acc + d) ds 0 in
      if (i <? 2 ^ 32 - 1) && String.eqb (indexString i) key then Some i else None
  end.

(** [ToPropertyKey(json)] *)
Section WithCoreCommon.
Context {core : CoreCommon}.

Definition propertyKey (json : Json) : string :=
  match json with
  | JString s => s
  | JUndefined => "undefined"
  | JNull => "null"
  | _ => Json_toString json
  end.

End WithCoreCommon.

Definition itemAt (items : list Json) (i : Z) : Json :=
  if i <? Z.of_nat (List.length items) then nth (Z.to_nat i) items JUndefined else JUndefined.

Definition charAt (s : string) (i : Z) : Json :=
  if i <? Z.of_nat (String.length s)
  then match String.get (Z.to_nat i) s with
       | Some c => JString (String c EmptyString)
       | None => JUndefined
       end
  else JUndefined.

(** [json[key]] *)
Definition getElem (json : Json) (key : string) : Result Json :=
  match json with
  | JUndefined | JNull => Throw
  | JObject props => Ok (assoc key props)
  | JArray items =>
      match arrayIndex key with
      | Some i => Ok (itemAt items i)
      | None =>
          Ok (if String.eqb key "length" then JNumber (inject_Z (Z.of_nat (List.length items)))
              else JUndefined)
      end
  | JString s =>
      match arrayIndex key with
      | Some i => Ok (charAt s i)
      | None =>
          Ok (if String.eqb key "length" then JNumber (inject_Z (Z.of_nat (String.length s)))
              else JUndefined)
      end
  | JBool _ | JNumber _ => Ok JUndefined
  end.

(** [json?.key] for a key that is neither an index nor [length]. *)
Definition getOptional (json : Json) (key : string) : Json :=
  match json with
  | JObject props => assoc key props
  | _ => JUndefined
  end.

(** [!!json] *)
Definition truthy (json : Json) : bool :=
  match json with
  | JUndefined | JNull => false
  | JBool b => b
  | JNumber q => negb (Qeq_bool q 0)
  | JString s => negb (String.eqb s "")
  | JArray _ | JObject _ => true
  end.

(** The keys of the members of an object, each once, in the order in which
    they first occur. *)
Fixpoint memberKeys (props : list (string * Json)) : list string :=
  match props with
  | [] => []
  | (k, _) :: rest =>
      k :: List.filter (fun k' => negb (String.eqb k k')) (memberKeys rest)
  end.

Definition isIndexKey (key : string) : bool :=
  match arrayIndex key with
  | Some _ => true
  | None => false
  end.

Definition indexOrder (a b : string) : Prop :=
  match arrayIndex a, arrayIndex b with
  | Some i, Some j => i <= j
  | _, _ => True
  end.

#[global] Instance indexOrder_dec a b : Decision (indexOrder a b).
Proof.
  unfold indexOrder. destruct (arrayIndex a) as [i|]; [|left; exact I].
  destruct (arrayIndex b) as [j|]; [|left; exact I].
  destruct (Z_le_dec i j); [left|right]; assumption.
Defined.

(** [Object.keys(json)]: array indices in ascending order, then the other
    keys in the order of their creation. *)
Definition Object_keys (json : Json) : Result (list string) :=
  match json with
  | JUndefined | JNull => Throw
  | JObject props =>
      let keys := memberKeys props in
      Ok (merge_sort indexOrder (List.filter isIndexKey keys)
          ++ List.filter (fun k => negb (isIndexKey k)) keys)%list
  | JArray items => Ok (map (fun i => indexString (Z.of_nat i)) (seq 0 (List.length items)))
  | JString s => Ok (map (fun i => indexString (Z.of_nat i)) (seq 0 (String.length s)))
  | JBool _ | JNumber _ => Ok []
  end.

(** The values that [for (const x of json)] visits; what is not iterable
    is a TypeError. *)
Definition iterate (json : Json) : Result (list Json) :=
  match json with
  | JArray items => Ok items
  | JString s => Ok (map (fun c => JString (String c EmptyString)) (list_ascii_of_string s))
  | _ => Throw
  end.

End JsObject.

(** ** [ImdlParser.ts] *)
Module ImdlParser.

Open Scope string_scope.

(** *** [extractNodeId]

    A string is the sequence of its UTF-16 code units: the regular
    expression, which has no [u] flag, and [parseInt] both work on code
    units. *)
Definition codeUnits (s : string) : list N := map N_of_ascii (list_ascii_of_string s).

Fixpoint stripPrefix (p s : list N) : option (list N) :=
  match p, s with
  | [], _ => Some s
  | a :: p', b :: s' => if N.eqb a b then stripPrefix p' s' else None
  | _ :: _, [] => None
  end.

(** The line terminators, which [.] refuses: LF, CR, LS and PS. *)
Definition isLineTerminator (c : N) : bool :=
  existsb (N.eqb c) [10; 13; 8232; 8233]%N.

(** The capture group, any characters but line terminators, greedily:
    the rest of the line. *)
Fixpoint dotStar (s : list N) : list N :=
  match s with
  | [] => []
  | c :: s' => if isLineTerminator c then [] else c :: dotStar s'
  end.

(** The characters [Node_]. *)
Definition Node_ : list N := [78; 111; 100; 101; 95]%N.

(** [nodeName.match(nodeIdRegex)], the regular expression being [Node_]
    followed by the capture group: the match array of the leftmost match,
    the matched text followed by group 1, or [None] for [null]. *)
Fixpoint match_nodeIdRegex (nodeName : list N) : option (list (list N)) :=
  match stripPrefix Node_ nodeName with
  | Some rest => Some [(Node_ ++ dotStar rest)%list; dotStar rest]
  | None =>
      match nodeName with
      | [] => None
      | _ :: s' => match_nodeIdRegex s'
      end
  end.

(** The white space and the line terminators, which [parseInt] skips: TAB,
    LF, VT, FF, CR, SP, NBSP, the other space separators U+1680,
    U+2000 to U+200A, U+202F, U+205F and U+3000, LS, PS and the byte order
    mark U+FEFF. *)
Definition isStrWhiteSpaceChar (c : N) : bool :=
  existsb (N.eqb c)
          [9; 10; 11; 12; 13; 32; 160; 5760; 8232; 8233; 8239; 8287; 12288; 65279]%N
  || ((8192 <=? c) && (c <=? 8202))%N.

Fixpoint trimStart (s : list N) : list N :=
  match s with
  | c :: s' => if isStrWhiteSpaceChar c then trimStart s' else s
  | [] => []
  end.

Definition digitValue (c : N) : option Z :=
  if ((48 <=? c) && (c <=? 57))%N then Some (Z.of_N c - 48)%Z else None.

(** The digits of the longest prefix of [s] made of decimal digits. *)
Fixpoint digitsPrefix (s : list N) : list Z :=
  match s with
  | [] => []
  | c :: s' =>
      match digitValue c with
      | Some d => d :: digitsPrefix s'
      | None => []
      end
  end.

(** The numbers that [parseInt] returns, [NaN] apart: a double that is an
    integer, the zero with the sign bit set, and the two infinities. *)
Inductive Number : Type :=
| Integer (value : Z)
| NegativeZero
| Infinity (negative : bool).

(** The double nearest to a natural number, ties going to the even
    significand of 53 bits; [None] when it is beyond the finite doubles. *)
Definition toDouble (m : Z) : option Z :=
  (if m <? 2 ^ 53 then Some m
   else
     let e := Z.log2 m - 52 in
     let q := m / 2 ^ e in
     let r := m mod 2 ^ e in
     let half := 2 ^ (e - 1) in
     let q := if (half <? r) || ((r =? half) && Z.odd q) then q + 1 else q in
     let value := q * 2 ^ e in
     if value <? 2 ^ 1024 then Some value else None)%Z.

(** [Number.parseInt(s, 10)]; [None] is [NaN].  The digits are taken for the
    integer that they denote, however many they are; ECMAScript lets an
    implementation read a digit behind the 20th significant one as 0. *)
Definition Number_parseInt (s : list N) : option Number :=
  let s := trimStart s in
  let '(negative, s) :=
    match s with
    | c :: s' =>
        if N.eqb c 45 then (true, s')
        else if N.eqb c 43 then (false, s')
        else (false, s)
    | [] => (false, s)
    end in
  match digitsPrefix s with
  | [] => None
  | ds =>
      let mathInt := fold_left (fun acc d => 10 * acc + d)%Z ds 0%Z in
      if (mathInt =? 0)%Z then Some (if negative then NegativeZero else Integer 0)
      else
        match toDouble mathInt with
        | Some value => Some (Integer (if negative then - value else value)%Z)
        | None => Some (Infinity negative)
        end
  end.

(** Modelled from the spec: [assert] of @itwin/core-bentley is not among
    the sources.  The spec has [extractNodeId] never throw and the code
    handles, after each assertion, the very condition it asserts: an
    assertion is a check without effect on the control flow. *)
Definition assert (condition : bool) : unit := tt.

Definition extractNodeId (nodeName : list N) : Number :=
  let match_ := match_nodeIdRegex nodeName in
  let _ := assert (match match_ with Some m => (List.length m =? 2)%nat | None => false end) in
  match match_ with
  | None => Integer 0
  | Some m =>
      if negb (List.length m =? 2)%nat then Integer 0
      else
        let nodeId := Number_parseInt (nth 1 m []) in
        let _ := assert (match nodeId with Some _ => true | None => false end) in
        match nodeId with
        | None => Integer 0
        | Some nodeId => nodeId
        end
  end.

Close Scope string_scope.

Section WithCoreCommon.
Context {core : CoreCommon}.
(** [Imdl.Node], the parser options other than the stream, and
    [ImdlParser.parseNodes], which the properties below do not look into. *)
Context {Node ImdlParserOptions : Type}.

(** *** [GltfHeader] *)
Record GltfHeader : Type := {
  header : TileHeader.t;
  gltfLength : Z;
  scenePosition : Z;
  sceneStrLength : Z;
  binaryPosition : Z
}.

Definition isValid (h : GltfHeader) : bool :=
  TileFormat_Gltf =? TileHeader.format (header h).

Definition invalidate (h : TileHeader.t) : TileHeader.t :=
  TileHeader.mk TileFormat_Unknown (TileHeader.version h).

Definition GltfHeader_new (stream : ByteStream.t) : GltfHeader * ByteStream.t :=
  let '(super, stream) := TileHeader.new stream in
  let '(gltfLength, stream) := ByteStream.readUint32 stream in
  let '(sceneStrLength, stream) := ByteStream.readUint32 stream in
  let '(value5, stream) := ByteStream.readUint32 stream in
  let super :=
    if (TileHeader.version super =? GltfVersions_Version2)
       && (value5 =? GltfVersions_Gltf1SceneFormat)
    then TileHeader.mk (TileHeader.format super) GltfVersions_Version1
    else super in
  if TileHeader.version super =? GltfVersions_Version1 then
    let gltfSceneFormat := value5 in
    if negb (GltfVersions_Gltf1SceneFormat =? gltfSceneFormat) then
      ({| header := invalidate super; gltfLength := gltfLength; scenePosition := 0;
          sceneStrLength := sceneStrLength; binaryPosition := 0 |}, stream)
    else
      ({| header := super; gltfLength := gltfLength;
          scenePosition := ByteStream.curPos stream;
          sceneStrLength := sceneStrLength;
          binaryPosition := ByteStream.curPos stream + sceneStrLength |}, stream)
  else if TileHeader.version super =? GltfVersions_Version2 then
    let sceneChunkType := value5 in
    let scenePosition := ByteStream.curPos stream in
    let stream := ByteStream.setCurPos stream (ByteStream.curPos stream + sceneStrLength) in
    let '(binaryLength, stream) := ByteStream.readUint32 stream in
    let '(binaryChunkType, stream) := ByteStream.readUint32 stream in
    if negb (GltfV2ChunkTypes_JSON =? sceneChunkType)
       || negb (GltfV2ChunkTypes_Binary =? binaryChunkType)
       || (0 =? binaryLength)
    then
      ({| header := invalidate super; gltfLength := gltfLength;
          scenePosition := scenePosition; sceneStrLength := sceneStrLength;
          binaryPosition := 0 |}, stream)
    else
      ({| header := super; gltfLength := gltfLength; scenePosition := scenePosition;
          sceneStrLength := sceneStrLength;
          binaryPosition := ByteStream.curPos stream |}, stream)
  else
    ({| header := invalidate super; gltfLength := gltfLength; scenePosition := 0;
        sceneStrLength := sceneStrLength; binaryPosition := 0 |}, stream).

(** *** [ImdlParser] *)

Definition JsonUtils_asString (json : Json) : string :=
  match json with
  | JUndefined | JNull => EmptyString
  | JString s => s
  | _ => Json_toString json
  end.

Record Document : Type := {
  scene : string;
  scenes : Json;
  animationNodes : Json;
  bufferViews : Json;
  meshes : Json;
  nodes : Json;
  materials : Json;
  renderMaterials : Json;
  namedTextures : Json;
  patternSymbols : Json;
  rtcCenter : Json
}.

Record FeatureTableInfo : Type := { startPos : Z; multiModel : bool }.

(** [Imdl.FeatureTable]: [numSubCategories] is there for a multi-model
    table, [animationNodeIds] may be there for a single-model one. *)
Record FeatureTable : Type := {
  ft_multiModel : bool;
  ft_data : list Z;
  ft_numFeatures : Z;
  ft_numSubCategories : option Z;
  ft_animationNodeIds : option (list Z)
}.

Record ImdlDocument : Type := {
  featureTable : FeatureTable;
  imdl_nodes : list Node;
  imdl_rtcCenter : option (Json * Json * Json);
  binaryData : Uint8Array.t;
  json : Document
}.

Variable parseNodes :
  Document -> Uint8Array.t -> ImdlParserOptions -> FeatureTable -> Result (list Node).

(** What the [animationNodes] descriptor of the scene resolves to:
    [bytesPerId] and the [bytes] of its buffer view. *)
Definition animationNodeBytes (document : Document) (binaryData : Uint8Array.t)
  : Result (option (Z * Uint8Array.t)) :=
  let animationNodes := animationNodes document in
  if isUndefined animationNodes then Ok None
  else
    bytesPerId ← JsonUtils.asInt <$> getProp animationNodes "bytesPerId";
    bufferViewId ← JsonUtils_asString <$> getProp animationNodes "bufferView";
    bufferViewJson ← JsObject.getElem (bufferViews document) bufferViewId;
    if isUndefined bufferViewJson then Ok None
    else
      byteOffset ← JsonUtils.asInt <$> getProp bufferViewJson "byteOffset";
      byteLength ← JsonUtils.asInt <$> getProp bufferViewJson "byteLength";
      Ok (Some (bytesPerId,
                Uint8Array.subarray binaryData byteOffset (byteOffset + byteLength))).

(** The animation node ids of a single-model table. *)
Definition parseAnimationNodeIds (document : Document) (binaryData : Uint8Array.t)
  : Result (option (list Z)) :=
  view ← animationNodeBytes document binaryData;
  match view with
  | None => Ok None
  | Some (bytesPerId, bytes) =>
      if bytesPerId =? 1 then Ok (Some (Uint8Array.toUint8s bytes))
      else if bytesPerId =? 2 then
        Some <$> Uint8Array.toUints 2 ByteStream.uint16At bytes
      else if bytesPerId =? 4 then
        Some <$> Uint8Array.toUints 4 ByteStream.uint32At bytes
      else Ok None
  end.

Definition parseFeatureTable (document : Document) (binaryData : Uint8Array.t)
    (stream : ByteStream.t) (featureTableInfo : FeatureTableInfo)
  : Result (option FeatureTable * ByteStream.t) :=
  let stream := ByteStream.setCurPos stream (startPos featureTableInfo) in
  let '(header, stream) := FeatureTableHeader.readFrom stream in
  match header with
  | None => Ok (None, stream)
  | Some header =>
      if negb (0 =? Z.rem (FeatureTableHeader.length header) 4) then Ok (None, stream)
      else
        let numUint32s :=
          (FeatureTableHeader.length header - FeatureTableHeader.sizeInBytes) / 4 in
        '(packedFeatureArray, stream) ← ByteStream.nextUint32s stream numUint32s;
        if ByteStream.isPastTheEnd stream then Ok (None, stream)
        else
          featureTable ←
            (if multiModel featureTableInfo then
               Ok {| ft_multiModel := true;
                     ft_data := packedFeatureArray;
                     ft_numFeatures := FeatureTableHeader.count header;
                     ft_numSubCategories := Some (FeatureTableHeader.numSubCategories header);
                     ft_animationNodeIds := None |}
             else
               animNodesArray ← parseAnimationNodeIds document binaryData;
               Ok {| ft_multiModel := false;
                     ft_data := packedFeatureArray;
                     ft_numFeatures := FeatureTableHeader.count header;
                     ft_numSubCategories := None;
                     ft_animationNodeIds := animNodesArray |});
          Ok (Some featureTable,
              ByteStream.setCurPos stream
                (startPos featureTableInfo + FeatureTableHeader.length header))
  end.

Definition parse (document : Document) (binaryData : Uint8Array.t)
    (options : ImdlParserOptions) (stream : ByteStream.t)
    (featureTableInfo : FeatureTableInfo)
  : Result (ImdlDocument + TileReadStatus.t) :=
  '(featureTable, stream) ← parseFeatureTable document binaryData stream featureTableInfo;
  match featureTable with
  | None => Ok (inr TileReadStatus.InvalidFeatureTable)
  | Some featureTable =>
      let rtcCenter :=
        match rtcCenter document with
        | JArray items =>
            Some (nullish (nth 0 items JUndefined) (JNumber 0),
                  nullish (nth 1 items JUndefined) (JNumber 0),
                  nullish (nth 2 items JUndefined) (JNumber 0))
        | _ => None
        end in
      nodes ← parseNodes document binaryData options featureTable;
      Ok (inl {| featureTable := featureTable;
                 imdl_nodes := nodes;
                 imdl_rtcCenter := rtcCenter;
                 binaryData := binaryData;
                 json := document |})
  end.

(** The [try] block of [parseImdlDocument], up to the arguments of
    [new ImdlParser]. *)
Definition readScene (stream : ByteStream.t)
    (imdlHeader : ImdlHeader) (ftStartPos : Z) (gltfHeader : GltfHeader)
    (sceneStr : string)
  : Result (Document * Uint8Array.t * FeatureTableInfo + TileReadStatus.t) :=
  match JSON_parse sceneStr with
  | None => Throw
  | Some sceneValue =>
      scene ← JsonUtils_asString <$> getProp sceneValue "scene";
      scenes ← JsonUtils.asArray <$> getProp sceneValue "scenes";
      animationNodes ← JsonUtils.asObject <$> getProp sceneValue "animationNodes";
      bufferViews ← JsonUtils.asObject <$> getProp sceneValue "bufferViews";
      meshes ← JsonUtils.asObject <$> getProp sceneValue "meshes";
      nodes ← JsonUtils.asObject <$> getProp sceneValue "nodes";
      materials ← JsonUtils.asObject <$> getProp sceneValue "materials";
      renderMaterials ← JsonUtils.asObject <$> getProp sceneValue "renderMaterials";
      namedTextures ← JsonUtils.asObject <$> getProp sceneValue "namedTextures";
      patternSymbols ← JsonUtils.asObject <$> getProp sceneValue "patternSymbols";
      rtcCenter ← JsonUtils.asArray <$> getProp sceneValue "rtcCenter";
      let imdlDoc :=
        {| scene := scene;
           scenes := scenes;
           animationNodes := animationNodes;
           bufferViews := nullish bufferViews (JObject []);
           meshes := meshes;
           nodes := nullish nodes (JObject []);
           materials := nullish materials (JObject []);
           renderMaterials := nullish renderMaterials (JObject []);
           namedTextures := nullish namedTextures (JObject []);
           patternSymbols := nullish patternSymbols (JObject []);
           rtcCenter := rtcCenter |} in
      if isNullish meshes then Ok (inr TileReadStatus.InvalidTileData)
      else
        binaryData ← Uint8Array.ofBuffer (ByteStream.buffer stream) (binaryPosition gltfHeader);
        let featureTable :=
          {| startPos := ftStartPos;
             multiModel :=
               negb (0 =? Z.land (imdl_flags imdlHeader) ImdlFlags_MultiModelFeatureTable) |} in
        Ok (inl (imdlDoc, binaryData, featureTable))
  end.

(** The [try] block of [parseImdlDocument]. *)
Definition parseScene (options : ImdlParserOptions) (stream : ByteStream.t)
    (imdlHeader : ImdlHeader) (ftStartPos : Z) (gltfHeader : GltfHeader)
    (sceneStr : string)
  : Result (ImdlDocument + TileReadStatus.t) :=
  scene ← readScene stream imdlHeader ftStartPos gltfHeader sceneStr;
  match scene with
  | inl (imdlDoc, binaryData, featureTable) =>
      parse imdlDoc binaryData options stream featureTable
  | inr status => Ok (inr status)
  end.

(** The stages of [parseImdlDocument] between the feature-table header
    and [new ImdlParser], on their own: the scene chunk header at
    [ftStartPos + ftLength], the scene text, its document and the binary
    data, or the status of the stage that fails. *)
Definition decodeScene (stream : ByteStream.t) (imdlHeader : ImdlHeader)
    (ftStartPos ftLength : Z)
  : Document * Uint8Array.t * FeatureTableInfo * ByteStream.t + TileReadStatus.t :=
  let stream := ByteStream.setCurPos stream (ftStartPos + ftLength) in
  let '(gltfHeader, stream) := GltfHeader_new stream in
  if negb (isValid gltfHeader) then inr TileReadStatus.InvalidTileData
  else
    let stream := ByteStream.setCurPos stream (scenePosition gltfHeader) in
    let '(sceneStrData, stream) := ByteStream.nextBytes stream (sceneStrLength gltfHeader) in
    match utf8ToString sceneStrData with
    | None | Some EmptyString => inr TileReadStatus.InvalidScene
    | Some sceneStr =>
        match readScene stream imdlHeader ftStartPos gltfHeader sceneStr with
        | Ok (inl (imdlDoc, binaryData, featureTable)) =>
            inl (imdlDoc, binaryData, featureTable, stream)
        | Ok (inr status) => inr status
        | Throw => inr TileReadStatus.InvalidTileData
        end
    end.

Definition parseImdlDocument (options : ImdlParserOptions) (stream : ByteStream.t)
  : ImdlDocument + TileReadStatus.t :=
  let '(imdlHeader, pos) := ImdlHeader_new stream in
  let stream := ByteStream.setCurPos stream pos in
  if negb (imdl_isValid imdlHeader) then inr TileReadStatus.InvalidHeader
  else if negb (imdl_isReadableVersion imdlHeader) then inr TileReadStatus.NewerMajorVersion
  else
    let ftStartPos := ByteStream.curPos stream in
    let '(ftHeader, stream) := FeatureTableHeader.readFrom stream in
    match ftHeader with
    | None => inr TileReadStatus.InvalidFeatureTable
    | Some ftHeader =>
        let stream :=
          ByteStream.setCurPos stream (ftStartPos + FeatureTableHeader.length ftHeader) in
        let '(gltfHeader, stream) := GltfHeader_new stream in
        if negb (isValid gltfHeader) then inr TileReadStatus.InvalidTileData
        else
          let stream := ByteStream.setCurPos stream (scenePosition gltfHeader) in
          let '(sceneStrData, stream) :=
            ByteStream.nextBytes stream (sceneStrLength gltfHeader) in
          match utf8ToString sceneStrData with
          | None | Some EmptyString => inr TileReadStatus.InvalidScene
          | Some sceneStr =>
              match parseScene options stream imdlHeader ftStartPos gltfHeader sceneStr with
              | Ok result => result
              | Throw => inr TileReadStatus.InvalidTileData
              end
          end
    end.

End WithCoreCommon.
End ImdlParser.

(** ** An instance of [CoreCommon] that computes

    The constants are those of the tile format; the header reader takes the
    leading words of the iMdl header (format tag, version, header length,
    flags) and skips to the end of the header; [JSON_parse] knows the scene
    texts of the examples. *)
Module SampleCore.

Definition byteOfZ (v : Z) : byte :=
  match Byte.of_N (Z.to_N (v mod 256)) with
  | Some b => b
  | None => x00
  end.

(** The four bytes of a 32-bit word, little-endian. *)
Definition u32 (v : Z) : list byte :=
  [byteOfZ v; byteOfZ (Z.shiftr v 8); byteOfZ (Z.shiftr v 16); byteOfZ (Z.shiftr v 24)].

Definition bytesOfString (s : string) : list byte := map byte_of_ascii (list_ascii_of_string s).

Definition stringOfBytes (l : list byte) : string := string_of_list_ascii (map ascii_of_byte l).

Definition TileFormat_IModel : Z := 0x6c644d69.
Definition CurrentImdlVersion_Major : Z := 33.

Definition readImdlHeader (stream : ByteStream.t) : ImdlHeader * Z :=
  let '(header, stream) := TileHeader.new stream in
  let '(headerLength, stream) := ByteStream.readUint32 stream in
  let '(flags, stream) := ByteStream.readUint32 stream in
  ({| imdl_isValid := TileFormat_IModel =? TileHeader.format header;
      imdl_isReadableVersion :=
        Z.shiftr (TileHeader.version header) 16 <=? CurrentImdlVersion_Major;
      imdl_flags := flags |},
   headerLength).

(** The scene of the examples: three animation node ids of one byte each. *)
Definition sceneText : string :=
  "{'animationNodes':{'bytesPerId':1,'bufferView':'bv'},'bufferViews':{'bv':{'byteOffset':0,'byteLength':3}},'meshes':{}}".

Definition sceneValue : Json :=
  JObject
    [("animationNodes"%string,
      JObject [("bytesPerId"%string, JNumber 1); ("bufferView"%string, JString "bv")]);
     ("bufferViews"%string,
      JObject [("bv"%string,
                JObject [("byteOffset"%string, JNumber 0); ("byteLength"%string, JNumber 3)])]);
     ("meshes"%string, JObject [])].

#[export] Instance core : CoreCommon := {|
  TileFormat_Unknown := 0;
  TileFormat_Gltf := 0x46546c67;
  GltfVersions_Version1 := 1;
  GltfVersions_Version2 := 2;
  GltfVersions_Gltf1SceneFormat := 0;
  GltfV2ChunkTypes_JSON := 0x4e4f534a;
  GltfV2ChunkTypes_Binary := 0x004e4942;
  ImdlFlags_MultiModelFeatureTable := 16;
  ImdlHeader_new := readImdlHeader;
  utf8ToString := fun bytes => Some (stringOfBytes bytes);
  JSON_parse := fun text => if String.eqb text sceneText then Some sceneValue else None;
  Json_toString := fun _ => EmptyString
|}.

(** The nodes of the examples: none. *)
Definition noNodes : ImdlParser.Document -> Uint8Array.t -> unit -> ImdlParser.FeatureTable
                     -> Result (list unit) :=
  fun _ _ _ _ => Ok [].

(** A tile: header, feature table header declaring [ftLength] bytes and
    [count] features, the bytes [ftBody] behind it, a scene chunk header
    with the given version and fifth word, the scene text and the binary
    data. *)
Definition tile (ftLength count : Z) (ftBody : list byte) (gltfVersion value5 : Z)
    (scene : string) (binary : list byte) : list byte :=
  u32 TileFormat_IModel ++ u32 0 ++ u32 16 ++ u32 0
  ++ u32 ftLength ++ u32 0 ++ u32 count ++ ftBody
  ++ u32 0x46546c67 ++ u32 gltfVersion ++ u32 0
  ++ u32 (Z.of_nat (String.length scene)) ++ u32 value5
  ++ bytesOfString scene ++ binary.

End SampleCore.

(** ** The geometry library under the offset engine

    Modelled from the spec: the classes of core/geometry that
    [PolygonOffsetContext.ts] imports ([Geometry], [Point3d], [Vector3d],
    [Ray3d], [LineSegment3d], [LineString3d], [Arc3d], [CurveCurve]) are not
    among the sources.  Points, vectors and line segments are given below
    with exact rational arithmetic; what takes a square root, a
    trigonometric function or the geometry of an arc is a parameter
    ([GeometryKernel]). *)

Open Scope Q_scope.

Definition Qltb (a b : Q) : bool := negb (Qle_bool b a).

Module Geometry.

(** The fixed absolute tolerance of the point-equality tests. *)
Definition smallMetricDistance : Q := 1 # 1000000.

Definition isSameCoordinate (a b : Q) : bool :=
  Qle_bool (Qabs (a - b)) smallMetricDistance.

(** [Math.max(min, Math.min(max, value))] *)
Definition clamp (value min max : Q) : Q := Qmax min (Qmin max value).

End Geometry.

Record XYZ : Type := mkXYZ { x : Q; y : Q; z : Q }.
Definition Point3d : Type := XYZ.
Definition Vector3d : Type := XYZ.

Module Point3d.

Definition isAlmostEqual (a b : Point3d) : bool :=
  Geometry.isSameCoordinate (x a) (x b)
  && Geometry.isSameCoordinate (y a) (y b)
  && Geometry.isSameCoordinate (z a) (z b).

Definition plusScaled (p : Point3d) (v : Vector3d) (scale : Q) : Point3d :=
  mkXYZ (x p + x v * scale) (y p + y v * scale) (z p + z v * scale).

Definition interpolate (p : Point3d) (fraction : Q) (other : Point3d) : Point3d :=
  mkXYZ (x p + fraction * (x other - x p))
        (y p + fraction * (y other - y p))
        (z p + fraction * (z other - z p)).

End Point3d.

Module Vector3d.

Definition createStartEnd (a b : Point3d) : Vector3d :=
  mkXYZ (x b - x a) (y b - y a) (z b - z a).

Definition rotate90CCWXY (v : Vector3d) : Vector3d := mkXYZ (- y v) (x v) (z v).

Definition magnitudeSquared (v : Vector3d) : Q := x v * x v + y v * y v + z v * z v.

Definition scale (v : Vector3d) (a : Q) : Vector3d := mkXYZ (x v * a) (y v * a) (z v * a).

End Vector3d.

Record Angle : Type := mkAngle { radians : Q; degrees : Q }.

Record Ray3d : Type := mkRay3d { origin : Point3d; direction : Vector3d }.

Module CurveCurveApproachType.
Inductive t : Type :=
| Intersection
| PerpendicularChord
| CoincidentGeometry
| ParallelGeometry.

Definition eqb (a b : t) : bool :=
  match a, b with
  | Intersection, Intersection
  | PerpendicularChord, PerpendicularChord
  | CoincidentGeometry, CoincidentGeometry
  | ParallelGeometry, ParallelGeometry => true
  | _, _ => false
  end.
End CurveCurveApproachType.

Record CurveLocationDetail : Type := mkDetail { fraction : Q; point : Point3d }.

Record CurveLocationDetailPair : Type := mkPair {
  approachType : option CurveCurveApproachType.t;
  detailA : CurveLocationDetail;
  detailB : CurveLocationDetail
}.

Record Arc3d : Type := mkArc3d {
  center : Point3d;
  vector0 : Vector3d;
  vector90 : Vector3d;
  sweepStartRadians : Q;
  sweepEndRadians : Q
}.

(** The curve primitives that occur in a joint chain: the fragments of a
    polygon are line segments, the curve put into a joint is a line segment,
    a line string or an arc. *)
Inductive CurveGeometry : Type :=
| LineSegment3d (point0 point1 : Point3d)
| LineString3d (packedPoints : list Point3d)
| ArcGeometry (arc : Arc3d).

(** A primitive with the two properties that [applyBasePoints] attaches. *)
Record CurvePrimitive : Type := mkCurve {
  geometry : CurveGeometry;
  baseCurveStart : option Point3d;
  baseCurveEnd : option Point3d
}.

Class GeometryKernel : Type := {
(** [Math.sqrt], [Math.cos] *)
Math_sqrt : Q -> Q;
Math_cos : Q -> Q;
(** [a.angleToXY(b)], the signed angle from [a] to [b] seen in the xy-plane *)
Vector3d_angleToXY : Vector3d -> Vector3d -> Angle;
(** [Ray3d.closestApproachRay3dRay3d] *)
Ray3d_closestApproachRay3dRay3d : Ray3d -> Ray3d -> CurveLocationDetailPair;
(** [CurveCurve.intersectionXYPairs(curveA, false, curveB, false)] *)
CurveCurve_intersectionXYPairs : CurvePrimitive -> CurvePrimitive -> list CurveLocationDetailPair;
(** [arc.fractionAndRadialFractionToPoint] *)
Arc3d_fractionAndRadialFractionToPoint : Arc3d -> Q -> Q -> Point3d;
(** [emitStrokes] of a primitive that is not a line segment, from the
    destination's points to its points afterwards *)
Curve_emitStrokes : CurveGeometry -> list Point3d -> list Point3d;
(** the length at or below which [normalizeInPlace] gives up *)
Vector3d_smallestNormalized : Q;
(** [fractionToPointAndDerivative] and [clonePartialCurve] of a primitive
    that is not a line segment *)
Curve_fractionToPointAndDerivative : CurveGeometry -> Q -> Ray3d;
Curve_clonePartialCurve : CurveGeometry -> Q -> Q -> CurveGeometry
}.

Module Curves.
Section WithKernel.
Context {kernel : GeometryKernel}.

Definition magnitude (v : Vector3d) : Q := Math_sqrt (Vector3d.magnitudeSquared v).

Definition distance (a b : Point3d) : Q := magnitude (Vector3d.createStartEnd a b).

(** [normalizeInPlace]: fails on a vector that the library finds too short
    to divide by its length. *)
Definition normalize (v : Vector3d) : option Vector3d :=
  let m := magnitude v in
  if Qle_bool (Qabs m) Vector3d_smallestNormalized then None
  else Some (Vector3d.scale v (/ m)).

Definition LineSegment3d_create (a b : Point3d) : CurvePrimitive :=
  mkCurve (LineSegment3d a b) None None.

Definition LineString3d_create (points : list Point3d) : CurvePrimitive :=
  mkCurve (LineString3d points) None None.

Definition fractionToPointAndDerivative (c : CurvePrimitive) (f : Q) : Ray3d :=
  match geometry c with
  | LineSegment3d p0 p1 =>
      mkRay3d (Point3d.interpolate p0 f p1) (Vector3d.createStartEnd p0 p1)
  | g => Curve_fractionToPointAndDerivative g f
  end.

Definition fractionToPoint (c : CurvePrimitive) (f : Q) : Point3d :=
  origin (fractionToPointAndDerivative c f).

Definition startPoint (c : CurvePrimitive) : Point3d :=
  match geometry c with
  | LineSegment3d p0 _ => p0
  | _ => fractionToPoint c 0
  end.

Definition endPoint (c : CurvePrimitive) : Point3d :=
  match geometry c with
  | LineSegment3d _ p1 => p1
  | _ => fractionToPoint c 1
  end.

Definition clonePartialCurve (c : CurvePrimitive) (fA fB : Q) : CurvePrimitive :=
  match geometry c with
  | LineSegment3d _ _ => LineSegment3d_create (fractionToPoint c fA) (fractionToPoint c fB)
  | g => mkCurve (Curve_clonePartialCurve g fA fB) None None
  end.

(** [curve.clone()]: the copy has the geometry of the curve and none of the
    properties that [applyBasePoints] attached to it. *)
Definition clone (c : CurvePrimitive) : CurvePrimitive := mkCurve (geometry c) None None.

(** [curve.emitStrokes(destination)] with no stroke options: a line segment
    pushes its two end points, whatever the destination ends with. *)
Definition emitStrokes (c : CurvePrimitive) (destination : list Point3d) : list Point3d :=
  match geometry c with
  | LineSegment3d p0 p1 => destination ++ [p0; p1]
  | g => Curve_emitStrokes g destination
  end.

End WithKernel.
End Curves.

(** ** [PolygonOffsetContext.ts] *)

Module JointMode.
Inductive t : Type :=
| Unknown
| Cap
| Extend
| Trim
| JustGeometry
| Gap.

Definition eqb (a b : t) : bool :=
  match a, b with
  | Unknown, Unknown | Cap, Cap | Extend, Extend | Trim, Trim
  | JustGeometry, JustGeometry | Gap, Gap => true
  | _, _ => false
  end.
End JointMode.

Module JointOptions.

Record t : Type := mk {
  minArcDegrees : Q;
  maxChamferTurnDegrees : Q;
  allowSharpestCorners : bool;
  leftOffsetDistance : Q;
  preserveEllipticalArcs : bool
}.

(** [new JointOptions(leftOffsetDistance)] with the defaults of the
    constructor. *)
Definition new (leftOffsetDistance : Q) : t := mk 180 90 false leftOffsetDistance false.

(** [JointOptions.create] of [number | JointOptions]. *)
Definition create (leftOffsetDistanceOrOptions : Q + t) : t :=
  match leftOffsetDistanceOrOptions with
  | inr options => options
  | inl distance => new distance
  end.

Definition needArc (options : t) (theta : Angle) : bool :=
  Qle_bool (minArcDegrees options) (Qabs (degrees theta)).

Definition numChamferPoints (options : t) (theta : Angle) : Z :=
  let degrees := Qabs (degrees theta) in
  let minStepDegreesClamp : Q := 10 in
  let maxStepDegreesClamp : Q :=
    if allowSharpestCorners options then maxChamferTurnDegrees options else 120 in
  let stepDegrees :=
    Geometry.clamp (maxChamferTurnDegrees options) minStepDegreesClamp maxStepDegreesClamp in
  if Qle_bool degrees stepDegrees then 1%Z
  else Qceiling (degrees / stepDegrees).

End JointOptions.

(** A joint is named by its index in the store. *)
Definition JointRef : Type := nat.

Record Joint : Type := mkJoint {
  flexure : JointMode.t;
  curve0 : option CurvePrimitive;
  fraction0 : option Q;
  curve1 : option CurvePrimitive;
  fraction1 : option Q;
  jointCurve : option CurvePrimitive;
  swingPoint : option Point3d;
  nextJoint : option JointRef;
  previousJoint : option JointRef
}.

Definition set_flexure (v : JointMode.t) (j : Joint) : Joint :=
  mkJoint v (curve0 j) (fraction0 j) (curve1 j) (fraction1 j) (jointCurve j)
          (swingPoint j) (nextJoint j) (previousJoint j).
Definition set_curve0 (v : option CurvePrimitive) (j : Joint) : Joint :=
  mkJoint (flexure j) v (fraction0 j) (curve1 j) (fraction1 j) (jointCurve j)
          (swingPoint j) (nextJoint j) (previousJoint j).
Definition set_fraction0 (v : option Q) (j : Joint) : Joint :=
  mkJoint (flexure j) (curve0 j) v (curve1 j) (fraction1 j) (jointCurve j)
          (swingPoint j) (nextJoint j) (previousJoint j).
Definition set_curve1 (v : option CurvePrimitive) (j : Joint) : Joint :=
  mkJoint (flexure j) (curve0 j) (fraction0 j) v (fraction1 j) (jointCurve j)
          (swingPoint j) (nextJoint j) (previousJoint j).
Definition set_fraction1 (v : option Q) (j : Joint) : Joint :=
  mkJoint (flexure j) (curve0 j) (fraction0 j) (curve1 j) v (jointCurve j)
          (swingPoint j) (nextJoint j) (previousJoint j).
Definition set_jointCurve (v : option CurvePrimitive) (j : Joint) : Joint :=
  mkJoint (flexure j) (curve0 j) (fraction0 j) (curve1 j) (fraction1 j) v
          (swingPoint j) (nextJoint j) (previousJoint j).
Definition set_nextJoint (v : option JointRef) (j : Joint) : Joint :=
  mkJoint (flexure j) (curve0 j) (fraction0 j) (curve1 j) (fraction1 j) (jointCurve j)
          (swingPoint j) v (previousJoint j).
Definition set_previousJoint (v : option JointRef) (j : Joint) : Joint :=
  mkJoint (flexure j) (curve0 j) (fraction0 j) (curve1 j) (fraction1 j) (jointCurve j)
          (swingPoint j) (nextJoint j) v.

(** The result of the offset: [Loop.create(chain)] or [Path.create(chain)]
    of a line string. *)
Inductive CurveChain : Type :=
| Loop (chain : list Point3d)
| Path (chain : list Point3d).

Module JointOps.
Section WithKernel.
Context {kernel : GeometryKernel}.
Import Curves.

(** [new Joint(curve0, curve1, swingPoint)] *)
Definition new_Joint (curve0 curve1 : option CurvePrimitive) (swingPoint : option Point3d)
  : Joint :=
  mkJoint JointMode.Unknown curve0 None curve1 None None swingPoint None None.

Definition constructArc (ray0 : Ray3d) (center : option Point3d) (ray1 : Ray3d)
  : option Arc3d :=
  match center with
  | Some center =>
      if Geometry.isSameCoordinate (distance (origin ray0) center)
                                   (distance (origin ray1) center)
      then
        let angle := Vector3d_angleToXY (direction ray0) (direction ray1) in
        let vector0 := Vector3d.createStartEnd center (origin ray0) in
        let vector90 := Vector3d.rotate90CCWXY vector0 in
        Some (mkArc3d center vector0 vector90 0 (radians angle))
      else None
  | None => None
  end.

(** The interior vertices of a chamfer of [numChamferPoints] points. *)
Definition chamferPoints (arc : Arc3d) (theta : Angle) (numChamferPoints : Z)
  : list Point3d :=
  let radians0 := radians theta in
  let numHalfStep := 2 * inject_Z numChamferPoints in
  let halfStepRadians := radians0 / numHalfStep in
  let radialFraction := 1 / Math_cos halfStepRadians in
  map (fun i : nat =>
         let arcFraction := (1 + 2 * inject_Z (Z.of_nat i)) / numHalfStep in
         Arc3d_fractionAndRadialFractionToPoint arc arcFraction radialFraction)
      (seq 0 (Z.to_nat numChamferPoints)).

(** The end of [annotateExtension]: the gap is filled by a line segment. *)
Definition fillGap (c0 c1 : CurvePrimitive) (this : Joint) : Joint :=
  set_fraction1 (Some 0)
    (set_fraction0 (Some 1)
       (set_jointCurve (Some (LineSegment3d_create (fractionToPoint c0 1) (fractionToPoint c1 0)))
          (set_flexure JointMode.Gap this))).

Definition annotateExtension (options : JointOptions.t) (this : Joint) : Joint :=
  match curve0 this, curve1 this with
  | Some c0, Some c1 =>
      let ray0 := fractionToPointAndDerivative c0 1 in
      let ray1 := fractionToPointAndDerivative c1 0 in
      let intersection := Ray3d_closestApproachRay3dRay3d ray0 ray1 in
      match approachType intersection with
      | Some CurveCurveApproachType.Intersection =>
          if Qle_bool 0 (fraction (detailA intersection))
             && Qle_bool (fraction (detailB intersection)) 0
          then
            let this :=
              set_flexure JointMode.Extend (set_fraction1 (Some 0) (set_fraction0 (Some 1) this)) in
            let theta := Vector3d_angleToXY (direction ray0) (direction ray1) in
            let chamfer :=
              let numChamferPoints := JointOptions.numChamferPoints options theta in
              if numChamferPoints <=? 1 then
                set_jointCurve
                  (Some (LineString3d_create
                           [origin ray0; point (detailA intersection); origin ray1]))
                  this
              else if 1 <? numChamferPoints then
                match constructArc ray0 (baseCurveEnd c0) ray1 with
                | Some arc =>
                    set_jointCurve
                      (Some (LineString3d_create
                               (origin ray0 :: chamferPoints arc theta numChamferPoints
                                  ++ [origin ray1])))
                      this
                | None => fillGap c0 c1 this
                end
              else fillGap c0 c1 this in
            if JointOptions.needArc options theta then
              match constructArc ray0 (baseCurveEnd c0) ray1 with
              | Some arc => set_jointCurve (Some (mkCurve (ArcGeometry arc) None None)) this
              | None => chamfer
              end
            else chamfer
          else fillGap c0 c1 this
      | _ => fillGap c0 c1 this
      end
  | _, _ => this
  end.

(** [Number.MAX_VALUE] *)
Definition Number_MAX_VALUE : Q := inject_Z (2 ^ 1024 - 2 ^ 971).

Definition selectIntersectionIndexByFraction (fractionA fractionB : Q)
    (intersections : list CurveLocationDetailPair) : Z :=
  fst (fst (fold_left
         (fun (acc : Z * Q * Z) (candidate : CurveLocationDetailPair) =>
            let '(index, aMin, i) := acc in
            let a := Qabs (fraction (detailA candidate) - fractionA)
                     + Qabs (fraction (detailB candidate) - fractionB) in
            if Qltb a aMin then (i, a, i + 1)%Z else (index, aMin, i + 1)%Z)
         intersections (-1, Number_MAX_VALUE, 0)%Z)).

Definition isLineSegment3d (c : CurvePrimitive) : bool :=
  match geometry c with
  | LineSegment3d _ _ => true
  | _ => false
  end.

Definition annotateJointMode (options : JointOptions.t) (this : Joint) : Joint :=
  match curve0 this, curve1 this with
  | None, Some _ => set_fraction1 (Some 0) (set_flexure JointMode.Cap this)
  | Some _, None => set_fraction0 (Some 1) (set_flexure JointMode.Cap this)
  | Some c0, Some c1 =>
      if Point3d.isAlmostEqual (endPoint c0) (startPoint c1) then
        set_flexure JointMode.Trim (set_fraction1 (Some 0) (set_fraction0 (Some 1) this))
      else if isLineSegment3d c0 && isLineSegment3d c1 then
        let ray0 := fractionToPointAndDerivative c0 0 in
        let ray1 := fractionToPointAndDerivative c1 0 in
        let intersection := Ray3d_closestApproachRay3dRay3d ray0 ray1 in
        match approachType intersection with
        | Some CurveCurveApproachType.Intersection =>
            let f0 := fraction (detailA intersection) in
            let f1 := fraction (detailB intersection) in
            let this := set_fraction1 (Some f1) (set_fraction0 (Some f0) this) in
            if Qle_bool 1 f0 && Qle_bool f1 0 then annotateExtension options this
            else if Qltb f0 1 && Qltb 0 f1 then set_flexure JointMode.Trim this
            else if Qltb 1 f0 && Qltb 1 f1 then
              set_fraction1 (Some 0)
                (set_fraction0 (Some 1)
                   (set_jointCurve
                      (Some (LineSegment3d_create (fractionToPoint c0 1) (fractionToPoint c1 0)))
                      (set_flexure JointMode.Gap this)))
            else this
        | _ => this
        end
      else
        let intersections := CurveCurve_intersectionXYPairs c0 c1 in
        let intersectionIndex := selectIntersectionIndexByFraction 1 0 intersections in
        if 0 <=? intersectionIndex then
          match nth_error intersections (Z.to_nat intersectionIndex) with
          | Some found =>
              set_fraction1 (Some (fraction (detailB found)))
                (set_fraction0 (Some (fraction (detailA found)))
                   (set_flexure JointMode.Trim this))
          | None => this
          end
        else annotateExtension options this
  | None, None => this
  end.

End WithKernel.
End JointOps.

(** *** The chain of joints *)

(** The joints of one offset call, in the order of their creation. *)
Definition Store : Type := list Joint.

Module Chain.
Section WithKernel.
Context {kernel : GeometryKernel}.
Import Curves JointOps.

Definition alloc (joint : Joint) (store : Store) : Store * JointRef :=
  (store ++ [joint], List.length store).

(** The joint that a reference names. *)
Definition deref (store : Store) (joint : JointRef) : option Joint := store !! joint.

(** [joint?.field] *)
Definition field {A} (f : Joint -> option A) (store : Store) (joint : option JointRef)
  : option A :=
  match joint with
  | Some j =>
      match deref store j with
      | Some J => f J
      | None => None
      end
  | None => None
  end.

Definition refEqb (a : option JointRef) (b : JointRef) : bool :=
  match a with
  | Some a => Nat.eqb a b
  | None => false
  end.

(** [Joint.link(joint0, joint1)] *)
Definition link (joint0 : JointRef) (joint1 : option JointRef) (store : Store) : Store :=
  let store := alter (set_nextJoint joint1) joint0 store in
  match joint1 with
  | None => store
  | Some j1 =>
      let store := alter (set_previousJoint (Some joint0)) j1 store in
      match deref store joint0, deref store j1 with
      | Some J0, Some J1 =>
          match curve1 J0, curve0 J1 with
          | Some c, None => alter (set_curve0 (Some c)) j1 store
          | None, Some c => alter (set_curve1 (Some c)) joint0 store
          | _, _ => store
          end
      | _, _ => store
      end
  end.

(** [joint.nextJointFraction0(defaultValue)] *)
Definition nextJointFraction0 (store : Store) (joint : Joint) (defaultValue : Q) : Q :=
  match field fraction0 store (nextJoint joint) with
  | Some f => f
  | None => defaultValue
  end.

Definition addStrokes (destination : list Point3d) (curve : option CurvePrimitive)
  : list Point3d :=
  match curve with
  | Some curve => emitStrokes curve destination
  | None => destination
  end.

Definition addPoint (destination : list Point3d) (p : Point3d) : list Point3d :=
  match last destination with
  | Some pointA => if negb (Point3d.isAlmostEqual pointA p) then destination ++ [p] else destination
  | None => destination
  end.

Section Visit.
Context {St : Type} (storeOf : St -> Store) (callback : JointRef -> St -> bool * St).

(** The loop of [visitJointsOnChain]; [remaining] is [maxTest + 5 - numTest]. *)
Fixpoint visitLoop (start : JointRef) (remaining : nat) (joint : option JointRef) (st : St)
  : bool * St :=
  match joint with
  | None => (true, st)
  | Some j =>
      match remaining with
      | O => (true, st)
      | S remaining =>
          let '(continue, st) := callback j st in
          if negb continue then (false, st)
          else
            let joint := field nextJoint (storeOf st) (Some j) in
            if refEqb joint start then (true, st)
            else visitLoop start remaining joint st
      end
  end.

Definition visitJointsOnChain (start : JointRef) (maxTest : nat) (st : St) : bool * St :=
  visitLoop start (maxTest + 5) (Some start) st.
End Visit.

Definition annotateChain (start : option JointRef) (options : JointOptions.t)
    (maxTest : nat) (store : Store) : Store :=
  match start with
  | Some start =>
      snd (visitJointsOnChain (fun store => store)
             (fun joint store => (true, alter (annotateJointMode options) joint store))
             start maxTest store)
  | None => store
  end.

(** What a joint contributes to the strokes. *)
Definition collectStrokesOfJoint (store : Store) (joint : Joint)
    (destination : list Point3d) : list Point3d :=
  let destination := addStrokes destination (jointCurve joint) in
  match curve1 joint, fraction1 joint with
  | Some c1, Some fA =>
      let fB := nextJointFraction0 store joint 1 in
      let curve1 :=
        if Qeq_bool fA 0 && Qeq_bool fB 1 then Some (clone c1)
        else if Qltb fA fB then Some (clonePartialCurve c1 fA fB)
        else None in
      let destination :=
        match curve1, jointCurve joint with
        | Some c, None => addPoint destination (startPoint c)
        | _, _ => destination
        end in
      addStrokes destination curve1
  | _, _ => destination
  end.

Definition collectStrokesFromChain (store : Store) (start : JointRef)
    (destination : list Point3d) (maxTest : nat) : list Point3d :=
  let numOut := (-2 * Z.of_nat maxTest)%Z in
  let '(_, (_, destination, _)) :=
    visitJointsOnChain (fun st : Store * list Point3d * Z => fst (fst st))
      (fun j '(store, destination, numOut) =>
         let destination :=
           match deref store j with
           | Some joint => collectStrokesOfJoint store joint destination
           | None => destination
           end in
         ((numOut <? Z.of_nat maxTest)%Z, (store, destination, (numOut + 1)%Z)))
      start maxTest (store, destination, numOut) in
  destination.

(** [joint.annotateJointMode(options)] on a joint that may be absent. *)
Definition annotateAt (options : JointOptions.t) (joint : option JointRef) (store : Store)
  : Store :=
  match joint with
  | Some j => alter (annotateJointMode options) j store
  | None => store
  end.

(** The new joint between [before] and [after], linked and annotated with
    its two neighbours. *)
Definition splice (options : JointOptions.t) (before : JointRef)
    (curve0 curve1 : option CurvePrimitive) (after : option JointRef) (store : Store)
  : Store * JointRef :=
  let '(store, newJoint) := alloc (new_Joint curve0 curve1 None) store in
  let store := link before (Some newJoint) store in
  let store := link newJoint after store in
  let store := annotateAt options (Some newJoint) store in
  let store := annotateAt options (field previousJoint store (Some newJoint)) store in
  let store := annotateAt options (field nextJoint store (Some newJoint)) store in
  (store, newJoint).

Definition maxRemove : Z := 1.

(** One turn of the loop of [removeDegeneratePrimitives] at [jointA]: the
    store, [start], [jointA], [numRemoved], and whether the function
    returns. *)
Definition removeAt (options : JointOptions.t) (a : JointRef) (start : JointRef)
    (numRemoved : Z) (store : Store) : Store * JointRef * JointRef * Z * bool :=
  let unchanged := (store, start, a, numRemoved, false) in
  match deref store a with
  | None => unchanged
  | Some jointA =>
      match nextJoint jointA, previousJoint jointA with
      | Some b, Some before =>
          match deref store b with
          | None => unchanged
          | Some jointB =>
              match nextJoint jointB, fraction1 jointA, fraction0 jointB with
              | Some c, Some f0, Some f1 =>
                  let g0 := fraction1 jointB in
                  let g1 := field fraction0 store (Some c) in
                  let eliminateF := Qle_bool f1 f0 || Qltb 1 f0 in
                  let eliminateG :=
                    match g0 with
                    | Some g0 =>
                        Qltb 1 g0
                        || match g1 with
                           | Some g1 => Qle_bool g1 g0
                           | None => false
                           end
                    | None => false
                    end in
                  if eliminateF && eliminateG then
                    match deref store c with
                    | None => unchanged
                    | Some jointC =>
                        let '(store, _) :=
                          splice options before (curve0 jointA) (curve1 jointC)
                                 (nextJoint jointC) store in
                        (store, start, a, numRemoved, false)
                    end
                  else if eliminateF then
                    let '(store, newJoint) :=
                      splice options before (curve0 jointA) (curve1 jointB)
                             (nextJoint jointB) store in
                    let numRemoved := (numRemoved + 1)%Z in
                    let start := if Nat.eqb a start then newJoint else start in
                    (store, start, newJoint, numRemoved, (maxRemove <=? numRemoved)%Z)
                  else unchanged
              | _, _, _ => unchanged
              end
          end
      | _, _ => unchanged
      end
  end.

(** The loop of [removeDegeneratePrimitives]; [remaining] is
    [maxTest - numTest]. *)
Fixpoint removeLoop (options : JointOptions.t) (remaining : nat)
    (jointA : option JointRef) (start : JointRef) (numRemoved : Z) (store : Store)
  : Store * JointRef * Z :=
  match jointA with
  | None => (store, start, numRemoved)
  | Some a =>
      match remaining with
      | O => (store, start, numRemoved)
      | S remaining =>
          let '(store, start, a, numRemoved, returned) :=
            removeAt options a start numRemoved store in
          if returned then (store, start, numRemoved)
          else
            let jointA := field nextJoint store (Some a) in
            if refEqb jointA start then (store, start, numRemoved)
            else removeLoop options remaining jointA start numRemoved store
      end
  end.

(** [Joint.removeDegeneratePrimitives(start, options, maxTest)]: the store,
    [newStart] and [numJointRemoved]. *)
Definition removeDegeneratePrimitives (start : JointRef) (options : JointOptions.t)
    (maxTest : nat) (store : Store) : Store * JointRef * Z :=
  removeLoop options maxTest (Some start) start 0%Z store.

(** The passes of [for (let pass = 0; pass++ < 5;)]; [remaining] is
    [5 - pass].  Next to the store and [joint0], the [numJointRemoved] of
    the passes made, in order. *)
Fixpoint removalPasses (remaining : nat) (options : JointOptions.t) (maxTest : nat)
    (joint0 : JointRef) (store : Store) : Store * JointRef * list Z :=
  match remaining with
  | O => (store, joint0, [])
  | S remaining =>
      let '(store, newStart, numJointRemoved) :=
        removeDegeneratePrimitives joint0 options maxTest store in
      if (numJointRemoved =? 0)%Z then (store, newStart, [numJointRemoved])
      else
        let '(store, joint0, log) :=
          removalPasses remaining options maxTest newStart store in
        (store, joint0, numJointRemoved :: log)
  end.

End WithKernel.
End Chain.

(** *** [PolygonWireOffsetContext] *)

Module PolygonWireOffsetContext.
Section WithKernel.
Context {kernel : GeometryKernel}.
Import Curves JointOps Chain.

(** [CurveChainWireOffsetContext.applyBasePoints] *)
Definition applyBasePoints (cp : CurvePrimitive) (startPoint endPoint : option Point3d)
  : CurvePrimitive :=
  let cp :=
    match startPoint with
    | Some _ => mkCurve (geometry cp) startPoint (baseCurveEnd cp)
    | None => cp
    end in
  match endPoint with
  | Some _ => mkCurve (geometry cp) (baseCurveStart cp) endPoint
  | None => cp
  end.

(** [createOffsetSegment]; a base point that is [undefined] is a
    TypeError. *)
Definition createOffsetSegment (basePointA basePointB : option Point3d) (distance : Q)
  : Result (option CurvePrimitive) :=
  match basePointA, basePointB with
  | Some basePointA, Some basePointB =>
      match normalize (Vector3d.createStartEnd basePointA basePointB) with
      | Some unitAlong =>
          let unitPerp := Vector3d.rotate90CCWXY unitAlong in
          let segment :=
            LineSegment3d_create (Point3d.plusScaled basePointA unitPerp distance)
                                 (Point3d.plusScaled basePointB unitPerp distance) in
          Ok (Some (applyBasePoints segment (Some basePointA) (Some basePointB)))
      | None => Ok None
      end
  | _, _ => Throw
  end.

(** The first lines of [constructPolygonWireXYOffset]: [wrap] is given up
    when the first and the last point are not close. *)
Definition effectiveWrap (points : list Point3d) (wrap : bool) : Result bool :=
  if wrap then
    match points !! 0%nat, last points with
    | Some first, Some final => Ok (Point3d.isAlmostEqual first final)
    | _, _ => Throw
    end
  else Ok false.

(** The loop [for (let i = 1; i + 1 < numPoints; i++)], from [i] on for
    [count] turns: the store, [previousJoint] and [fragment0]. *)
Fixpoint linkFragments (points : list Point3d) (distance : Q) (count : nat) (i : nat)
    (store : Store) (previousJoint : JointRef) (fragment0 : option CurvePrimitive)
  : Result (Store * JointRef * option CurvePrimitive) :=
  match count with
  | O => Ok (store, previousJoint, fragment0)
  | S count =>
      fragment1 ← createOffsetSegment (points !! i) (points !! S i) distance;
      let '(store, newJoint) := alloc (new_Joint fragment0 fragment1 (points !! i)) store in
      let store := link previousJoint (Some newJoint) store in
      linkFragments points distance count (S i) store newJoint fragment1
  end.

(** The raw offsets as a linked list: the store and [joint0]. *)
Definition buildChain (points : list Point3d) (wrap : bool) (options : JointOptions.t)
  : Result (Store * JointRef) :=
  let numPoints := List.length points in
  let distance := JointOptions.leftOffsetDistance options in
  fragment0 ← createOffsetSegment (points !! 0%nat) (points !! 1%nat) distance;
  let '(store, joint0) := alloc (new_Joint None fragment0 (points !! 0%nat)) [] in
  '(store, previousJoint, fragment0) ←
    linkFragments points distance (numPoints - 2) 1 store joint0 fragment0;
  if wrap then Ok (link previousJoint (Some joint0) store, joint0)
  else
    let '(store, newJoint) :=
      alloc (new_Joint fragment0 None (points !! (numPoints - 1)%nat)) store in
    Ok (link previousJoint (Some newJoint) store, joint0).

(** The chain after annotation and the passes of degeneracy removal: the
    store, [joint0], and the [numJointRemoved] of each pass. *)
Definition finishedChain (points : list Point3d) (wrap : bool) (options : JointOptions.t)
  : Result (Store * JointRef * list Z) :=
  wrap ← effectiveWrap points wrap;
  '(store, joint0) ← buildChain points wrap options;
  let numPoints := List.length points in
  let store := annotateChain (Some joint0) options numPoints store in
  Ok (removalPasses 5 options numPoints joint0 store).

(** The points that the walk over the finished chain emits. *)
Definition emittedChain (points : list Point3d) (wrap : bool) (options : JointOptions.t)
  : Result (list Point3d) :=
  '(store, joint0, _) ← finishedChain points wrap options;
  Ok (collectStrokesFromChain store joint0 [] (List.length points)).

Definition constructPolygonWireXYOffset (points : list Point3d) (wrap : bool)
    (leftOffsetDistanceOrOptions : Q + JointOptions.t) : Result (option CurveChain) :=
  let options := JointOptions.create leftOffsetDistanceOrOptions in
  chain ← emittedChain points wrap options;
  let n := List.length chain in
  if (1 <? n)%nat then
    match head chain, last chain with
    | Some front, Some back =>
        if Point3d.isAlmostEqual front back then Ok (Some (Loop chain))
        else Ok (Some (Path chain))
    | _, _ => Ok None
    end
  else Ok None.

End WithKernel.
End PolygonWireOffsetContext.

(** ** A kernel for inputs in a plane parallel to xy

    An instance of [GeometryKernel] that computes.  Its results are exact
    where the exact result is rational (the square root of a square, the
    angle between axis-parallel vectors, the intersection of two lines) and
    rational approximations elsewhere. *)
Module PlanarKernel.

(** The square root, rounded down to a multiple of [2^-64]. *)
Definition sqrt (q : Q) : Q :=
  Qred (Z.sqrt (Qnum q * Z.pos (Qden q) * 4 ^ 64) # (Qden q * 2 ^ 64)).

Definition pi : Q := 355 # 113.

Definition cos (t : Q) : Q := 1 - t * t / 2 + t * t * t * t / 24.
Definition sin (t : Q) : Q := t - t * t * t / 6 + t * t * t * t * t / 120.

(** [atan2(cross, dot)] in degrees: exact on the multiples of 45 degrees,
    linear in between. *)
Definition atan2Degrees (cross dot : Q) : Q :=
  let a := Qabs cross in
  let d := Qabs dot in
  let first :=
    if Qeq_bool a 0 then 0
    else if Qle_bool a d then 45 * (a / d)
    else 90 - 45 * (d / a) in
  let upper := if Qltb dot 0 then 180 - first else first in
  if Qltb cross 0 then - upper else upper.

Definition angleToXY (a b : Vector3d) : Angle :=
  let cross := x a * y b - y a * x b in
  let dot := x a * x b + y a * y b in
  let deg := Qred (atan2Degrees cross dot) in
  mkAngle (Qred (deg * pi / 180)) deg.

Definition dot (a b : Vector3d) : Q := x a * x b + y a * y b + z a * z b.

Definition rayPoint (r : Ray3d) (f : Q) : Point3d :=
  mkXYZ (Qred (x (origin r) + f * x (direction r)))
        (Qred (y (origin r) + f * y (direction r)))
        (Qred (z (origin r) + f * z (direction r))).

(** The closest approach of two unbounded lines, by the normal equations. *)
Definition closestApproachRay3dRay3d (rayA rayB : Ray3d) : CurveLocationDetailPair :=
  let u := direction rayA in
  let v := direction rayB in
  let w := Vector3d.createStartEnd (origin rayA) (origin rayB) in
  let uu := dot u u in
  let uv := dot u v in
  let vv := dot v v in
  let det := uu * vv - uv * uv in
  if Qeq_bool det 0 then
    let fractionA := if Qeq_bool uu 0 then 0 else Qred (dot u w / uu) in
    let pointA := rayPoint rayA fractionA in
    let pointB := rayPoint rayB 0 in
    mkPair (Some (if Point3d.isAlmostEqual pointA pointB
                  then CurveCurveApproachType.CoincidentGeometry
                  else CurveCurveApproachType.ParallelGeometry))
           (mkDetail fractionA pointA) (mkDetail 0 pointB)
  else
    let fractionA := Qred ((dot u w * vv - dot v w * uv) / det) in
    let fractionB := Qred ((dot u w * uv - dot v w * uu) / det) in
    let pointA := rayPoint rayA fractionA in
    let pointB := rayPoint rayB fractionB in
    mkPair (Some (if Point3d.isAlmostEqual pointA pointB
                  then CurveCurveApproachType.Intersection
                  else CurveCurveApproachType.PerpendicularChord))
           (mkDetail fractionA pointA) (mkDetail fractionB pointB).

Definition arcPoint (arc : Arc3d) (f radial : Q) : Point3d :=
  let t := sweepStartRadians arc + f * (sweepEndRadians arc - sweepStartRadians arc) in
  let c := radial * cos t in
  let s := radial * sin t in
  mkXYZ (Qred (x (center arc) + c * x (vector0 arc) + s * x (vector90 arc)))
        (Qred (y (center arc) + c * y (vector0 arc) + s * y (vector90 arc)))
        (Qred (z (center arc) + c * z (vector0 arc) + s * z (vector90 arc))).

Definition curveRay (g : CurveGeometry) (f : Q) : Ray3d :=
  match g with
  | LineSegment3d p0 p1 =>
      mkRay3d (Point3d.interpolate p0 f p1) (Vector3d.createStartEnd p0 p1)
  | LineString3d points =>
      match head points, last points with
      | Some p0, Some p1 =>
          mkRay3d (Point3d.interpolate p0 f p1) (Vector3d.createStartEnd p0 p1)
      | _, _ => mkRay3d (mkXYZ 0 0 0) (mkXYZ 0 0 0)
      end
  | ArcGeometry arc =>
      mkRay3d (arcPoint arc f 1) (Vector3d.rotate90CCWXY
                                   (Vector3d.createStartEnd (center arc) (arcPoint arc f 1)))
  end.

(** A line string hands its points to [appendStrokePoint], which leaves out
    a point almost equal to the last one; an arc pushes the points at the
    quarters of its sweep. *)
Definition appendStrokePoint (destination : list Point3d) (p : Point3d) : list Point3d :=
  match last destination with
  | Some q => if Point3d.isAlmostEqual p q then destination else destination ++ [p]
  | None => destination ++ [p]
  end.

Definition emitStrokes (g : CurveGeometry) (destination : list Point3d) : list Point3d :=
  match g with
  | LineSegment3d p0 p1 => destination ++ [p0; p1]
  | LineString3d points => fold_left appendStrokePoint points destination
  | ArcGeometry arc =>
      destination ++ map (fun i : nat => arcPoint arc (inject_Z (Z.of_nat i) / 4) 1) (seq 0 5)
  end.

#[export] Instance kernel : GeometryKernel := {|
  Math_sqrt := sqrt;
  Math_cos := cos;
  Vector3d_angleToXY := angleToXY;
  Ray3d_closestApproachRay3dRay3d := closestApproachRay3dRay3d;
  CurveCurve_intersectionXYPairs := fun _ _ => [];
  Arc3d_fractionAndRadialFractionToPoint := arcPoint;
  Curve_emitStrokes := emitStrokes;
  Vector3d_smallestNormalized := 1 # 10000000000;
  Curve_fractionToPointAndDerivative := curveRay;
  Curve_clonePartialCurve := fun g _ _ => g
|}.

End PlanarKernel.

(** ** Notions of the specification *)

Module NodeNames.
Import ImdlParser.

(** A decimal digit, a sign, and white space that does not end a line. *)
Definition isDigit (c : N) : bool := ((48 <=? c) && (c <=? 57))%N.

Definition isSign (c : N) : bool := N.eqb c 45 || N.eqb c 43.

Definition isBlank (c : N) : bool :=
  existsb (N.eqb c) [9; 11; 12; 32; 160; 5760; 8239; 8287; 12288; 65279]%N
  || ((8192 <=? c) && (c <=? 8202))%N.

(** [Node_<digits>]: what follows [Node_] is made of decimal digits. *)
Definition allDigits (s : list N) : bool := forallb isDigit s.

(** The integer that a string of decimal digits denotes, digit by digit
    with its power of ten. *)
Fixpoint decimalValue (s : list N) : Z :=
  match s with
  | [] => 0
  | c :: s' => ((Z.of_N c - 48) * 10 ^ Z.of_nat (List.length s') + decimalValue s')%Z
  end.

(** The name matches the pattern somewhere: it contains [Node_]. *)
Definition containsNodePrefix (name : list N) : Prop :=
  exists pre post, name = (pre ++ Node_ ++ post)%list.

(** The string starts with a character of the class. *)
Definition startsWith (class : N -> bool) (s : list N) : bool :=
  match s with
  | c :: _ => class c
  | [] => false
  end.

(** How a name that contains [Node_] is read: what stands before the first
    [Node_], and behind it blanks, a sign or none, digits, and what is
    left. *)
Record Reading : Type := mkReading {
  before : list N;
  blanks : list N;
  sign : list N;
  digits : list N;
  behind : list N
}.

(** The parts are as long as they can be: [Node_] does not occur earlier,
    where there is no sign neither a blank nor a sign follows the blanks,
    and no digit follows the digits. *)
Definition reads (name : list N) (r : Reading) : Prop :=
  name = (before r ++ Node_ ++ blanks r ++ sign r ++ digits r ++ behind r)%list
  /\ ~ containsNodePrefix (before r ++ removelast Node_)
  /\ forallb isBlank (blanks r) = true
  /\ (sign r = [] \/ sign r = [45%N] \/ sign r = [43%N])
  /\ (sign r = [] ->
      startsWith (fun c => isBlank c || isSign c) (digits r ++ behind r) = false)
  /\ allDigits (digits r) = true
  /\ startsWith isDigit (behind r) = false.

(** [double] is the double nearest to the natural number [m] of at least
    53 bits, were there no largest double: a multiple of the unit in the
    last of 53 bits, at most half a unit from [m], and with an even
    significand when it is exactly half a unit from [m]. *)
Definition nearestDouble (m double : Z) : Prop :=
  let unit := (2 ^ (Z.log2 m - 52))%Z in
  exists significand : Z,
    (double = significand * unit
     /\ 2 * Z.abs (double - m) <= unit
     /\ (2 * Z.abs (double - m) = unit -> Z.even significand = true))%Z.

(** The sign is a minus. *)
Definition isMinus (sign : list N) : bool := startsWith (N.eqb 45) sign.

(** The number that a sign and digits denote: nothing without a digit, a
    zero, or the value of the digits as a double. *)
Definition signedValue (sign digits : list N) : option Number :=
  match digits with
  | [] => None
  | _ =>
      let m := decimalValue digits in
      if (m =? 0)%Z then Some (if isMinus sign then NegativeZero else Integer 0)
      else
        match toDouble m with
        | Some value => Some (Integer (if isMinus sign then - value else value)%Z)
        | None => Some (Infinity (isMinus sign))
        end
  end.

End NodeNames.

(** Two buffers of the same length that differ at most in the 32-bit word at
  [pos]. *)
Definition sameButWordAt (pos : Z) (buf buf' : list byte) : Prop :=
List.length buf = List.length buf'
/\ forall i : nat, (Z.of_nat i < pos \/ pos + 4 <= Z.of_nat i)%Z -> buf !! i = buf' !! i.

Module Samples.
Import ImdlParser SampleCore.

(** A tile of five features whose scene describes three animation node
    ids. *)
Definition sampleTile : list byte := tile 12 5 [] 1 0 sceneText [x01; x02; x03].

(** The document of the scene of [sampleTile]. *)
Definition sampleDocument : Document :=
  {| scene := ""; scenes := JUndefined;
     animationNodes :=
       JObject [("bytesPerId"%string, JNumber 1); ("bufferView"%string, JString "bv")];
     bufferViews :=
       JObject [("bv"%string,
                 JObject [("byteOffset"%string, JNumber 0); ("byteLength"%string, JNumber 3)])];
     meshes := JObject []; nodes := JObject []; materials := JObject [];
     renderMaterials := JObject []; namedTextures := JObject []; patternSymbols := JObject [];
     rtcCenter := JUndefined |}.

(** A tile whose feature table declares 13 bytes, with a scene text that
    is not JSON, and with the scene of [sampleTile]. *)
Definition oddTile : list byte := tile 13 5 [x00] 1 0 "nonsense" [].
Definition oddTileWithScene : list byte := tile 13 5 [x00] 1 0 sceneText [].

(** [sampleTile] with its scene chunk tagged version 2 over the version-1
    layout, and tagged version 1. *)
Definition legacyTile : list byte := tile 12 5 [] 2 0 sceneText [x01; x02; x03].
Definition taggedTile : list byte := tile 12 5 [] 1 0 sceneText [x01; x02; x03].
End Samples.

Module GeometrySamples.
Import Curves JointOps.

(** The fragments of the polyline (0,0), (4,0), (4,1) at distance 3 and
    the joint between them. *)
Definition insideFragment0 : CurvePrimitive :=
  mkCurve (LineSegment3d (mkXYZ 0 3 0) (mkXYZ 4 3 0)) (Some (mkXYZ 0 0 0)) (Some (mkXYZ 4 0 0)).

Definition insideFragment1 : CurvePrimitive :=
  mkCurve (LineSegment3d (mkXYZ 1 0 0) (mkXYZ 1 1 0)) (Some (mkXYZ 4 0 0)) (Some (mkXYZ 4 1 0)).

Definition insideJoint : Joint := new_Joint (Some insideFragment0) (Some insideFragment1) None.

(** A polyline that turns left by a short edge and then right, offset by 3
    with arcs asked for from 45 degrees on. *)
Definition turnPolyline : list Point3d :=
  [mkXYZ 0 0 0; mkXYZ 10 0 0; mkXYZ 10 1 0; mkXYZ 13 (-3) 0].

Definition options45 : JointOptions.t := JointOptions.mk 45 90 false 3 false.
Definition options20 : JointOptions.t := JointOptions.mk 180 20 false 3 false.

(** The two fragments of the polyline (0,0), (4,0), (4,4) at distance -1 and
    the joint of the right angle between them. *)
Definition outsideFragment0 : CurvePrimitive :=
  mkCurve (LineSegment3d (mkXYZ 0 (-1) 0) (mkXYZ 4 (-1) 0))
          (Some (mkXYZ 0 0 0)) (Some (mkXYZ 4 0 0)).

Definition outsideFragment1 : CurvePrimitive :=
  mkCurve (LineSegment3d (mkXYZ 5 0 0) (mkXYZ 5 4 0)) (Some (mkXYZ 4 0 0)) (Some (mkXYZ 4 4 0)).

Definition outsideJoint : Joint := new_Joint (Some outsideFragment0) (Some outsideFragment1) None.

(** A polyline whose last two edges vanish together when it is offset
    by 3. *)
Definition doubleCutPolyline : list Point3d :=
  [mkXYZ 0 20 0; mkXYZ 0 0 0; mkXYZ 4 0 0; mkXYZ 4 1 0].

(** A corner, and polylines that repeat a point. *)
Definition cornerPolyline : list Point3d := [mkXYZ 0 0 0; mkXYZ 4 0 0; mkXYZ 4 4 0].

Definition repeatedStartPolyline : list Point3d := [mkXYZ 0 0 0; mkXYZ 0 0 0; mkXYZ 1 0 0].

Definition repeatedEndPolyline : list Point3d := [mkXYZ 0 0 0; mkXYZ 1 0 0; mkXYZ 1 0 0].

Definition pointTwice : list Point3d := [mkXYZ 0 0 0; mkXYZ 0 0 0].

(** A point with its coordinates in lowest terms. *)
Definition reduced (p : Point3d) : Point3d := mkXYZ (Qred (x p)) (Qred (y p)) (Qred (z p)).

End GeometrySamples.

(** ** The chain that [constructPolygonWireXYOffset] builds, joint by joint *)

Module ChainShapes.
Section WithKernel.
Context {kernel : GeometryKernel}.
Import Curves JointOps Chain PolygonWireOffsetContext.

Variable points : list Point3d.
Variable distance : Q.

(** The offset fragment of the edge that leaves point [i]. *)
Definition fragment (i : nat) : option CurvePrimitive :=
  match createOffsetSegment (points !! i) (points !! S i) distance with
  | Ok f => f
  | Throw => None
  end.

Definition jointBefore (j : nat) : option JointRef :=
  match j with
  | O => None
  | S i => Some i
  end.

Definition fragmentBefore (j : nat) : option CurvePrimitive :=
  match j with
  | O => None
  | S i => fragment i
  end.

(** Joint [j] while it is the last one of the list, and once the joint
    after it is linked to it. *)
Definition lastJoint (j : nat) : Joint :=
  mkJoint JointMode.Unknown (fragmentBefore j) None (fragment j) None None
          (points !! j) None (jointBefore j).

Definition linkedJoint (j : nat) : Joint := set_nextJoint (Some (S j)) (lastJoint j).

(** The joint at the end of a chain that is not closed. *)
Definition trailingJoint (j : nat) : Joint :=
  mkJoint JointMode.Unknown (fragmentBefore j) None None None None
          (points !! j) None (jointBefore j).

(** The chain of an open polyline of [S k] points. *)
Definition openChain (k : nat) : Store := map linkedJoint (seq 0 k) ++ [trailingJoint k].

(** The chain while the loop over the points runs. *)
Definition partialChain (k : nat) : Store := map linkedJoint (seq 0 k) ++ [lastJoint k].

(** The chain of a closed polyline of [S (S (S k))] points, the last of them
    being the first again. *)
Definition closedChain (k : nat) : Store :=
  set_curve0 (fragment (S k)) (set_previousJoint (Some (S k)) (linkedJoint 0))
  :: map linkedJoint (seq 1 k) ++ [set_nextJoint (Some 0%nat) (lastJoint (S k))].

Definition zeroVector : XYZ := mkXYZ 0 0 0.

(** The unit vector along the edge that leaves point [i]. *)
Definition unitAlong (i : nat) : Vector3d :=
  match points !! i, points !! S i with
  | Some p, Some q =>
      match normalize (Vector3d.createStartEnd p q) with
      | Some u => u
      | None => zeroVector
      end
  | _, _ => zeroVector
  end.

(** The two ends of the offset fragment of that edge. *)
Definition offsetStart (i : nat) : Point3d :=
  Point3d.plusScaled (nth i points zeroVector)
                     (Vector3d.rotate90CCWXY (unitAlong i)) distance.

Definition offsetEnd (i : nat) : Point3d :=
  Point3d.plusScaled (nth (S i) points zeroVector)
                     (Vector3d.rotate90CCWXY (unitAlong i)) distance.

(** Every edge has a direction: [normalizeInPlace] succeeds on the vector
    from each point to the next one. *)
Fixpoint directedEdges (points : list Point3d) : bool :=
  match points with
  | p :: (q :: _) as rest =>
      match normalize (Vector3d.createStartEnd p q) with
      | Some _ => true
      | None => false
      end
      && directedEdges rest
  | _ => true
  end.

(** Every point of a polyline, in order, an interior point twice: the two
    ends of every edge. *)
Fixpoint edgeEnds (points : list Point3d) : list Point3d :=
  match points with
  | p :: (q :: _) as rest => p :: q :: edgeEnds rest
  | _ => []
  end.

End WithKernel.

(** Every joint but the last one is followed by the joint of the next
    index; the last one by [endLink]. *)
Definition linear (endLink : option JointRef) (store : Store) : Prop :=
  forall j J, store !! j = Some J ->
    nextJoint J = if (S j =? length store)%nat then endLink else Some (S j).

(** No joint trims the fragment after it, and none the fragment before
    it. *)
Definition settled (store : Store) : Prop :=
  forall j J, store !! j = Some J ->
    (forall f, fraction1 J = Some f -> f = 0) /\ (forall f, fraction0 J = Some f -> f = 1).

(** The joints that [visitJointsOnChain] visits, in order. *)
Definition jointsOnChain (store : Store) (start : JointRef) (maxTest : nat) : list JointRef :=
  snd (snd (Chain.visitJointsOnChain (fun st : Store * list JointRef => fst st)
              (fun j '(store, visited) => (true, (store, visited ++ [j])))
              start maxTest (store, []))).

(** The points emitted once [j] joints of a chain have been visited, when
    no fragment is trimmed: [A i] and [B i] are the ends of fragment [i],
    and every fragment gives its two ends. *)
Definition chainOut (A B : nat -> Point3d) (j : nat) : list Point3d :=
  flat_map (fun i => [A i; B i]) (seq 0 j).

(** Equality of points up to the representation of their coordinates. *)
Definition pointEq (a b : Point3d) : Prop := x a == x b /\ y a == y b /\ z a == z b.

End ChainShapes.

(** ** Notions for the chain as a whole *)

Module ChainNotions.
Section WithKernel.
Context {kernel : GeometryKernel}.
Import Curves JointOps Chain PolygonWireOffsetContext ChainShapes.

(** No fragment between a joint and the joint after it is used up: the
    fraction at which the joint lets it start is below the fraction at which
    the next joint ends it, and not beyond its end. *)
Definition wholeFragments (store : Store) : bool :=
  forallb (fun A : Joint =>
             match nextJoint A with
             | Some b =>
                 match deref store b with
                 | Some B =>
                     match fraction1 A, fraction0 B with
                     | Some f0, Some f1 => Qltb f0 f1 && Qle_bool f0 1
                     | _, _ => true
                     end
                 | None => true
                 end
             | None => true
             end) store.

(** Every edge has an offset fragment, and each fragment ends where the
    next one starts. *)
Definition fragmentsMeet (points : list Point3d) (distance : Q) : bool :=
  let n := List.length points in
  forallb (fun i : nat =>
             match fragment points distance i with
             | Some _ => true
             | None => false
             end) (seq 0 (n - 1))
  && forallb (fun i : nat =>
                Point3d.isAlmostEqual (offsetEnd points distance i)
                                      (offsetStart points distance (S i)))
             (seq 0 (n - 2)).

End WithKernel.

(** How far the fractions of a candidate are from the fractions asked for:
    what [selectIntersectionIndexByFraction] minimises. *)
Definition cost (fractionA fractionB : Q) (candidate : CurveLocationDetailPair) : Q :=
  Qabs (fraction (detailA candidate) - fractionA)
  + Qabs (fraction (detailB candidate) - fractionB).

End ChainNotions.

Module ChainSamples.
Import Curves JointOps Chain PolygonWireOffsetContext GeometrySamples PlanarKernel.

(** Three points on a line, and a square that ends where it starts. *)
Definition straightPolyline : list Point3d := [mkXYZ 0 0 0; mkXYZ 1 0 0; mkXYZ 3 0 0].

Definition squareLoop : list Point3d :=
  [mkXYZ 0 0 0; mkXYZ 4 0 0; mkXYZ 4 4 0; mkXYZ 0 4 0; mkXYZ 0 0 0].

(** The annotated chain of the corner (0,0), (4,0), (4,4) offset by 1. *)
Definition cornerChain : Store :=
  match buildChain cornerPolyline false (JointOptions.new 1) with
  | Ok (store, joint0) => annotateChain (Some joint0) (JointOptions.new 1) 3 store
  | Throw => []
  end.

(** Two joints that are not linked yet. *)
Definition unlinkedJoints : Store :=
  [new_Joint None (Some insideFragment0) None; new_Joint None (Some insideFragment1) None].

(** A turn of 100 degrees. *)
Definition turn100 : Angle := mkAngle (100 * PlanarKernel.pi / 180) 100.

End ChainSamples.

(** ** The rest of [PolygonOffsetContext.ts]: options, and the offset of a
    chain of curves *)

(** [jointOptions.clone()] and [this.setFrom(other)] *)
Definition JointOptions_clone (this : JointOptions.t) : JointOptions.t :=
  JointOptions.mk (JointOptions.minArcDegrees this)
                  (JointOptions.maxChamferTurnDegrees this)
                  (JointOptions.allowSharpestCorners this)
                  (JointOptions.leftOffsetDistance this)
                  (JointOptions.preserveEllipticalArcs this).

Definition JointOptions_setFrom (this other : JointOptions.t) : JointOptions.t :=
  JointOptions.mk (JointOptions.minArcDegrees other)
                  (JointOptions.maxChamferTurnDegrees other)
                  (JointOptions.allowSharpestCorners other)
                  (JointOptions.leftOffsetDistance other)
                  (JointOptions.preserveEllipticalArcs other).

(** *** [OffsetOptions]

    [StrokeOptions] is not among the sources: its values, the default
    [StrokeOptions.createForCurves()] and [clone] are parameters.  The
    setters, which write through to the captured [JointOptions], are not
    embedded. *)
Module OffsetOptions.
Section WithStrokeOptions.
Context {StrokeOptions : Type}.
Variable createForCurves : StrokeOptions.
Variable cloneStrokeOptions : StrokeOptions -> StrokeOptions.

Record t : Type := mk {
  jointOptions : JointOptions.t;
  strokeOptions : StrokeOptions
}.

(** [new OffsetOptions(offsetDistanceOrOptions, strokeOptions?)] *)
Definition new (offsetDistanceOrOptions : Q + JointOptions.t)
    (strokeOptions : option StrokeOptions) : t :=
  mk (JointOptions.create offsetDistanceOrOptions)
     (match strokeOptions with
      | Some strokeOptions => strokeOptions
      | None => createForCurves
      end).

Definition minArcDegrees (this : t) : Q := JointOptions.minArcDegrees (jointOptions this).
Definition maxChamferTurnDegrees (this : t) : Q :=
  JointOptions.maxChamferTurnDegrees (jointOptions this).
Definition allowSharpestCorners (this : t) : bool :=
  JointOptions.allowSharpestCorners (jointOptions this).
Definition leftOffsetDistance (this : t) : Q :=
  JointOptions.leftOffsetDistance (jointOptions this).
Definition preserveEllipticalArcs (this : t) : bool :=
  JointOptions.preserveEllipticalArcs (jointOptions this).

(** [OffsetOptions.create] of [number | JointOptions | OffsetOptions] *)
Definition create (offsetDistanceOrOptions : Q + JointOptions.t + t) : t :=
  match offsetDistanceOrOptions with
  | inr options => options
  | inl distanceOrJointOptions => new distanceOrJointOptions None
  end.

Definition getOffsetDistance (offsetDistanceOrOptions : Q + JointOptions.t + t) : Q :=
  match offsetDistanceOrOptions with
  | inl (inl distance) => distance
  | inl (inr options) => JointOptions.leftOffsetDistance options
  | inr options => leftOffsetDistance options
  end.

Definition clone (this : t) : t :=
  new (inr (JointOptions_clone (jointOptions this)))
      (Some (cloneStrokeOptions (strokeOptions this))).

End WithStrokeOptions.
Arguments t : clear implicits.
End OffsetOptions.

(** What the curve library contributes to the offset of a chain of curves;
    none of it is among the sources. *)
Class CurveLibrary : Type := {
StrokeOptions : Type;
StrokeOptions_createForCurves : StrokeOptions;
StrokeOptions_clone : StrokeOptions -> StrokeOptions;
(** [g.constructOffsetXY(offsetDistanceOrOptions)]: nothing, one primitive
    or an array of primitives *)
constructOffsetXY :
  CurvePrimitive -> Q + OffsetOptions.t StrokeOptions
  -> option (CurvePrimitive + list CurvePrimitive);
(** [g.collectCurvePrimitives(undefined, true, true)] *)
collectCurvePrimitives : CurvePrimitive -> list CurvePrimitive;
CurveCollection : Type;
(** [RegionOps.createLoopPathOrBagOfCurves(curves, wrap, consolidateAdjacentPrimitives)] *)
RegionOps_createLoopPathOrBagOfCurves :
  list CurvePrimitive -> bool -> bool -> option CurveCollection
}.

Module CurveJoints.
Section WithKernel.
Context {kernel : GeometryKernel}.
Import Curves JointOps Chain.

(** [Joint.collectPrimitive] *)
Definition collectPrimitive (destination : list CurvePrimitive)
    (primitive : option CurvePrimitive) : list CurvePrimitive :=
  match primitive with
  | Some primitive =>
      let destination :=
        match last destination with
        | Some back =>
            let pointA := endPoint back in
            let pointB := startPoint primitive in
            if negb (Point3d.isAlmostEqual pointA pointB)
            then destination ++ [LineSegment3d_create pointA pointB]
            else destination
        | None => destination
        end in
      destination ++ [primitive]
  | None => destination
  end.

(** [packedPoints.setAtCheckedPointIndex(index, value)]: an index that is
    not valid changes nothing. *)
Definition setAtCheckedPointIndex (packedPoints : list Point3d) (index : Z)
    (value : Point3d) : list Point3d :=
  if (0 <=? index)%Z && (index <? Z.of_nat (List.length packedPoints))%Z
  then <[Z.to_nat index := value]> packedPoints
  else packedPoints.

Definition withPackedPoints (ls : CurvePrimitive) (packedPoints : list Point3d)
  : CurvePrimitive :=
  mkCurve (LineString3d packedPoints) (baseCurveStart ls) (baseCurveEnd ls).

(** [Joint.adjustJointToPrimitives]: the line string of the joint is changed
    in place. *)
Definition adjustJointToPrimitives (joint : Joint) : Joint :=
  match jointCurve joint with
  | Some ls =>
      match geometry ls with
      | LineString3d packedPoints =>
          let ls :=
            match curve0 joint with
            | Some curve0 =>
                let curvePoint := endPoint curve0 in
                let jointPoint0 := startPoint ls in
                if negb (Point3d.isAlmostEqual curvePoint jointPoint0)
                then withPackedPoints ls (setAtCheckedPointIndex packedPoints 0 curvePoint)
                else ls
            | None => ls
            end in
          let ls :=
            match curve1 joint, geometry ls with
            | Some curve1, LineString3d packedPoints =>
                let curvePoint := startPoint curve1 in
                let jointPoint1 := endPoint ls in
                if negb (Point3d.isAlmostEqual curvePoint jointPoint1)
                then withPackedPoints ls
                       (setAtCheckedPointIndex packedPoints
                          (Z.of_nat (List.length packedPoints) - 1) curvePoint)
                else ls
            | _, _ => ls
            end in
          set_jointCurve (Some ls) joint
      | _ => joint
      end
  | None => joint
  end.

(** What the callback of [collectCurvesFromChain] does with a joint that
    has been adjusted. *)
Definition collectCurvesOfJoint (store : Store) (joint : Joint)
    (destination : list CurvePrimitive) : list CurvePrimitive :=
  let destination := collectPrimitive destination (jointCurve joint) in
  match curve1 joint, fraction1 joint with
  | Some c1, Some fA =>
      let fB := nextJointFraction0 store joint 1 in
      let curve1 :=
        if Qeq_bool fA 0 && Qeq_bool fB 1 then Some (clone c1)
        else if Qltb fA fB then Some (clonePartialCurve c1 fA fB)
        else None in
      collectPrimitive destination curve1
  | _, _ => destination
  end.

(** [Joint.collectCurvesFromChain]: the store, in which joint curves may
    have been adjusted, and the destination. *)
Definition collectCurvesFromChain (store : Store) (start : option JointRef)
    (destination : list CurvePrimitive) (maxTest : nat)
  : Store * list CurvePrimitive :=
  match start with
  | None => (store, destination)
  | Some start =>
      let numOut := (-2 * Z.of_nat maxTest)%Z in
      let '(_, (store, destination, _)) :=
        visitJointsOnChain (fun st : Store * list CurvePrimitive * Z => fst (fst st))
          (fun j '(store, destination, numOut) =>
             let store := alter adjustJointToPrimitives j store in
             let destination :=
               match deref store j with
               | Some joint => collectCurvesOfJoint store joint destination
               | None => destination
               end in
             ((numOut <? Z.of_nat maxTest)%Z, (store, destination, (numOut + 1)%Z)))
          start maxTest (store, destination, numOut) in
      (store, destination)
  end.

(** Each primitive starts where the one before it ends. *)
Definition connected (curves : list CurvePrimitive) : Prop :=
  forall i a b, curves !! i = Some a -> curves !! S i = Some b ->
    Point3d.isAlmostEqual (endPoint a) (startPoint b) = true.

End WithKernel.
End CurveJoints.

(** *** [CurveChainWireOffsetContext] *)

(** A [Path] or a [Loop] with its children. *)
Inductive CurveChainInput : Type :=
| PathInput (children : list CurvePrimitive)
| LoopInput (children : list CurvePrimitive).

Module CurveChainWireOffsetContext.
Section WithLibrary.
Context {kernel : GeometryKernel} {library : CurveLibrary}.
Import Curves JointOps Chain CurveJoints.

Definition children (curves : CurveChainInput) : list CurvePrimitive :=
  match curves with
  | PathInput children | LoopInput children => children
  end.

(** [curves instanceof Loop] *)
Definition isLoop (curves : CurveChainInput) : bool :=
  match curves with
  | LoopInput _ => true
  | PathInput _ => false
  end.

(** [applyBasePoints] of a primitive that may be [undefined] *)
Definition applyBasePoints (cp : option CurvePrimitive)
    (startPoint endPoint : option Point3d) : option CurvePrimitive :=
  match cp with
  | Some cp => Some (PolygonWireOffsetContext.applyBasePoints cp startPoint endPoint)
  | None => None
  end.

(** The loop [for (let i = 0; i < basePrims.length; ++i)]: the offsets,
    each labelled with the ends of its base primitive. *)
Fixpoint labelOffsets (offset basePrims : list CurvePrimitive) : list CurvePrimitive :=
  match offset, basePrims with
  | c :: offset, base :: basePrims =>
      PolygonWireOffsetContext.applyBasePoints c (Some (startPoint base)) (Some (endPoint base))
      :: labelOffsets offset basePrims
  | _, _ => offset
  end.

Definition createSingleOffsetPrimitiveXY (g : CurvePrimitive)
    (offsetDistanceOrOptions : Q + OffsetOptions.t StrokeOptions)
  : option (CurvePrimitive + list CurvePrimitive) :=
  match constructOffsetXY g offsetDistanceOrOptions with
  | None => None
  | Some (inr offset) =>
      let basePrims := collectCurvePrimitives g in
      if negb (List.length basePrims =? List.length offset)%nat then None
      else Some (inr (labelOffsets offset basePrims))
  | Some (inl offset) =>
      match applyBasePoints (Some offset) (Some (startPoint g)) (Some (endPoint g)) with
      | Some offset => Some (inl offset)
      | None => None
      end
  end.

(** The first loop of [constructCurveXYOffset]: the simple offsets of the
    children as one array. *)
Definition simpleOffsetsOf (children : list CurvePrimitive)
    (offsetOptions : OffsetOptions.t StrokeOptions) : list CurvePrimitive :=
  flat_map (fun c =>
              match createSingleOffsetPrimitiveXY c (inr offsetOptions) with
              | None => []
              | Some (inl c1) => [c1]
              | Some (inr c1) => c1
              end) children.

(** The second loop: a joint before every fragment; the store, [fragment0],
    [previousJoint] and [joint0]. *)
Definition jointBefore
    (state : Store * option CurvePrimitive * option JointRef * option JointRef)
    (fragment1 : CurvePrimitive)
  : Store * option CurvePrimitive * option JointRef * option JointRef :=
  let '(store, fragment0, previousJoint, joint0) := state in
  let '(store, newJoint) :=
    alloc (new_Joint fragment0 (Some fragment1) (Some (fractionToPoint fragment1 0))) store in
  let joint0 :=
    match joint0 with
    | None => Some newJoint
    | Some _ => joint0
    end in
  let store :=
    match previousJoint with
    | Some previousJoint => link previousJoint (Some newJoint) store
    | None => store
    end in
  (store, Some fragment1, Some newJoint, joint0).

Definition chainOfOffsets (simpleOffsets : list CurvePrimitive) (wrap : bool)
  : Store * option JointRef :=
  let '(store, _, previousJoint, joint0) :=
    fold_left jointBefore simpleOffsets ([], None, None, None) in
  match joint0, previousJoint with
  | Some j0, Some previous =>
      if wrap then (link previous (Some j0) store, joint0) else (store, joint0)
  | _, _ => (store, joint0)
  end.

(** The array that [constructCurveXYOffset] hands to [RegionOps]. *)
Definition outputCurves (curves : CurveChainInput)
    (offsetDistanceOrOptions : Q + JointOptions.t + OffsetOptions.t StrokeOptions)
  : list CurvePrimitive :=
  let offsetOptions :=
    OffsetOptions.create StrokeOptions_createForCurves offsetDistanceOrOptions in
  let simpleOffsets := simpleOffsetsOf (children curves) offsetOptions in
  let '(store, joint0) := chainOfOffsets simpleOffsets (isLoop curves) in
  let numOffset := List.length simpleOffsets in
  let store := annotateChain joint0 (OffsetOptions.jointOptions offsetOptions) numOffset store in
  snd (collectCurvesFromChain store joint0 [] numOffset).

Definition constructCurveXYOffset (curves : CurveChainInput)
    (offsetDistanceOrOptions : Q + JointOptions.t + OffsetOptions.t StrokeOptions)
  : option CurveCollection :=
  let wrap := isLoop curves in
  RegionOps_createLoopPathOrBagOfCurves
    (outputCurves curves offsetDistanceOrOptions) wrap true.

End WithLibrary.
End CurveChainWireOffsetContext.

(** A curve library that computes: it offsets a line segment to its left
    and nothing else, a primitive is its only part, and the region
    operations hand back the curves with the flag. *)
Module SampleLibrary.
Import Curves PlanarKernel.

Definition offsetSegment (g : CurvePrimitive) (distance : Q)
  : option (CurvePrimitive + list CurvePrimitive) :=
  match geometry g with
  | LineSegment3d a b =>
      match normalize (Vector3d.createStartEnd a b) with
      | Some unitAlong =>
          let unitPerp := Vector3d.rotate90CCWXY unitAlong in
          Some (inl (LineSegment3d_create (Point3d.plusScaled a unitPerp distance)
                                          (Point3d.plusScaled b unitPerp distance)))
      | None => None
      end
  | _ => None
  end.

#[export] Instance library : CurveLibrary := {|
  StrokeOptions := unit;
  StrokeOptions_createForCurves := tt;
  StrokeOptions_clone := fun options => options;
  constructOffsetXY := fun g offsetDistanceOrOptions =>
    offsetSegment g
      (match offsetDistanceOrOptions with
       | inl distance => distance
       | inr options => OffsetOptions.leftOffsetDistance options
       end);
  collectCurvePrimitives := fun g => [g];
  CurveCollection := list CurvePrimitive * bool;
  RegionOps_createLoopPathOrBagOfCurves := fun curves wrap _ => Some (curves, wrap)
|}.

(** The segment from (0,0) to (4,0). *)
Definition baseSegment : CurvePrimitive :=
  LineSegment3d_create (mkXYZ 0 0 0) (mkXYZ 4 0 0).

End SampleLibrary.

(** ** [ImdlParser.findBuffer], [parsePrimitives] and [parseNodes] *)
Module ImdlNodes.
Import ImdlParser JsObject.
Open Scope string_scope.
Open Scope Z_scope.

Section WithCoreCommon.
Context {core : CoreCommon}.

Definition findBuffer (document : Document) (binaryData : Uint8Array.t) (bufferViewId : Json)
  : Result (option Uint8Array.t) :=
  match bufferViewId with
  | JString id =>
      if (0 =? Z.of_nat (String.length id)) then Ok None
      else
        bufferViewJson ← getElem (bufferViews document) id;
        if isUndefined bufferViewJson then Ok None
        else
          byteOffset ← JsonUtils.asInt <$> getProp bufferViewJson "byteOffset";
          byteLength ← JsonUtils.asInt <$> getProp bufferViewJson "byteLength";
          if 0 =? byteLength then Ok None
          else Ok (Some (Uint8Array.subarray binaryData byteOffset (byteOffset + byteLength)))
  | _ => Ok None
  end.

(** [Imdl.Primitive], the timeline of a schedule script, [parsePrimitive],
    [parseAnimationBranches] (which appends to the nodes and sets the
    animation node ids of the feature table) and
    [AnimationNodeId.Untransformed] are not looked into. *)
Context {Primitive Timeline : Type}.

(** [Imdl.Node] *)
Record Node : Type := {
  animationNodeId : option Number;
  animationId : option string;
  layerId : option Json;
  primitives : list Primitive
}.

(** The members of [ImdlParserOptions] that [parseNodes] reads. *)
Record ImdlParserOptions : Type := {
  batchModelId : string;
  createUntransformedRootNode : bool;
  timeline : option Timeline
}.

Variable parsePrimitive : Json -> Result (option Primitive).
Variable parseAnimationBranches :
  list Node -> Json -> FeatureTable -> Timeline -> Result (list Node * FeatureTable).
Variable AnimationNodeId_Untransformed : Z.

Fixpoint parsePrimitivesOf (docPrimitives : list Json) (primitives : list Primitive)
  : Result (list Primitive) :=
  match docPrimitives with
  | [] => Ok primitives
  | docPrimitive :: rest =>
      primitive ← parsePrimitive docPrimitive;
      match primitive with
      | Some primitive => parsePrimitivesOf rest (primitives ++ [primitive])
      | None => parsePrimitivesOf rest primitives
      end
  end.

Definition parsePrimitives (docPrimitives : Json) : Result (list Primitive) :=
  items ← iterate docPrimitives;
  parsePrimitivesOf items [].

(** One turn of the loop of [parseNodes]. *)
Definition parseNode (document : Document) (options : ImdlParserOptions) (nodeKey : string)
    (state : list Node * FeatureTable) : Result (list Node * FeatureTable) :=
  let '(nodes, featureTable) := state in
  docNode ← getElem (ImdlParser.nodes document) nodeKey;
  let _ := assert (negb (isUndefined docNode)) in
  docMesh ← getElem (meshes document) (propertyKey docNode);
  let docPrimitives :=
    match docMesh with
    | JUndefined | JNull => JUndefined
    | _ => getOptional docMesh "primitives"
    end in
  if negb (truthy docPrimitives) then Ok (nodes, featureTable)
  else
    let layerId := getOptional docMesh "layer" in
    if String.eqb "Node_Root" nodeKey then
      match timeline options with
      | Some timeline => parseAnimationBranches nodes docMesh featureTable timeline
      | None =>
          if createUntransformedRootNode options then
            primitives ← parsePrimitives docPrimitives;
            Ok ((nodes ++ [{| animationNodeId := Some (Integer AnimationNodeId_Untransformed);
                             animationId := None; layerId := None;
                             primitives := primitives |}])%list, featureTable)
          else
            primitives ← parsePrimitives docPrimitives;
            Ok ((nodes ++ [{| animationNodeId := None; animationId := None; layerId := None;
                             primitives := primitives |}])%list, featureTable)
      end
    else if isUndefined layerId then
      primitives ← parsePrimitives docPrimitives;
      Ok ((nodes ++ [{| animationNodeId := Some (extractNodeId (codeUnits nodeKey));
                       animationId := Some (batchModelId options ++ "_" ++ nodeKey)%string;
                       layerId := None;
                       primitives := primitives |}])%list, featureTable)
    else
      primitives ← parsePrimitives docPrimitives;
      Ok ((nodes ++ [{| animationNodeId := None; animationId := None;
                       layerId := Some layerId;
                       primitives := primitives |}])%list, featureTable)
  .

Fixpoint parseNodeKeys (document : Document) (options : ImdlParserOptions)
    (nodeKeys : list string) (state : list Node * FeatureTable)
  : Result (list Node * FeatureTable) :=
  match nodeKeys with
  | [] => Ok state
  | nodeKey :: rest =>
      state ← parseNode document options nodeKey state;
      parseNodeKeys document options rest state
  end.

(** The nodes, and the feature table as [parseAnimationBranches] leaves
    it. *)
Definition parseNodes (document : Document) (options : ImdlParserOptions)
    (featureTable : FeatureTable) : Result (list Node * FeatureTable) :=
  let nodes : list Node := [] in
  let docNodes := ImdlParser.nodes document in
  root ← getProp docNodes "Node_Root";
  if isUndefined root then Ok (nodes, featureTable)
  else
    nodeKeys ← Object_keys docNodes;
    parseNodeKeys document options nodeKeys (nodes, featureTable).

End WithCoreCommon.
End ImdlNodes.

(** ** The edge parsers of [ImdlParser] *)
Module ImdlEdges.
Import ImdlParser JsObject ImdlNodes.
Open Scope string_scope.
Open Scope Z_scope.

Module TesselatedPolyline.
Record t : Type := mk {
  indices : Uint8Array.t;
  prevIndices : Uint8Array.t;
  nextIndicesAndParams : Uint8Array.t
}.
End TesselatedPolyline.

Module SegmentEdgeParams.
Record t : Type := mk { indices : Uint8Array.t; endPointAndQuadIndices : Uint8Array.t }.
End SegmentEdgeParams.

(** [{ ...segments, normalPairs }] *)
Module SilhouetteParams.
Record t : Type := mk {
  indices : Uint8Array.t;
  endPointAndQuadIndices : Uint8Array.t;
  normalPairs : Uint8Array.t
}.
End SilhouetteParams.

Module EdgeTable.
Record t : Type := mk {
  data : Uint8Array.t;
  width : Json;
  height : Json;
  silhouettePadding : Json;
  numSegments : Json
}.
End EdgeTable.

Module IndexedEdgeParams.
Record t : Type := mk { indices : Uint8Array.t; edges : EdgeTable.t }.
End IndexedEdgeParams.

Section WithDisplayParams.
Context {core : CoreCommon}.
(** [DisplayParams] with its [width] and [linePixels]. *)
Context {DisplayParams Weight LinePixels : Type}.
Variable DisplayParams_width : DisplayParams -> Weight.
Variable DisplayParams_linePixels : DisplayParams -> LinePixels.

(** [Imdl.EdgeParams] *)
Record EdgeParams : Type := {
  segments : option SegmentEdgeParams.t;
  silhouettes : option SilhouetteParams.t;
  polylines : option TesselatedPolyline.t;
  indexed : option IndexedEdgeParams.t;
  weight : Weight;
  linePixels : LinePixels
}.

Variable document : Document.
Variable binaryData : Uint8Array.t.

(** [this.findBuffer(json.key)] *)
Definition findBufferOf (json : Json) (key : string) : Result (option Uint8Array.t) :=
  bufferViewId ← getProp json key;
  findBuffer document binaryData bufferViewId.

Definition parseTesselatedPolyline (json : Json) : Result (option TesselatedPolyline.t) :=
  indices ← findBufferOf json "indices";
  prevIndices ← findBufferOf json "prevIndices";
  nextIndicesAndParams ← findBufferOf json "nextIndicesAndParams";
  Ok (match indices, prevIndices, nextIndicesAndParams with
      | Some indices, Some prevIndices, Some nextIndicesAndParams =>
          Some (TesselatedPolyline.mk indices prevIndices nextIndicesAndParams)
      | _, _, _ => None
      end).

Definition parseSegmentEdges (imdl : Json) : Result (option SegmentEdgeParams.t) :=
  indices ← findBufferOf imdl "indices";
  endPointAndQuadIndices ← findBufferOf imdl "endPointAndQuadIndices";
  Ok (match indices, endPointAndQuadIndices with
      | Some indices, Some endPointAndQuadIndices =>
          Some (SegmentEdgeParams.mk indices endPointAndQuadIndices)
      | _, _ => None
      end).

Definition parseSilhouetteEdges (imdl : Json) : Result (option SilhouetteParams.t) :=
  segments ← parseSegmentEdges imdl;
  normalPairs ← findBufferOf imdl "normalPairs";
  Ok (match segments, normalPairs with
      | Some segments, Some normalPairs =>
          Some (SilhouetteParams.mk (SegmentEdgeParams.indices segments)
                  (SegmentEdgeParams.endPointAndQuadIndices segments) normalPairs)
      | _, _ => None
      end).

Definition parseIndexedEdges (imdl : Json) : Result (option IndexedEdgeParams.t) :=
  indices ← findBufferOf imdl "indices";
  edgeTable ← findBufferOf imdl "edges";
  match indices, edgeTable with
  | Some indices, Some edgeTable =>
      width ← getProp imdl "width";
      height ← getProp imdl "height";
      silhouettePadding ← getProp imdl "silhouettePadding";
      numSegments ← getProp imdl "numSegments";
      Ok (Some (IndexedEdgeParams.mk indices
                  (EdgeTable.mk edgeTable width height silhouettePadding numSegments)))
  | _, _ => Ok None
  end.

(** [imdl.key ? parser(imdl.key) : undefined] *)
Definition parseIfPresent {A : Type} (parser : Json -> Result (option A)) (imdl : Json)
    (key : string) : Result (option A) :=
  part ← getProp imdl key;
  if truthy part then parser part else Ok None.

Definition parseEdges (imdl : Json) (displayParams : DisplayParams)
  : Result (option EdgeParams) :=
  if negb (truthy imdl) then Ok None
  else
    segments ← parseIfPresent parseSegmentEdges imdl "segments";
    silhouettes ← parseIfPresent parseSilhouetteEdges imdl "silhouettes";
    indexed ← parseIfPresent parseIndexedEdges imdl "indexed";
    polylines ← parseIfPresent parseTesselatedPolyline imdl "polylines";
    match segments, silhouettes, indexed, polylines with
    | None, None, None, None => Ok None
    | _, _, _, _ =>
        Ok (Some {| segments := segments;
                    silhouettes := silhouettes;
                    polylines := polylines;
                    indexed := indexed;
                    weight := DisplayParams_width displayParams;
                    linePixels := DisplayParams_linePixels displayParams |})
    end.

End WithDisplayParams.

(** The view lies within the array. *)
Definition within (binaryData view : Uint8Array.t) : Prop :=
  Uint8Array.byteOffset binaryData <= Uint8Array.byteOffset view
  /\ Uint8Array.byteOffset view + Uint8Array.byteLength view
     <= Uint8Array.byteOffset binaryData + Uint8Array.byteLength binaryData.

Definition optionViews {A : Type} (views : A -> list Uint8Array.t) (a : option A)
  : list Uint8Array.t :=
  match a with
  | Some a => views a
  | None => []
  end.

(** The views that edge parameters hold. *)
Definition viewsOf {Weight LinePixels : Type} (edges : @EdgeParams Weight LinePixels)
  : list Uint8Array.t :=
  (optionViews (fun s => [SegmentEdgeParams.indices s;
                          SegmentEdgeParams.endPointAndQuadIndices s]) (segments edges)
   ++ optionViews (fun s => [SilhouetteParams.indices s;
                             SilhouetteParams.endPointAndQuadIndices s;
                             SilhouetteParams.normalPairs s]) (silhouettes edges)
   ++ optionViews (fun p => [TesselatedPolyline.indices p;
                             TesselatedPolyline.prevIndices p;
                             TesselatedPolyline.nextIndicesAndParams p]) (polylines edges)
   ++ optionViews (fun i => [IndexedEdgeParams.indices i;
                             EdgeTable.data (IndexedEdgeParams.edges i)]) (indexed edges))%list.

End ImdlEdges.

(** ** What a node of [parseNodes] says of the key that it was made for *)
Module NodeShapes.
Import ImdlParser JsObject ImdlNodes.
Open Scope string_scope.

Section WithCoreCommon.
Context {core : CoreCommon} {Primitive Timeline : Type}.
Variable parsePrimitive : Json -> Result (option Primitive).
Variable AnimationNodeId_Untransformed : Z.

(** The node carries neither a layer nor an animation id, and the
    untransformed animation node id if asked for. *)
Definition rootNode (options : @ImdlParserOptions Timeline) (node : @Node Primitive) : Prop :=
  layerId node = None /\ animationId node = None
  /\ animationNodeId node
     = if createUntransformedRootNode options
       then Some (Integer AnimationNodeId_Untransformed) else None.

(** The node is named after its key and numbered by [extractNodeId]. *)
Definition animatedNode (options : @ImdlParserOptions Timeline) (nodeKey : string)
    (node : @Node Primitive) : Prop :=
  layerId node = None
  /\ animationId node = Some (batchModelId options ++ "_" ++ nodeKey)
  /\ animationNodeId node = Some (extractNodeId (codeUnits nodeKey)).

Definition layerNode (layer : Json) (node : @Node Primitive) : Prop :=
  layerId node = Some layer /\ animationId node = None /\ animationNodeId node = None.

(** The node of a key: the key names a mesh with primitives, which are the
    node's, and the key and the layer of the mesh decide the rest. *)
Definition nodeOf (document : Document) (options : @ImdlParserOptions Timeline)
    (nodeKey : string) (node : @Node Primitive) : Prop :=
  exists docNode docMesh,
    getElem (ImdlParser.nodes document) nodeKey = Ok docNode
    /\ getElem (meshes document) (propertyKey docNode) = Ok docMesh
    /\ truthy (getOptional docMesh "primitives") = true
    /\ parsePrimitives parsePrimitive (getOptional docMesh "primitives")
       = Ok (primitives node)
    /\ if String.eqb "Node_Root" nodeKey then rootNode options node
       else match getOptional docMesh "layer" with
            | JUndefined => animatedNode options nodeKey node
            | layer => layerNode layer node
            end.

(** The key names no mesh with primitives. *)
Definition skipped (document : Document) (nodeKey : string) : Prop :=
  exists docNode docMesh,
    getElem (ImdlParser.nodes document) nodeKey = Ok docNode
    /\ getElem (meshes document) (propertyKey docNode) = Ok docMesh
    /\ truthy (getOptional docMesh "primitives") = false.

(** The items that yield a primitive, with their primitives. *)
Inductive kept : list Json -> list Primitive -> Prop :=
| kept_nil : kept [] []
| kept_skip item items primitives :
    parsePrimitive item = Ok None -> kept items primitives -> kept (item :: items) primitives
| kept_cons item items primitive primitives :
    parsePrimitive item = Ok (Some primitive) -> kept items primitives ->
    kept (item :: items) (primitive :: primitives).

End WithCoreCommon.
End NodeShapes.

Module NodeSamples.
Import ImdlParser JsObject ImdlNodes SampleCore Samples.
Open Scope string_scope.

(** A scene with a root, an animated node, a layer and a node without a
    mesh. *)
Definition nodesDocument : Document :=
  {| scene := ""; scenes := JUndefined; animationNodes := JUndefined;
     bufferViews :=
       JObject [("bv", JObject [("byteOffset", JNumber 1); ("byteLength", JNumber 2)])];
     meshes :=
       JObject [("m0", JObject [("primitives", JArray [JString "a"; JNull; JString "b"])]);
                ("m1", JObject [("primitives", JArray [JString "c"])]);
                ("m2", JObject [("primitives", JArray []); ("layer", JString "L")])];
     nodes :=
       JObject [("Node_7", JString "m1"); ("Node_Root", JString "m0");
                ("Node_9", JString "none"); ("Layer", JString "m2")];
     materials := JObject [];
     renderMaterials := JObject []; namedTextures := JObject []; patternSymbols := JObject [];
     rtcCenter := JUndefined |}.

(** Strings are primitives, nothing else is. *)
Definition stringPrimitive (json : Json) : Result (option string) :=
  match json with
  | JString s => Ok (Some s)
  | JObject _ => Throw
  | _ => Ok None
  end.

Definition noTimeline : @ImdlParserOptions unit :=
  {| batchModelId := "0x1c"; createUntransformedRootNode := true; timeline := None |}.

Definition noBranches : list (@Node string) -> Json -> FeatureTable -> unit
                        -> Result (list (@Node string) * FeatureTable) :=
  fun nodes _ featureTable _ => Ok (nodes, featureTable).

(** Edges with segments only, their two buffers in the view of
    [nodesDocument]. *)
Definition segmentEdges : Json :=
  JObject [("segments",
            JObject [("indices", JString "bv"); ("endPointAndQuadIndices", JString "bv")])].

Definition emptyTable : FeatureTable :=
  {| ft_multiModel := false; ft_data := []; ft_numFeatures := 0;
     ft_numSubCategories := None; ft_animationNodeIds := None |}.

End NodeSamples.

(** * Properties *)
(** ** The tile decoder *)

Module NodeNameProperties.
Import ImdlParser NodeNames.
Open Scope Z_scope.

(** Case analysis on a code unit compared with constants. *)
Ltac codeUnit c :=
  repeat match goal with
         | |- context [N.eqb c ?k] => destruct (N.eqb_spec c k) as [->|?]; cbn
         | |- context [N.leb ?a ?b] => destruct (N.leb_spec a b); cbn
         end;
  try reflexivity; try discriminate; try lia.

Lemma whiteSpace_classes c :
  isStrWhiteSpaceChar c = isBlank c || isLineTerminator c.
Proof.
  unfold isStrWhiteSpaceChar, isBlank, isLineTerminator. cbn [existsb]. codeUnit c.
Qed.

Lemma blank_not_lineTerminator c : isBlank c = true -> isLineTerminator c = false.
Proof.
  unfold isBlank, isLineTerminator. cbn [existsb]. codeUnit c.
Qed.

Lemma digit_classes c :
  isDigit c = true ->
  isLineTerminator c = false /\ isBlank c = false /\ isSign c = false
  /\ digitValue c = Some (Z.of_N c - 48).
Proof.
  unfold isDigit, isLineTerminator, isBlank, isSign, digitValue. cbn [existsb].
  intros [H1 H2]%andb_true_iff. rewrite H1, H2. cbn [andb].
  apply N.leb_le in H1, H2.
  repeat split; codeUnit c.
Qed.

Lemma digitValue_isDigit c : digitValue c = if isDigit c then Some (Z.of_N c - 48) else None.
Proof. reflexivity. Qed.

Lemma sign_classes c :
  isSign c = true -> isLineTerminator c = false /\ isStrWhiteSpaceChar c = false.
Proof.
  unfold isSign, isLineTerminator, isStrWhiteSpaceChar. cbn [existsb].
  intros H. split; revert H; codeUnit c.
Qed.

Lemma stripPrefix_app p s : stripPrefix p (p ++ s) = Some s.
Proof. induction p as [|c p IH]; [reflexivity|]. cbn. now rewrite N.eqb_refl. Qed.

Lemma stripPrefix_Some p s rest : stripPrefix p s = Some rest -> s = p ++ rest.
Proof.
  revert s. induction p as [|c p IH]; intros s; cbn.
  - now intros [= ->].
  - destruct s as [|d s]; [discriminate|].
    destruct (N.eqb_spec c d) as [->|]; [|discriminate].
    intros H. now rewrite (IH _ H).
Qed.

Lemma match_None name : ~ containsNodePrefix name -> match_nodeIdRegex name = None.
Proof.
  induction name as [|c name IH]; intros Hn.
  - reflexivity.
  - cbn [match_nodeIdRegex].
    destruct (stripPrefix Node_ (c :: name)) as [rest|] eqn:E.
    + exfalso. apply Hn. exists [], rest. now apply stripPrefix_Some in E.
    + apply IH. intros (pre & post & ->). apply Hn. now exists (c :: pre), post.
Qed.

(** An occurrence of [Node_] at the start of a name that has one at [pre]
    lies within [pre] and the first four characters of the other. *)
Lemma occurrence_overlap c pre rest r :
  c :: pre ++ Node_ ++ rest = Node_ ++ r ->
  containsNodePrefix ((c :: pre) ++ removelast Node_).
Proof.
  intros H. exists [], (drop 5 ((c :: pre) ++ removelast Node_)).
  cbn [app].
  assert (Hlong : (5 <= length ((c :: pre) ++ removelast Node_))%nat).
  { rewrite length_app. cbn. lia. }
  rewrite <- (take_drop 5 ((c :: pre) ++ removelast Node_)) at 1.
  f_equal.
  assert (Hfull : (c :: pre) ++ Node_ ++ rest
                  = ((c :: pre) ++ removelast Node_) ++ [95%N] ++ rest).
  { rewrite <- app_assoc. reflexivity. }
  cbn [app] in Hfull. cbn [app] in Hlong |- *.
  apply (f_equal (take 5)) in H. rewrite Hfull in H.
  rewrite app_comm_cons in H.
  rewrite take_app_le in H by exact Hlong.
  exact H.
Qed.

Lemma match_first pre rest :
  ~ containsNodePrefix (pre ++ removelast Node_) ->
  match_nodeIdRegex (pre ++ Node_ ++ rest) = Some [Node_ ++ dotStar rest; dotStar rest].
Proof.
  induction pre as [|c pre IH]; intros Hfirst.
  - reflexivity.
  - change ((c :: pre) ++ Node_ ++ rest) with (c :: pre ++ Node_ ++ rest).
    cbn [match_nodeIdRegex].
    destruct (stripPrefix Node_ (c :: pre ++ Node_ ++ rest)) as [r|] eqn:E.
    + exfalso. apply Hfirst. apply stripPrefix_Some in E.
      exact (occurrence_overlap c pre rest r E).
    + apply IH. intros (p & q & Hpq). apply Hfirst.
      exists (c :: p), q. cbn [app]. rewrite Hpq. reflexivity.
Qed.

(** The first occurrence of [Node_] in a name that has one. *)
Lemma first_occurrence name :
  containsNodePrefix name ->
  exists pre rest,
    name = pre ++ Node_ ++ rest /\ ~ containsNodePrefix (pre ++ removelast Node_).
Proof.
  induction name as [|c name IH]; intros (p & q & Hpq).
  - destruct p; discriminate.
  - destruct (stripPrefix Node_ (c :: name)) as [r|] eqn:E.
    + exists [], r. split; [exact (stripPrefix_Some Node_ _ _ E)|].
      intros (p' & q' & H'). apply (f_equal (@length N)) in H'.
      rewrite !length_app in H'. cbn in H'. lia.
    + destruct p as [|c' p].
      { cbn [app] in Hpq. rewrite Hpq, stripPrefix_app in E. discriminate. }
      injection Hpq as <- Hname.
      destruct IH as (pre & rest & Hrest & Hfirst); [exists p, q; exact Hname|].
      exists (c :: pre), rest. split; [cbn [app]; rewrite Hrest; reflexivity|].
      intros (p' & q' & H').
      destruct p' as [|c'' p'].
      * cbn [app] in H'.
        assert (Hstart : c :: name = Node_ ++ (q' ++ [95%N] ++ rest)).
        { rewrite Hrest, (app_assoc Node_), <- H'. cbn [app]. f_equal.
          rewrite <- app_assoc. reflexivity. }
        rewrite Hstart, stripPrefix_app in E. discriminate.
      * injection H' as _ H'. apply Hfirst. exists p', q'. exact H'.
Qed.

(** The longest prefix of a class. *)
Lemma longest_prefix (class : N -> bool) (s : list N) :
  exists a b, s = a ++ b /\ forallb class a = true /\ startsWith class b = false.
Proof.
  induction s as [|c s (a & b & Hs & Ha & Hb)].
  - exists [], []. repeat split.
  - destruct (class c) eqn:Hc.
    + exists (c :: a), b. cbn. rewrite Hc, Ha, Hs. repeat split. exact Hb.
    + exists [], (c :: s). repeat split. exact Hc.
Qed.

Lemma startsWith_dotStar (class : N -> bool) (s : list N) :
  startsWith class s = false -> startsWith class (dotStar s) = false.
Proof.
  destruct s as [|c s]; [reflexivity|]. cbn [startsWith dotStar].
  destruct (isLineTerminator c); [reflexivity|]. exact id.
Qed.

Lemma dotStar_no_lineTerminator (s : list N) :
  startsWith isLineTerminator (dotStar s) = false.
Proof.
  destruct s as [|c s]; [reflexivity|]. cbn [startsWith dotStar].
  destruct (isLineTerminator c) eqn:E; [reflexivity|exact E].
Qed.

Lemma dotStar_blanks (a s : list N) :
  forallb isBlank a = true -> dotStar (a ++ s) = a ++ dotStar s.
Proof.
  induction a as [|c a IH]; [reflexivity|]. cbn [forallb app dotStar].
  intros [Hc Ha]%andb_true_iff.
  rewrite (blank_not_lineTerminator c Hc), IH by exact Ha. reflexivity.
Qed.

Lemma dotStar_digits (a s : list N) :
  allDigits a = true -> dotStar (a ++ s) = a ++ dotStar s.
Proof.
  induction a as [|c a IH]; [reflexivity|]. unfold allDigits. cbn [forallb app dotStar].
  intros [Hc Ha]%andb_true_iff.
  destruct (digit_classes c Hc) as (-> & _). rewrite IH by exact Ha. reflexivity.
Qed.

Lemma trimStart_blanks (a s : list N) :
  forallb isBlank a = true -> trimStart (a ++ s) = trimStart s.
Proof.
  induction a as [|c a IH]; [reflexivity|]. cbn [forallb app trimStart].
  intros [Hc Ha]%andb_true_iff.
  rewrite whiteSpace_classes, Hc. cbn [orb]. apply IH. exact Ha.
Qed.

Lemma trimStart_none (s : list N) :
  startsWith isStrWhiteSpaceChar s = false -> trimStart s = s.
Proof.
  destruct s as [|c s]; [reflexivity|]. cbn [startsWith trimStart]. intros ->. reflexivity.
Qed.

Lemma digitsPrefix_digits (a s : list N) :
  allDigits a = true -> startsWith isDigit s = false ->
  digitsPrefix (a ++ s) = map (fun c => Z.of_N c - 48) a.
Proof.
  intros Ha Hs. induction a as [|c a IH].
  - destruct s as [|c s]; [reflexivity|]. cbn [startsWith] in Hs.
    cbn [app map digitsPrefix]. rewrite digitValue_isDigit, Hs. reflexivity.
  - unfold allDigits in Ha. cbn [forallb] in Ha. apply andb_true_iff in Ha as [Hc Ha].
    cbn [app map digitsPrefix].
    destruct (digit_classes c Hc) as (_ & _ & _ & ->).
    rewrite IH by exact Ha. reflexivity.
Qed.

Lemma decimalValue_fold (a : list N) (acc : Z) :
  fold_left (fun acc d => 10 * acc + d) (map (fun c => Z.of_N c - 48) a) acc
  = acc * 10 ^ Z.of_nat (length a) + decimalValue a.
Proof.
  revert acc. induction a as [|c a IH]; intros acc.
  - cbn. lia.
  - cbn [map fold_left decimalValue length]. rewrite IH.
    rewrite Nat2Z.inj_succ, Z.pow_succ_r by lia. ring.
Qed.

(** What [parseInt] makes of digits that follow the sign it has read. *)
Lemma parseInt_digits (negative : bool) (a s : list N) :
  allDigits a = true -> startsWith isDigit s = false ->
  match digitsPrefix (a ++ s) with
  | [] => None
  | ds =>
      let mathInt := fold_left (fun acc d => 10 * acc + d) ds 0 in
      if mathInt =? 0 then Some (if negative then NegativeZero else Integer 0)
      else
        match toDouble mathInt with
        | Some value => Some (Integer (if negative then - value else value))
        | None => Some (Infinity negative)
        end
  end
  = match a with
    | [] => None
    | _ =>
        let m := decimalValue a in
        if m =? 0 then Some (if negative then NegativeZero else Integer 0)
        else
          match toDouble m with
          | Some value => Some (Integer (if negative then - value else value))
          | None => Some (Infinity negative)
          end
    end.
Proof.
  intros Ha Hs. rewrite (digitsPrefix_digits a s Ha Hs).
  destruct a as [|c a]; [reflexivity|].
  set (ds := map _ (c :: a)).
  assert (Hfold : fold_left (fun acc d => 10 * acc + d) ds 0 = decimalValue (c :: a)).
  { unfold ds. rewrite decimalValue_fold. lia. }
  destruct ds as [|d ds'] eqn:Eds; [discriminate|].
  cbv zeta. rewrite Hfold. reflexivity.
Qed.

(** What [parseInt] makes of the capture group of a name that is read
    as [r]. *)
Lemma parseInt_reading (r : Reading) :
  forallb isBlank (blanks r) = true ->
  (sign r = [] \/ sign r = [45%N] \/ sign r = [43%N]) ->
  (sign r = [] ->
   startsWith (fun c => isBlank c || isSign c) (digits r ++ behind r) = false) ->
  allDigits (digits r) = true ->
  startsWith isDigit (behind r) = false ->
  Number_parseInt (dotStar (blanks r ++ sign r ++ digits r ++ behind r))
  = signedValue (sign r) (digits r).
Proof.
  intros Hblanks Hsign Hnone Hdigits Hbehind.
  unfold Number_parseInt, signedValue.
  rewrite dotStar_blanks, trimStart_blanks by exact Hblanks.
  pose proof (startsWith_dotStar isDigit (behind r) Hbehind) as Hbehind'.
  destruct Hsign as [Hs|[Hs|Hs]]; rewrite Hs in *.
  - specialize (Hnone eq_refl). cbn [app].
    rewrite dotStar_digits by exact Hdigits.
    assert (Hhead : startsWith (fun c => isBlank c || isSign c)
                      (digits r ++ dotStar (behind r)) = false).
    { destruct (digits r) as [|c a]; [|exact Hnone].
      cbn [app] in Hnone |- *. apply startsWith_dotStar. exact Hnone. }
    assert (Hline : startsWith isLineTerminator (digits r ++ dotStar (behind r)) = false).
    { destruct (digits r) as [|c a]; [apply dotStar_no_lineTerminator|].
      unfold allDigits in Hdigits. cbn [forallb] in Hdigits.
      apply andb_true_iff in Hdigits as [Hc _].
      cbn [app startsWith]. apply (digit_classes c Hc). }
    rewrite trimStart_none.
    2:{ destruct (digits r ++ dotStar (behind r)) as [|c t]; [reflexivity|].
        cbn [startsWith] in Hhead, Hline |- *. rewrite whiteSpace_classes, Hline.
        apply orb_false_iff in Hhead as [-> _]. reflexivity. }
    assert (Hplain : match digits r ++ dotStar (behind r) with
                     | c :: s' =>
                         if N.eqb c 45 then (true, s')
                         else if N.eqb c 43 then (false, s')
                         else (false, digits r ++ dotStar (behind r))
                     | [] => (false, digits r ++ dotStar (behind r))
                     end = (false, digits r ++ dotStar (behind r))).
    { destruct (digits r ++ dotStar (behind r)) as [|c t]; [reflexivity|].
      cbn [startsWith] in Hhead. apply orb_false_iff in Hhead as [_ Hhead].
      unfold isSign in Hhead. apply orb_false_iff in Hhead as [-> ->]. reflexivity. }
    rewrite Hplain.
    apply (parseInt_digits false); assumption.
  - cbn [app dotStar].
    change (isLineTerminator 45) with false. cbv iota.
    rewrite dotStar_digits by exact Hdigits.
    cbn [trimStart]. change (isStrWhiteSpaceChar 45) with false. cbv iota.
    change (N.eqb 45 45) with true. cbv iota.
    apply (parseInt_digits true); assumption.
  - cbn [app dotStar].
    change (isLineTerminator 43) with false. cbv iota.
    rewrite dotStar_digits by exact Hdigits.
    cbn [trimStart]. change (isStrWhiteSpaceChar 43) with false. cbv iota.
    change (N.eqb 43 45) with false. change (N.eqb 43 43) with true. cbv iota.
    apply (parseInt_digits false); assumption.
Qed.

Lemma extractNodeId_reads (name : list N) (r : Reading) :
  reads name r ->
  extractNodeId name
  = match signedValue (sign r) (digits r) with
    | Some nodeId => nodeId
    | None => Integer 0
    end.
Proof.
  intros (Hname & Hfirst & Hblanks & Hsign & Hnone & Hdigits & Hbehind).
  unfold extractNodeId. rewrite Hname, (match_first _ _ Hfirst).
  cbn [length Nat.eqb negb nth].
  rewrite parseInt_reading by assumption.
  reflexivity.
Qed.

(** Every name that contains [Node_] is read in some way. *)
Lemma reading_exists (name : list N) :
  containsNodePrefix name -> exists r, reads name r.
Proof.
  intros Hcontains.
  destruct (first_occurrence name Hcontains) as (pre & rest & Hname & Hfirst).
  destruct (longest_prefix isBlank rest) as (ws & rest1 & Hrest & Hws & Hrest1).
  assert (Hsigned : exists sg rest2,
             rest1 = sg ++ rest2
             /\ (sg = [] \/ sg = [45%N] \/ sg = [43%N])
             /\ (sg = [] -> startsWith (fun c => isBlank c || isSign c) rest2 = false)).
  { destruct rest1 as [|c t].
    - exists [], []. repeat split; auto.
    - destruct (N.eqb_spec c 45) as [->|H45]; [exists [45%N], t; repeat split; auto;
                                                 intros; discriminate|].
      destruct (N.eqb_spec c 43) as [->|H43]; [exists [43%N], t; repeat split; auto;
                                                 intros; discriminate|].
      exists [], (c :: t). repeat split; auto. intros _. cbn in Hrest1 |- *.
      rewrite Hrest1. unfold isSign.
      apply N.eqb_neq in H45, H43. rewrite H45, H43. reflexivity. }
  destruct Hsigned as (sg & rest2 & Hrest1' & Hsg & Hnone).
  destruct (longest_prefix isDigit rest2) as (ds & tail & Hrest2 & Hds & Htail).
  exists (mkReading pre ws sg ds tail). unfold reads. cbn.
  split; [rewrite Hname, Hrest, Hrest1', Hrest2; reflexivity|].
  split; [exact Hfirst|]. split; [exact Hws|]. split; [exact Hsg|].
  split; [rewrite <- Hrest2; exact Hnone|]. split; [exact Hds|exact Htail].
Qed.

(** Below [2^53] every natural number is a double. *)
Lemma toDouble_exact (m : Z) : m < 2 ^ 53 -> toDouble m = Some m.
Proof.
  intros Hm. unfold toDouble. destruct (Z.ltb_spec m (2 ^ 53)); [reflexivity|lia].
Qed.

(** From [2^53] on [toDouble] rounds to the nearest double, ties to even,
    and gives none when that is beyond the finite doubles. *)
Lemma toDouble_nearest (m : Z) :
  2 ^ 53 <= m ->
  exists double,
    nearestDouble m double
    /\ toDouble m = if double <? 2 ^ 1024 then Some double else None.
Proof.
  intros Hlarge. unfold toDouble, nearestDouble.
  destruct (Z.ltb_spec m (2 ^ 53)) as [Hsmall|_]; [lia|].
  set (e := Z.log2 m - 52).
  assert (Hlog : 53 <= Z.log2 m) by (apply Z.log2_le_pow2; lia).
  assert (He : 1 <= e) by (unfold e; lia).
  assert (Hhalf : 2 ^ e = 2 * 2 ^ (e - 1)).
  { rewrite <- Z.pow_succ_r by lia. f_equal. lia. }
  assert (Hpos : 0 < 2 ^ (e - 1)) by (apply Z.pow_pos_nonneg; lia).
  pose proof (Z.div_mod m (2 ^ e) ltac:(lia)) as Hdiv.
  pose proof (Z.mod_pos_bound m (2 ^ e) ltac:(lia)) as Hmod.
  set (q := m / 2 ^ e) in *. set (r := m mod 2 ^ e) in *.
  set (half := 2 ^ (e - 1)) in *.
  cbv zeta.
  destruct ((half <? r) || ((r =? half) && Z.odd q)) eqn:Hup.
  - exists ((q + 1) * 2 ^ e). split; [|reflexivity].
    exists (q + 1). split; [reflexivity|].
    assert (Hr : half <= r).
    { apply orb_true_iff in Hup as [Hup|Hup].
      - apply Z.ltb_lt in Hup. lia.
      - apply andb_true_iff in Hup as [Hup _]. apply Z.eqb_eq in Hup. lia. }
    replace ((q + 1) * 2 ^ e - m) with (2 ^ e - r) by lia.
    rewrite Z.abs_eq by lia. split; [lia|].
    intros Htie.
    apply orb_true_iff in Hup as [Hup|Hup]; [apply Z.ltb_lt in Hup; lia|].
    apply andb_true_iff in Hup as [_ Hodd].
    replace (q + 1) with (Z.succ q) by lia. rewrite Z.even_succ. exact Hodd.
  - exists (q * 2 ^ e). split; [|reflexivity].
    exists q. split; [reflexivity|].
    apply orb_false_iff in Hup as [Hlow Hup]. apply Z.ltb_ge in Hlow.
    replace (q * 2 ^ e - m) with (- r) by lia.
    rewrite Z.abs_opp, Z.abs_eq by lia. split; [lia|].
    intros Htie.
    assert (Hr : r = half) by lia.
    apply Z.eqb_eq in Hr. rewrite Hr in Hup. cbn [andb] in Hup.
    rewrite <- Z.negb_odd, Hup. reflexivity.
Qed.

(** The nearest double is within the number times [2^-53] of it. *)
Lemma nearestDouble_near (m double : Z) :
  2 ^ 53 <= m -> nearestDouble m double -> Z.abs (double - m) * 2 ^ 53 <= m.
Proof.
  intros Hlarge (significand & _ & Hnear & _).
  assert (Hlog : 53 <= Z.log2 m) by (apply Z.log2_le_pow2; lia).
  pose proof (Z.log2_spec m ltac:(lia)) as [Hlow _].
  assert (Hpow : 2 ^ Z.log2 m = 2 ^ (Z.log2 m - 52) * 2 ^ 52).
  { rewrite <- Z.pow_add_r by lia. f_equal. lia. }
  change (2 ^ 53) with (2 * 2 ^ 52). change (2 ^ 52) with 4503599627370496 in *.
  nia.
Qed.

Lemma decimalValue_nonneg (a : list N) : allDigits a = true -> 0 <= decimalValue a.
Proof.
  induction a as [|c a IH]; [reflexivity|]. unfold allDigits. cbn [forallb decimalValue].
  intros [Hc Ha]%andb_true_iff. specialize (IH Ha).
  unfold isDigit in Hc. apply andb_true_iff in Hc as [Hc _]. apply N.leb_le in Hc.
  assert (0 <= 10 ^ Z.of_nat (length a)) by (apply Z.pow_nonneg; lia).
  nia.
Qed.

(** C8 (amended).  [extractNodeId] is total, so it never throws.  A name
    that does not contain [Node_] yields 0.  A name that contains it is read
    from the first [Node_] on: blanks are skipped, then a sign or none,
    then the longest run of decimal digits; what stands before [Node_] and
    what follows the digits, a line terminator and all behind it included,
    does not matter.  Without a digit the name yields 0; digits worth 0
    yield a zero, the negative one behind a minus; otherwise the name
    yields the value of the digits with the sign, exactly when the value is
    below [2^53], and else the double nearest to it, ties going to the even
    significand, which differs from it by at most the value times [2^-53];
    from [2^1024] on that double is none and the name yields an
    infinity. *)
Theorem extractNodeId_reading (name : list N) :
  (~ containsNodePrefix name -> extractNodeId name = Integer 0)
  /\ (containsNodePrefix name -> exists r, reads name r)
  /\ (forall r, reads name r ->
        let value := decimalValue (digits r) in
        (digits r = [] -> extractNodeId name = Integer 0)
        /\ (digits r <> [] -> value = 0 ->
            extractNodeId name = if isMinus (sign r) then NegativeZero else Integer 0)
        /\ (digits r <> [] -> 0 < value < 2 ^ 53 ->
            extractNodeId name = Integer (if isMinus (sign r) then - value else value))
        /\ (digits r <> [] -> 2 ^ 53 <= value ->
            exists double,
              nearestDouble value double
              /\ Z.abs (double - value) * 2 ^ 53 <= value
              /\ extractNodeId name
                 = if double <? 2 ^ 1024
                   then Integer (if isMinus (sign r) then - double else double)
                   else Infinity (isMinus (sign r)))).
Proof.
  split; [|split].
  - intros Hnone. unfold extractNodeId. rewrite match_None by exact Hnone. reflexivity.
  - apply reading_exists.
  - intros r Hreads. cbv zeta.
    rewrite (extractNodeId_reads name r Hreads). unfold signedValue.
    destruct (digits r) as [|c a] eqn:Hdigits.
    { split; [reflexivity|]. split; [|split]; intros Hne; congruence. }
    cbv zeta.
    split; [discriminate|].
    split; [intros _ Hzero; rewrite Hzero; reflexivity|].
    split.
    + intros _ [Hpos Hsmall].
      destruct (Z.eqb_spec (decimalValue (c :: a)) 0) as [Hzero|_]; [lia|].
      rewrite toDouble_exact by exact Hsmall. reflexivity.
    + intros _ Hlarge.
      destruct (Z.eqb_spec (decimalValue (c :: a)) 0) as [Hzero|_]; [lia|].
      destruct (toDouble_nearest (decimalValue (c :: a)) Hlarge) as (double & Hnearest & ->).
      exists double. split; [exact Hnearest|].
      split; [apply nearestDouble_near; assumption|].
      destruct (double <? 2 ^ 1024); reflexivity.
Qed.

(** None of the names [Node_42abc], [xNode_5], [Node_-5] and [Node_ 42] is
    [Node_] followed by digits alone, and none of them yields 0; the name
    [Node_9007199254740993] is so and yields another integer than its
    digits denote. *)
Lemma extractNodeId_counterexample :
  extractNodeId (codeUnits "Node_42abc") = Integer 42
  /\ extractNodeId (codeUnits "xNode_5") = Integer 5
  /\ extractNodeId (codeUnits "Node_-5") = Integer (-5)
  /\ extractNodeId (codeUnits "Node_ 42") = Integer 42
  /\ extractNodeId (codeUnits "Node_9007199254740993") = Integer 9007199254740992.
Proof. repeat split; vm_compute; reflexivity. Qed.

Lemma extractNodeId_reading_witness :
  extractNodeId (codeUnits "Node_42abc") = Integer 42.
Proof.
  destruct (extractNodeId_reading (codeUnits "Node_42abc")) as (_ & _ & Hreads).
  destruct (Hreads (mkReading [] [] [] (codeUnits "42") (codeUnits "abc")))
    as (_ & _ & Hvalue & _).
  - unfold reads. cbn [before blanks sign digits behind].
    split; [reflexivity|]. split.
    { intros (p & q & H). apply (f_equal (@length N)) in H.
      rewrite !length_app in H. cbn in H. lia. }
    split; [reflexivity|]. split; [left; reflexivity|].
    split; [reflexivity|]. split; reflexivity.
  - apply Hvalue; [discriminate|vm_compute; split; reflexivity].
Defined.

End NodeNameProperties.

Module DecoderProperties.
Import ImdlParser.
Open Scope Z_scope.

Section SameButWord.
Variables (w : Z) (buf buf' : list byte).
Hypothesis Hsame : sameButWordAt w buf buf'.

Lemma byteAt_same p : p < w \/ w + 4 <= p -> ByteStream.byteAt buf p = ByteStream.byteAt buf' p.
Proof.
  intros Hp. unfold ByteStream.byteAt. destruct (Z.ltb_spec p 0) as [|Hp0]; [reflexivity|].
  destruct Hsame as [_ Hs]. rewrite (Hs (Z.to_nat p)) by lia. reflexivity.
Qed.

Lemma uint32At_same p :
  p + 4 <= w \/ w + 4 <= p -> ByteStream.uint32At buf p = ByteStream.uint32At buf' p.
Proof.
  intros Hp. unfold ByteStream.uint32At. rewrite !byteAt_same by lia. reflexivity.
Qed.

Lemma drop_same (n : nat) : w + 4 <= Z.of_nat n -> skipn n buf = skipn n buf'.
Proof.
  intros Hn. apply list_eq. intros i. rewrite !lookup_drop.
  destruct Hsame as [_ Hs]. apply Hs. lia.
Qed.

Lemma slice_same p n : 0 <= p -> w + 4 <= p -> ByteStream.slice buf p n = ByteStream.slice buf' p n.
Proof. intros H0 Hp. unfold ByteStream.slice. rewrite drop_same by lia. reflexivity. Qed.

Lemma length_same : List.length buf = List.length buf'.
Proof. exact (proj1 Hsame). Qed.

End SameButWord.

Lemma sameButWordAt_splice (pre w w' post : list byte) :
  List.length w = 4%nat -> List.length w' = 4%nat ->
  sameButWordAt (Z.of_nat (List.length pre)) (pre ++ w ++ post) (pre ++ w' ++ post).
Proof.
  intros Hw Hw'. split.
  - rewrite !length_app. lia.
  - intros i [Hi|Hi].
    + rewrite !lookup_app_l by lia. reflexivity.
    + rewrite !(lookup_app_r pre), !lookup_app_r by lia. rewrite Hw, Hw'. reflexivity.
Qed.

Lemma uint32At_nonneg buf pos : 0 <= ByteStream.uint32At buf pos.
Proof.
  assert (Hb : forall p, 0 <= ByteStream.byteAt buf p).
  { intros p. unfold ByteStream.byteAt. destruct (p <? 0); [lia|].
    destruct (buf !! Z.to_nat p); lia. }
  unfold ByteStream.uint32At.
  pose proof (Hb pos). pose proof (Hb (pos + 1)). pose proof (Hb (pos + 2)).
  pose proof (Hb (pos + 3)).
  rewrite !Z.shiftl_mul_pow2 by lia. lia.
Qed.

Lemma readFrom_eq buf c :
  FeatureTableHeader.readFrom (ByteStream.mk buf c)
  = (if Z.of_nat (List.length buf) <? c + 12 then None
     else Some (FeatureTableHeader.mk (ByteStream.uint32At buf c)
                  (ByteStream.uint32At buf (c + 4)) (ByteStream.uint32At buf (c + 8))),
     ByteStream.mk buf (c + 12)).
Proof.
  unfold FeatureTableHeader.readFrom, ByteStream.readUint32, ByteStream.isPastTheEnd,
    ByteStream.length, ByteStream.setCurPos.
  cbn [ByteStream.buffer ByteStream.curPos].
  replace (c + 4 + 4) with (c + 8) by lia. replace (c + 8 + 4) with (c + 12) by lia.
  reflexivity.
Qed.

Section WithCoreCommon.
Context {core : CoreCommon} {Node ImdlParserOptions : Type}.
Variable parseNodes :
  Document -> Uint8Array.t -> ImdlParserOptions -> FeatureTable -> Result (list Node).

(** Reading moves the cursor and leaves the buffer alone. *)
Lemma readFrom_buffer s :
  ByteStream.buffer (snd (FeatureTableHeader.readFrom s)) = ByteStream.buffer s.
Proof. reflexivity. Qed.

Lemma GltfHeader_new_buffer s :
  ByteStream.buffer (snd (GltfHeader_new s)) = ByteStream.buffer s.
Proof.
  unfold GltfHeader_new. cbn.
  repeat match goal with |- context [if ?b then _ else _] => destruct b end; reflexivity.
Qed.

(** [parseImdlDocument] through its stages. *)
Lemma parseImdlDocument_stages options stream :
  parseImdlDocument parseNodes options stream =
  let '(imdlHeader, pos) := ImdlHeader_new stream in
  if negb (imdl_isValid imdlHeader) then inr TileReadStatus.InvalidHeader
  else if negb (imdl_isReadableVersion imdlHeader) then inr TileReadStatus.NewerMajorVersion
  else
    match FeatureTableHeader.readFrom (ByteStream.setCurPos stream pos) with
    | (None, _) => inr TileReadStatus.InvalidFeatureTable
    | (Some ftHeader, stream) =>
        match decodeScene stream imdlHeader pos (FeatureTableHeader.length ftHeader) with
        | inl (imdlDoc, binaryData, featureTable, stream) =>
            match parse parseNodes imdlDoc binaryData options stream featureTable with
            | Ok result => result
            | Throw => inr TileReadStatus.InvalidTileData
            end
        | inr status => inr status
        end
    end.
Proof.
  unfold parseImdlDocument, decodeScene, parseScene.
  destruct (ImdlHeader_new stream) as [imdlHeader pos].
  destruct (negb (imdl_isValid imdlHeader)); [reflexivity|].
  destruct (negb (imdl_isReadableVersion imdlHeader)); [reflexivity|].
  cbn [ByteStream.curPos ByteStream.setCurPos].
  destruct (FeatureTableHeader.readFrom _) as [[ftHeader|] s1]; [|reflexivity].
  destruct (GltfHeader_new _) as [gltfHeader s2].
  destruct (negb (isValid gltfHeader)); [reflexivity|].
  destruct (ByteStream.nextBytes _ _) as [sceneStrData s3].
  destruct (utf8ToString sceneStrData) as [[|c sceneStr]|]; try reflexivity.
  destruct (readScene _ _ _ _ _) as [[[[imdlDoc binaryData] featureTable]|status]|];
    reflexivity.
Qed.

Lemma readScene_info stream imdlHeader ftStartPos gltfHeader sceneStr document binaryData info :
  readScene stream imdlHeader ftStartPos gltfHeader sceneStr = Ok (inl (document, binaryData, info)) ->
  startPos info = ftStartPos.
Proof.
  unfold readScene. destruct (JSON_parse sceneStr) as [sceneValue|]; [|discriminate].
  intros H. unfold mbind in H.
  repeat match type of H with
  | context [Result_bind _ _ _ ?r] =>
      destruct r; cbn [Result_bind] in H; [|discriminate H]
  end.
  destruct (isNullish _); [discriminate|].
  repeat match type of H with
  | context [Result_bind _ _ _ ?r] =>
      destruct r; cbn [Result_bind] in H; [|discriminate H]
  end.
  now injection H as _ _ <-.
Qed.

Lemma decodeScene_inl stream imdlHeader pos ftLength document binaryData info stream' :
  decodeScene stream imdlHeader pos ftLength = inl (document, binaryData, info, stream') ->
  startPos info = pos /\ ByteStream.buffer stream' = ByteStream.buffer stream.
Proof.
  unfold decodeScene.
  pose proof (GltfHeader_new_buffer (ByteStream.setCurPos stream (pos + ftLength))) as Hb.
  destruct (GltfHeader_new _) as [gltfHeader s2]. cbn in Hb.
  destruct (negb (isValid gltfHeader)); [discriminate|].
  cbn [ByteStream.nextBytes].
  destruct (utf8ToString _) as [[|c sceneStr]|]; try discriminate.
  destruct (readScene _ _ _ _ _) as [[[[d b] i]|status]|] eqn:E; try discriminate.
  intros [= <- <- <- <-]. split; [eapply readScene_info; exact E | exact Hb].
Qed.

Lemma toUints_length width read a ids :
  0 < width ->
  Uint8Array.toUints width read a = Ok ids ->
  Z.of_nat (List.length ids) = Uint8Array.byteLength a / width.
Proof.
  unfold Uint8Array.toUints. intros Hw.
  destruct (negb _); [discriminate|]. intros [= <-].
  rewrite length_map, length_seq, Z2Nat.id; [reflexivity|].
  apply Z.div_pos; [unfold Uint8Array.byteLength; lia | assumption].
Qed.

Lemma relativeIndex_bounds len i : 0 <= len -> 0 <= Uint8Array.relativeIndex len i <= len.
Proof. unfold Uint8Array.relativeIndex. intros Hlen. destruct (Z.ltb_spec i 0); lia. Qed.

(** The bytes of a subarray: from the clipped begin to the clipped end. *)
Lemma subarray_byteLength a begin end_ :
  let len := Uint8Array.byteLength a in
  Uint8Array.byteLength (Uint8Array.subarray a begin end_)
  = Z.max (Uint8Array.relativeIndex len end_ - Uint8Array.relativeIndex len begin) 0.
Proof.
  cbv zeta. unfold Uint8Array.subarray.
  assert (Hlen : 0 <= Uint8Array.byteLength a) by (unfold Uint8Array.byteLength; lia).
  pose proof (relativeIndex_bounds (Uint8Array.byteLength a) begin Hlen) as Hb.
  pose proof (relativeIndex_bounds (Uint8Array.byteLength a) end_ Hlen) as He.
  set (b := Uint8Array.relativeIndex _ begin) in *.
  set (e := Uint8Array.relativeIndex _ end_) in *.
  unfold Uint8Array.byteLength at 1. cbn [Uint8Array.data].
  unfold ByteStream.slice. rewrite length_firstn, length_skipn.
  unfold Uint8Array.byteLength in Hb, He. lia.
Qed.

Lemma parseAnimationNodeIds_length document binaryData ids :
  parseAnimationNodeIds document binaryData = Ok (Some ids) ->
  exists bytesPerId bytes,
    animationNodeBytes document binaryData = Ok (Some (bytesPerId, bytes))
    /\ (bytesPerId = 1 \/ bytesPerId = 2 \/ bytesPerId = 4)
    /\ Z.of_nat (List.length ids) = Uint8Array.byteLength bytes / bytesPerId.
Proof.
  unfold parseAnimationNodeIds.
  destruct (animationNodeBytes document binaryData) as [[[bytesPerId bytes]|]|]; cbn;
    try discriminate.
  intros H. exists bytesPerId, bytes. split; [reflexivity|].
  destruct (Z.eqb_spec bytesPerId 1) as [->|_].
  { injection H as <-. split; [auto|].
    unfold Uint8Array.toUint8s, Uint8Array.byteLength. rewrite length_map, Z.div_1_r. reflexivity. }
  destruct (Z.eqb_spec bytesPerId 2) as [->|_].
  { destruct (Uint8Array.toUints 2 _ bytes) as [l|] eqn:E; cbn in H; [|discriminate].
    injection H as <-. split; [auto|]. eapply toUints_length; [lia | exact E]. }
  destruct (Z.eqb_spec bytesPerId 4) as [->|_]; [|discriminate].
  destruct (Uint8Array.toUints 4 _ bytes) as [l|] eqn:E; cbn in H; [|discriminate].
  injection H as <-. split; [auto|]. eapply toUints_length; [lia | exact E].
Qed.

(** What [animationNodeBytes] read to get at its bytes. *)
Lemma animationNodeBytes_view document binaryData bytesPerId bytes :
  animationNodeBytes document binaryData = Ok (Some (bytesPerId, bytes)) ->
  exists bytesPerIdJson bufferViewIdJson bufferViewJson byteOffsetJson byteLengthJson,
    getProp (animationNodes document) "bytesPerId" = Ok bytesPerIdJson
    /\ getProp (animationNodes document) "bufferView" = Ok bufferViewIdJson
    /\ JsObject.getElem (bufferViews document) (JsonUtils_asString bufferViewIdJson)
       = Ok bufferViewJson
    /\ isUndefined bufferViewJson = false
    /\ getProp bufferViewJson "byteOffset" = Ok byteOffsetJson
    /\ getProp bufferViewJson "byteLength" = Ok byteLengthJson
    /\ bytesPerId = JsonUtils.asInt bytesPerIdJson
    /\ bytes = Uint8Array.subarray binaryData (JsonUtils.asInt byteOffsetJson)
                 (JsonUtils.asInt byteOffsetJson + JsonUtils.asInt byteLengthJson).
Proof.
  unfold animationNodeBytes.
  destruct (isUndefined (animationNodes document)); [discriminate|].
  destruct (getProp (animationNodes document) "bytesPerId") as [bytesPerIdJson|] eqn:H1;
    [|discriminate].
  destruct (getProp (animationNodes document) "bufferView") as [bufferViewIdJson|] eqn:H2;
    [|discriminate].
  cbn [fmap Result_fmap mbind Result_bind].
  destruct (JsObject.getElem (bufferViews document) (JsonUtils_asString bufferViewIdJson))
    as [bufferViewJson|] eqn:H3; [|discriminate].
  cbn [mbind Result_bind].
  destruct (isUndefined bufferViewJson) eqn:Hdefined; [discriminate|].
  destruct (getProp bufferViewJson "byteOffset") as [byteOffsetJson|] eqn:H5; [|discriminate].
  destruct (getProp bufferViewJson "byteLength") as [byteLengthJson|] eqn:H6; [|discriminate].
  cbn [fmap Result_fmap mbind Result_bind].
  intros [= <- <-].
  exists bytesPerIdJson, bufferViewIdJson, bufferViewJson, byteOffsetJson, byteLengthJson.
  repeat split; assumption || reflexivity.
Qed.


(** The feature table is rejected when its declared length is not a
    multiple of 4 or runs past the end of the buffer. *)
Lemma parseFeatureTable_rejects document binaryData stream info ftHeader s1 :
  FeatureTableHeader.readFrom (ByteStream.setCurPos stream (startPos info)) = (Some ftHeader, s1) ->
  Z.rem (FeatureTableHeader.length ftHeader) 4 <> 0
  \/ (FeatureTableHeader.sizeInBytes <= FeatureTableHeader.length ftHeader
      /\ ByteStream.length stream < startPos info + FeatureTableHeader.length ftHeader) ->
  exists s2, parseFeatureTable document binaryData stream info = Ok (None, s2).
Proof.
  intros Hh Hbad. unfold parseFeatureTable. rewrite Hh.
  destruct (Z.eqb_spec 0 (Z.rem (FeatureTableHeader.length ftHeader) 4)) as [Hrem|Hrem]; cbn [negb];
    [|eauto].
  destruct Hbad as [Hbad|[Hsize Hend]]; [congruence|].
  unfold FeatureTableHeader.sizeInBytes in *.
  set (n := (FeatureTableHeader.length ftHeader - 12) / 4).
  assert (Hn : 0 <= n /\ 4 * n = FeatureTableHeader.length ftHeader - 12).
  { subst n. symmetry in Hrem. rewrite Z.rem_mod_nonneg in Hrem by lia.
    Z.to_euclidean_division_equations. lia. }
  unfold ByteStream.nextUint32s. destruct (Z.ltb_spec n 0) as [|_]; [lia|].
  cbn [mbind Result_bind].
  assert (Hpos : ByteStream.curPos s1 = startPos info + 12
                 /\ ByteStream.buffer s1 = ByteStream.buffer stream).
  { unfold FeatureTableHeader.readFrom in Hh. cbn in Hh.
    destruct (ByteStream.isPastTheEnd _); [discriminate Hh|].
    injection Hh as _ <-. cbn. split; [lia | reflexivity]. }
  destruct Hpos as [Hc Hb].
  unfold ByteStream.isPastTheEnd, ByteStream.length, ByteStream.setCurPos. cbn.
  rewrite Hb, Hc. unfold ByteStream.length in Hend.
  destruct (Z.ltb_spec (Z.of_nat (List.length (ByteStream.buffer stream)))
                       (startPos info + 12 + 4 * n)); [eauto | lia].
Qed.

(** C5 (amended).  Once the tile header is accepted: when the feature-table
    header cannot be read, [parseImdlDocument] returns the invalid-feature-table
    status; when the declared length is not a multiple of 4, or the packed
    feature array would end past the buffer, it returns no document, namely
    the invalid-feature-table status if the scene chunk decodes and otherwise
    the status of the scene stage that fails. *)
Theorem invalid_feature_table options stream imdlHeader pos :
  ImdlHeader_new stream = (imdlHeader, pos) ->
  imdl_isValid imdlHeader = true ->
  imdl_isReadableVersion imdlHeader = true ->
  match FeatureTableHeader.readFrom (ByteStream.setCurPos stream pos) with
  | (None, _) =>
      parseImdlDocument parseNodes options stream = inr TileReadStatus.InvalidFeatureTable
  | (Some ftHeader, s) =>
      let ftLength := FeatureTableHeader.length ftHeader in
      Z.rem ftLength 4 <> 0
      \/ (FeatureTableHeader.sizeInBytes <= ftLength
          /\ ByteStream.length stream < pos + ftLength) ->
      (exists status, parseImdlDocument parseNodes options stream = inr status)
      /\ match decodeScene s imdlHeader pos ftLength with
         | inl _ =>
             parseImdlDocument parseNodes options stream
             = inr TileReadStatus.InvalidFeatureTable
         | inr status => parseImdlDocument parseNodes options stream = inr status
         end
  end.
Proof.
  intros Hh Hv Hr. rewrite parseImdlDocument_stages, Hh, Hv, Hr. cbn [negb].
  destruct (FeatureTableHeader.readFrom _) as [[ftHeader|] s] eqn:Eh; [|reflexivity].
  cbn zeta. intros Hbad.
  destruct (decodeScene _ _ _ _) as [[[[document binaryData] info] s']|status] eqn:Ed;
    [|eauto].
  apply decodeScene_inl in Ed as [Hs Hb].
  assert (Hbs : ByteStream.buffer s = ByteStream.buffer stream).
  { pose proof (readFrom_buffer (ByteStream.setCurPos stream pos)) as Hx.
    now rewrite Eh in Hx. }
  assert (Hrej : exists s2, parseFeatureTable document binaryData s' info = Ok (None, s2)).
  { apply (parseFeatureTable_rejects _ _ _ _ ftHeader s).
    - rewrite Hs. unfold ByteStream.setCurPos. rewrite Hb, Hbs. exact Eh.
    - rewrite Hs. unfold ByteStream.length in *. rewrite Hb, Hbs. exact Hbad. }
  destruct Hrej as [s2 Hrej]. unfold parse. rewrite Hrej. cbn. eauto.
Qed.

(** The scene chunk header of a chunk tagged version 2 whose fifth word is
    the version-1 sentinel, next to that of the same chunk tagged
    version 1. *)
Lemma GltfHeader_new_legacy g buf buf' :
  sameButWordAt (g + 4) buf buf' ->
  ByteStream.uint32At buf (g + 4) = GltfVersions_Version2 ->
  ByteStream.uint32At buf (g + 16) = GltfVersions_Gltf1SceneFormat ->
  ByteStream.uint32At buf' (g + 4) = GltfVersions_Version1 ->
  let sceneStrLength := ByteStream.uint32At buf (g + 12) in
  let expected :=
    {| header := TileHeader.mk (ByteStream.uint32At buf g) GltfVersions_Version1;
       gltfLength := ByteStream.uint32At buf (g + 8);
       scenePosition := g + 20;
       sceneStrLength := sceneStrLength;
       binaryPosition := g + 20 + sceneStrLength |} in
  GltfHeader_new (ByteStream.mk buf g) = (expected, ByteStream.mk buf (g + 20))
  /\ GltfHeader_new (ByteStream.mk buf' g) = (expected, ByteStream.mk buf' (g + 20)).
Proof.
  intros Hsame H2 H5 H1. cbn zeta.
  assert (H5' : ByteStream.uint32At buf' (g + 16) = GltfVersions_Gltf1SceneFormat).
  { rewrite <- (uint32At_same _ _ _ Hsame) by lia. exact H5. }
  unfold GltfHeader_new, TileHeader.new, ByteStream.readUint32.
  cbn [ByteStream.buffer ByteStream.curPos ByteStream.setCurPos TileHeader.version
       TileHeader.format].
  replace (g + 4 + 4) with (g + 8) by lia. replace (g + 8 + 4) with (g + 12) by lia.
  replace (g + 12 + 4) with (g + 16) by lia. replace (g + 16 + 4) with (g + 20) by lia.
  rewrite <- !(uint32At_same _ _ _ Hsame g), <- !(uint32At_same _ _ _ Hsame (g + 8)),
    <- !(uint32At_same _ _ _ Hsame (g + 12)) by lia.
  rewrite H2, H5, H1, H5'.
  rewrite !(Z.eqb_refl GltfVersions_Gltf1SceneFormat), !andb_true_r.
  cbn [negb]. split.
  - rewrite (Z.eqb_refl GltfVersions_Version2). cbn [TileHeader.version].
    rewrite (Z.eqb_refl GltfVersions_Version1). reflexivity.
  - destruct (GltfVersions_Version1 =? GltfVersions_Version2);
      cbn [TileHeader.version TileHeader.format];
      rewrite (Z.eqb_refl GltfVersions_Version1); reflexivity.
Qed.

Lemma ofBuffer_same w buf buf' q :
  sameButWordAt w buf buf' -> 0 <= q -> w + 4 <= q ->
  Uint8Array.ofBuffer buf q = Uint8Array.ofBuffer buf' q.
Proof.
  intros Hsame H0 Hq. unfold Uint8Array.ofBuffer.
  rewrite (length_same _ _ _ Hsame), (drop_same _ _ _ Hsame) by lia. reflexivity.
Qed.

Lemma readScene_same w buf buf' c c' imdlHeader ftStartPos gltfHeader sceneStr :
  sameButWordAt w buf buf' -> 0 <= binaryPosition gltfHeader ->
  w + 4 <= binaryPosition gltfHeader ->
  readScene (ByteStream.mk buf c) imdlHeader ftStartPos gltfHeader sceneStr
  = readScene (ByteStream.mk buf' c') imdlHeader ftStartPos gltfHeader sceneStr.
Proof.
  intros Hsame H0 Hq. unfold readScene. cbn [ByteStream.buffer].
  rewrite (ofBuffer_same w buf buf') by assumption. reflexivity.
Qed.

Lemma nextUint32s_same w buf buf' c n :
  sameButWordAt w buf buf' -> c + 4 * n <= w ->
  fst <$> ByteStream.nextUint32s (ByteStream.mk buf c) n
  = fst <$> ByteStream.nextUint32s (ByteStream.mk buf' c) n.
Proof.
  intros Hsame Hn. unfold ByteStream.nextUint32s.
  destruct (Z.ltb_spec n 0) as [|Hn0]; [reflexivity|].
  unfold ByteStream.length. cbn [ByteStream.buffer ByteStream.curPos fmap Result_fmap fst].
  rewrite <- (length_same _ _ _ Hsame). f_equal.
  apply map_ext_in. intros i Hi%in_seq. apply (uint32At_same _ _ _ Hsame). left.
  destruct Hi as [_ Hi]. cbn in Hi. lia.
Qed.

Lemma parseFeatureTable_same document binaryData buf buf' c c' info :
  0 <= startPos info ->
  sameButWordAt (startPos info + ByteStream.uint32At buf (startPos info) + 4) buf buf' ->
  fst <$> parseFeatureTable document binaryData (ByteStream.mk buf c) info
  = fst <$> parseFeatureTable document binaryData (ByteStream.mk buf' c') info.
Proof.
  intros H0 Hsame. set (p := startPos info) in *.
  set (L := ByteStream.uint32At buf p) in *.
  assert (HL : 0 <= L) by apply uint32At_nonneg.
  assert (HL' : ByteStream.uint32At buf' p = L).
  { symmetry. apply (uint32At_same _ _ _ Hsame). lia. }
  unfold parseFeatureTable. unfold ByteStream.setCurPos at 1 3. cbn [ByteStream.buffer].
  fold p. rewrite !readFrom_eq, HL', <- (length_same _ _ _ Hsame). fold L.
  destruct (_ <? _); [reflexivity|].
  cbn [FeatureTableHeader.length]. destruct (negb _); [reflexivity|].
  unfold FeatureTableHeader.sizeInBytes. set (n := (L - 12) / 4).
  pose proof (nextUint32s_same _ buf buf' (p + 12) n Hsame) as Hnext.
  destruct (Z.ltb_spec n 0) as [Hn|Hn].
  { unfold ByteStream.nextUint32s. destruct (Z.ltb_spec n 0); [reflexivity|lia]. }
  assert (Hdiv : 4 * n <= L - 12 /\ 12 <= L)
    by (subst n; Z.to_euclidean_division_equations; lia).
  specialize (Hnext ltac:(lia)).
  unfold ByteStream.nextUint32s, ByteStream.isPastTheEnd, ByteStream.length,
    ByteStream.setCurPos in *.
  cbn [ByteStream.buffer ByteStream.curPos] in *.
  destruct (Z.ltb_spec n 0); [lia|].
  cbn [fmap Result_fmap fst] in Hnext. injection Hnext as Hdata.
  cbn [mbind Result_bind ByteStream.buffer ByteStream.curPos]. rewrite <- Hdata.
  rewrite <- (length_same _ _ _ Hsame).
  destruct (_ <? _); [reflexivity|].
  cbn [FeatureTableHeader.count FeatureTableHeader.numSubCategories].
  rewrite <- (uint32At_same _ _ _ Hsame (p + 4)), <- (uint32At_same _ _ _ Hsame (p + 8)) by lia.
  destruct (multiModel info); [reflexivity|].
  destruct (parseAnimationNodeIds document binaryData); reflexivity.
Qed.

Lemma parse_same document binaryData options buf buf' c c' info :
  0 <= startPos info ->
  sameButWordAt (startPos info + ByteStream.uint32At buf (startPos info) + 4) buf buf' ->
  parse parseNodes document binaryData options (ByteStream.mk buf c) info
  = parse parseNodes document binaryData options (ByteStream.mk buf' c') info.
Proof.
  intros H0 Hsame.
  pose proof (parseFeatureTable_same document binaryData buf buf' c c' info H0 Hsame) as H.
  unfold parse.
  destruct (parseFeatureTable _ _ (ByteStream.mk buf c) _) as [[ft s]|];
    destruct (parseFeatureTable _ _ (ByteStream.mk buf' c') _) as [[ft' s']|];
    cbn in H; try discriminate; [|reflexivity].
  injection H as <-. reflexivity.
Qed.

Ltac norm_stream :=
  repeat match goal with
  | |- context [ByteStream.setCurPos (ByteStream.mk ?b ?c0) ?p] =>
      change (ByteStream.setCurPos (ByteStream.mk b c0) p) with (ByteStream.mk b p)
  end.

Lemma decodeScene_legacy buf buf' c c' imdlHeader pos ftLength :
  let g := pos + ftLength in
  0 <= g ->
  sameButWordAt (g + 4) buf buf' ->
  ByteStream.uint32At buf (g + 4) = GltfVersions_Version2 ->
  ByteStream.uint32At buf (g + 16) = GltfVersions_Gltf1SceneFormat ->
  ByteStream.uint32At buf' (g + 4) = GltfVersions_Version1 ->
  match decodeScene (ByteStream.mk buf c) imdlHeader pos ftLength,
        decodeScene (ByteStream.mk buf' c') imdlHeader pos ftLength with
  | inl (d, b, i, t), inl (d', b', i', t') =>
      d = d' /\ b = b' /\ i = i' /\ ByteStream.buffer t = buf /\ ByteStream.buffer t' = buf'
  | inr status, inr status' => status = status'
  | _, _ => False
  end.
Proof.
  intros g Hg Hsame H2 H5 H1.
  destruct (GltfHeader_new_legacy g buf buf' Hsame H2 H5 H1) as [E E'].
  unfold decodeScene. norm_stream.
  fold g. rewrite E, E'. clear E E'.
  destruct (negb (isValid _)); [exact eq_refl|].
  cbn [scenePosition sceneStrLength ByteStream.setCurPos ByteStream.buffer].
  unfold ByteStream.nextBytes. cbn [ByteStream.buffer ByteStream.curPos]. norm_stream.
  cbn [ByteStream.buffer ByteStream.curPos].
  rewrite <- (slice_same _ _ _ Hsame) by lia.
  destruct (utf8ToString _) as [[|ch sceneStr]|]; try exact eq_refl.
  pose proof (uint32At_nonneg buf (g + 12)) as HL.
  rewrite (readScene_same (g + 4) buf buf' _ (g + 20 + ByteStream.uint32At buf (g + 12)))
    by (try exact Hsame; cbn; lia).
  destruct (readScene _ _ _ _ _) as [[[[d b] i]|status]|]; cbn; auto.
Qed.


End WithCoreCommon.

Import SampleCore Samples.



Lemma invalid_feature_table_counterexample :
  (exists ftHeader s,
     FeatureTableHeader.readFrom (ByteStream.mk oddTile 16) = (Some ftHeader, s)
     /\ Z.rem (FeatureTableHeader.length ftHeader) 4 <> 0)
  /\ parseImdlDocument noNodes tt (ByteStream.mk oddTile 0)
     = inr TileReadStatus.InvalidTileData.
Proof.
  split.
  - eexists. eexists. split; [vm_compute; reflexivity|]. cbn. discriminate.
  - vm_compute. reflexivity.
Qed.

Lemma invalid_feature_table_witness :
  parseImdlDocument noNodes tt (ByteStream.mk oddTileWithScene 0)
  = inr TileReadStatus.InvalidFeatureTable.
Proof.
  pose proof (invalid_feature_table noNodes tt
                (ByteStream.mk oddTileWithScene 0)
                {| imdl_isValid := true; imdl_isReadableVersion := true; imdl_flags := 0 |} 16
                eq_refl eq_refl eq_refl) as H.
  vm_compute in H. apply H. left. discriminate.
Defined.


End DecoderProperties.

(** ** The joints of the offset engine *)

Module JointProperties.
Import Curves JointOps.

Lemma Qltb_lt a b : Qltb a b = true <-> a < b.
Proof.
  unfold Qltb. rewrite negb_true_iff, <- not_true_iff_false, Qle_bool_iff.
  split; [apply Qnot_le_lt | apply Qlt_not_le].
Qed.

Lemma Qltb_ge a b : Qltb a b = false <-> b <= a.
Proof. unfold Qltb. rewrite negb_false_iff. apply Qle_bool_iff. Qed.

Lemma Qle_bool_gt a b : Qle_bool a b = false <-> b < a.
Proof.
  rewrite <- not_true_iff_false, Qle_bool_iff.
  split; [apply Qnot_le_lt | apply Qlt_not_le].
Qed.

Ltac fin :=
  repeat split; intros;
  repeat match goal with
         | H : _ /\ _ |- _ => destruct H
         | H : _ \/ _ |- _ => destruct H
         end;
  try lra; try (exfalso; lra); try congruence; try reflexivity;
  try (left; split; lra); try (right; repeat split; solve [lra | assumption]).

Section WithKernel.
Context {kernel : GeometryKernel}.

Lemma fillGap_flexure c0 c1 this : flexure (fillGap c0 c1 this) = JointMode.Gap.
Proof. reflexivity. Qed.

(** [annotateExtension] leaves a joint with both curves as [Extend] or as
    [Gap]. *)
Lemma annotateExtension_flexure options this c0 c1 :
  curve0 this = Some c0 -> curve1 this = Some c1 ->
  flexure (annotateExtension options this) = JointMode.Extend
  \/ flexure (annotateExtension options this) = JointMode.Gap.
Proof.
  intros H0 H1. unfold annotateExtension. rewrite H0, H1.
  repeat match goal with
  | |- context [match ?x with _ => _ end] => destruct x
  end; auto.
Qed.

Section LinePair.
Variables (options : JointOptions.t) (this : Joint) (c0 c1 : CurvePrimitive).
Hypothesis Hc0 : curve0 this = Some c0.
Hypothesis Hc1 : curve1 this = Some c1.
Hypothesis Hl0 : isLineSegment3d c0 = true.
Hypothesis Hl1 : isLineSegment3d c1 = true.
Hypothesis Hapart : Point3d.isAlmostEqual (endPoint c0) (startPoint c1) = false.
Hypothesis Hfresh : flexure this = JointMode.Unknown.

Let intersection :=
  Ray3d_closestApproachRay3dRay3d (fractionToPointAndDerivative c0 0)
                                   (fractionToPointAndDerivative c1 0).
Hypothesis Hmeet : approachType intersection = Some CurveCurveApproachType.Intersection.
Let f0 := fraction (detailA intersection).
Let f1 := fraction (detailB intersection).
Let located := set_fraction1 (Some f1) (set_fraction0 (Some f0) this).

Lemma annotateJointMode_linePair :
  annotateJointMode options this =
  if Qle_bool 1 f0 && Qle_bool f1 0 then annotateExtension options located
  else if Qltb f0 1 && Qltb 0 f1 then set_flexure JointMode.Trim located
  else if Qltb 1 f0 && Qltb 1 f1 then
    set_fraction1 (Some 0)
      (set_fraction0 (Some 1)
         (set_jointCurve
            (Some (LineSegment3d_create (fractionToPoint c0 1) (fractionToPoint c1 0)))
            (set_flexure JointMode.Gap located)))
  else located.
Proof.
  unfold annotateJointMode. rewrite Hc0, Hc1, Hapart, Hl0, Hl1. cbn [andb].
  fold intersection. rewrite Hmeet. reflexivity.
Qed.

(** C3 (amended).  For a joint not annotated before whose fragments are line
    segments that do not already meet end to start and whose support lines
    intersect at the parameters [f0] and [f1]: the joint is marked Trim, at
    exactly [(f0, f1)], if and only if [f0 < 1] and [0 < f1]; when [1 < f0]
    and [1 < f1] it is marked Gap with the segment from the end of fragment 0
    to the start of fragment 1 and the fractions [(1, 0)]; when [1 <= f0] and
    [f1 <= 0] it is handed to the corner construction; and it is marked Gap
    in these two ways only. *)
Theorem annotateJointMode_lines :
  let joint := annotateJointMode options this in
  (flexure joint = JointMode.Trim <-> f0 < 1 /\ 0 < f1)
  /\ (f0 < 1 /\ 0 < f1 ->
      fraction0 joint = Some f0 /\ fraction1 joint = Some f1
      /\ jointCurve joint = jointCurve this)
  /\ (1 < f0 /\ 1 < f1 ->
      flexure joint = JointMode.Gap
      /\ jointCurve joint
         = Some (LineSegment3d_create (fractionToPoint c0 1) (fractionToPoint c1 0))
      /\ fraction0 joint = Some 1 /\ fraction1 joint = Some 0)
  /\ (1 <= f0 /\ f1 <= 0 -> joint = annotateExtension options located)
  /\ (flexure joint = JointMode.Gap <->
      (1 < f0 /\ 1 < f1)
      \/ (1 <= f0 /\ f1 <= 0
          /\ flexure (annotateExtension options located) = JointMode.Gap)).
Proof.
  cbn zeta. rewrite annotateJointMode_linePair.
  assert (Hext : flexure (annotateExtension options located) <> JointMode.Trim).
  { destruct (annotateExtension_flexure options located c0 c1 Hc0 Hc1) as [E|E];
      rewrite E; discriminate. }
  destruct (Qle_bool 1 f0) eqn:E1; destruct (Qle_bool f1 0) eqn:E2; cbn [andb];
    try apply Qle_bool_iff in E1; try apply Qle_bool_iff in E2;
    try apply Qle_bool_gt in E1; try apply Qle_bool_gt in E2.
  - fin.
  - assert (Qltb f0 1 = false) as -> by (apply Qltb_ge; lra). cbn [andb].
    destruct (Qltb 1 f0) eqn:E3; destruct (Qltb 1 f1) eqn:E4; cbn [andb];
      try apply Qltb_lt in E3; try apply Qltb_lt in E4;
      try apply Qltb_ge in E3; try apply Qltb_ge in E4;
      cbn; rewrite ?Hfresh; fin.
  - assert (Qltb 0 f1 = false) as -> by (apply Qltb_ge; lra). rewrite andb_false_r.
    assert (Qltb 1 f0 = false) as -> by (apply Qltb_ge; lra). cbn [andb].
    cbn; rewrite ?Hfresh; fin.
  - assert (Qltb f0 1 = true) as -> by (apply Qltb_lt; lra).
    assert (Qltb 0 f1 = true) as -> by (apply Qltb_lt; lra). cbn [andb].
    cbn. fin.
Qed.
End LinePair.

(** The chamfer point count, by the formula and as a ceiling. *)
Lemma numChamferPoints_count options theta :
  let degrees := Qabs (degrees theta) in
  let cap := if JointOptions.allowSharpestCorners options
             then JointOptions.maxChamferTurnDegrees options else 120 in
  let stepDegrees := Geometry.clamp (JointOptions.maxChamferTurnDegrees options) 10 cap in
  let n := JointOptions.numChamferPoints options theta in
  10 <= stepDegrees
  /\ (degrees <= stepDegrees -> n = 1%Z)
  /\ (stepDegrees < degrees ->
      n = Qceiling (degrees / stepDegrees)
      /\ inject_Z (n - 1) * stepDegrees < degrees <= inject_Z n * stepDegrees).
Proof.
  cbn zeta. unfold JointOptions.numChamferPoints.
  set (d := Qabs (degrees theta)).
  set (step := Geometry.clamp _ _ _).
  assert (Hstep : 10 <= step) by (subst step; unfold Geometry.clamp; apply Q.le_max_l).
  split; [exact Hstep|]. split.
  - intros H. apply Qle_bool_iff in H. now rewrite H.
  - intros H. assert (Qle_bool d step = false) as -> by now apply Qle_bool_gt.
    split; [reflexivity|].
    pose proof (Qle_ceiling (d / step)) as Hc. pose proof (Qceiling_lt (d / step)) as Hf.
    assert (Hpos : 0 < step) by lra.
    assert (Hd : d / step * step == d) by (field; lra).
    split.
    + apply (Qmult_lt_compat_r _ _ step) in Hf; [|exact Hpos]. now rewrite Hd in Hf.
    + apply (Qmult_le_compat_r _ _ step) in Hc; [|lra]. now rewrite Hd in Hc.
Qed.

(** The interior vertices of a chamfer lie at even steps of the arc: vertex
    [i] at the arc fraction [(1 + 2 i) / (2 n)], all at one radial
    fraction. *)
Lemma chamferPoints_lookup arc theta n (i : nat) :
  (i < Z.to_nat n)%nat ->
  chamferPoints arc theta n !! i
  = Some (Arc3d_fractionAndRadialFractionToPoint arc
            ((1 + 2 * inject_Z (Z.of_nat i)) / (2 * inject_Z n))
            (1 / Math_cos (radians theta / (2 * inject_Z n)))).
Proof.
  intros Hi. unfold chamferPoints. rewrite list_lookup_fmap, lookup_seq_lt by assumption.
  reflexivity.
Qed.

Section Corner.
Variables (options : JointOptions.t) (this : Joint) (c0 c1 : CurvePrimitive).
Hypothesis Hc0 : curve0 this = Some c0.
Hypothesis Hc1 : curve1 this = Some c1.

Let ray0 := fractionToPointAndDerivative c0 1.
Let ray1 := fractionToPointAndDerivative c1 0.
Let intersection := Ray3d_closestApproachRay3dRay3d ray0 ray1.
Let theta := Vector3d_angleToXY (direction ray0) (direction ray1).
Let n := JointOptions.numChamferPoints options theta.

Hypothesis Hmeet : approachType intersection = Some CurveCurveApproachType.Intersection.
Hypothesis Hahead : 0 <= fraction (detailA intersection).
Hypothesis Hbehind : fraction (detailB intersection) <= 0.

End Corner.
End WithKernel.

Import PlanarKernel GeometrySamples.

Lemma annotateJointMode_lines_counterexample :
  let joint := annotateJointMode (JointOptions.new 3) insideJoint in
  flexure joint = JointMode.Trim
  /\ fraction0 joint = Some (1 # 4) /\ fraction1 joint = Some 3
  /\ ~ (3 <= 1).
Proof. cbn zeta. repeat split. intros H. lra. Qed.

Lemma annotateJointMode_lines_witness :
  flexure (annotateJointMode (JointOptions.new 3) insideJoint) = JointMode.Trim.
Proof.
  pose proof (annotateJointMode_lines (JointOptions.new 3) insideJoint
                insideFragment0 insideFragment1 eq_refl eq_refl eq_refl eq_refl eq_refl
                eq_refl eq_refl) as H.
  cbn zeta in H. apply (proj1 H). vm_compute. split; reflexivity.
Defined.



End JointProperties.

(** ** The joint chain of a polygon *)

Module ChainProperties.
Import Curves JointOps Chain PolygonWireOffsetContext ChainShapes.

Lemma isSameCoordinate_refl (a : Q) : Geometry.isSameCoordinate a a = true.
Proof.
  unfold Geometry.isSameCoordinate. apply Qle_bool_iff.
  assert (Hz : a - a == 0) by ring.
  rewrite Hz. discriminate.
Qed.

Lemma isAlmostEqual_refl (p : Point3d) : Point3d.isAlmostEqual p p = true.
Proof.
  unfold Point3d.isAlmostEqual. rewrite !isSameCoordinate_refl. reflexivity.
Qed.

Lemma isSameCoordinate_compat (a a' b b' : Q) :
  a == a' -> b == b' -> Geometry.isSameCoordinate a b = Geometry.isSameCoordinate a' b'.
Proof.
  intros Ha Hb. unfold Geometry.isSameCoordinate.
  rewrite Ha, Hb. reflexivity.
Qed.

Lemma isSameCoordinate_sym (a b : Q) :
  Geometry.isSameCoordinate a b = Geometry.isSameCoordinate b a.
Proof.
  unfold Geometry.isSameCoordinate. rewrite Qabs_Qminus. reflexivity.
Qed.

Lemma isAlmostEqual_compat (a a' b b' : Point3d) :
  pointEq a a' -> pointEq b b' ->
  Point3d.isAlmostEqual a b = Point3d.isAlmostEqual a' b'.
Proof.
  intros (Hx & Hy & Hz) (Hx' & Hy' & Hz'). unfold Point3d.isAlmostEqual.
  rewrite (isSameCoordinate_compat _ _ _ _ Hx Hx'), (isSameCoordinate_compat _ _ _ _ Hy Hy'),
    (isSameCoordinate_compat _ _ _ _ Hz Hz').
  reflexivity.
Qed.

Lemma isAlmostEqual_sym (a b : Point3d) :
  Point3d.isAlmostEqual a b = Point3d.isAlmostEqual b a.
Proof.
  unfold Point3d.isAlmostEqual.
  rewrite (isSameCoordinate_sym (x a)), (isSameCoordinate_sym (y a)),
    (isSameCoordinate_sym (z a)).
  reflexivity.
Qed.

Lemma plusScaled_zero (p : Point3d) (v : Vector3d) (d : Q) :
  d == 0 -> pointEq (Point3d.plusScaled p v d) p.
Proof.
  intros Hd. unfold pointEq, Point3d.plusScaled. cbn [x y z].
  rewrite Hd. repeat split; ring.
Qed.

Lemma last_is_Some_nonempty {A} (l : list A) : (0 < length l)%nat -> is_Some (last l).
Proof.
  destruct l as [|a l] using rev_ind; cbn; [lia|].
  intros _. rewrite last_snoc. eauto.
Qed.

Section WithKernel.
Context {kernel : GeometryKernel}.

Lemma createOffsetSegment_defined (p q : Point3d) (d : Q) :
  exists fragment, createOffsetSegment (Some p) (Some q) d = Ok fragment.
Proof.
  unfold createOffsetSegment.
  destruct (normalize (Vector3d.createStartEnd p q)); eauto.
Qed.

Lemma linkFragments_defined (points : list Point3d) (d : Q) (count : nat) :
  forall i store previous fragment0,
    (i + count < length points)%nat ->
    exists r, linkFragments points d count i store previous fragment0 = Ok r.
Proof.
  induction count as [|count IH]; intros i store previous fragment0 Hlen; cbn [linkFragments].
  - eauto.
  - destruct (lookup_lt_is_Some_2 points i) as [p Hp]; [lia|].
    destruct (lookup_lt_is_Some_2 points (S i)) as [q Hq]; [lia|].
    rewrite Hp, Hq.
    destruct (createOffsetSegment_defined p q d) as [fragment1 ->].
    cbn.
    apply IH. lia.
Qed.

Lemma buildChain_defined (points : list Point3d) (wrap : bool) (options : JointOptions.t) :
  (2 <= length points)%nat -> exists r, buildChain points wrap options = Ok r.
Proof.
  intros Hlen. unfold buildChain.
  destruct (lookup_lt_is_Some_2 points 0) as [p Hp]; [lia|].
  destruct (lookup_lt_is_Some_2 points 1) as [q Hq]; [lia|].
  rewrite Hp, Hq.
  destruct (createOffsetSegment_defined p q (JointOptions.leftOffsetDistance options))
    as [fragment0 ->].
  cbn.
  destruct (linkFragments_defined points (JointOptions.leftOffsetDistance options)
              (length points - 2) 1 [new_Joint None fragment0 (Some p)] 0%nat fragment0)
    as [[[store previous] fragment] Hr]; [lia|].
  unfold JointRef in *.
  rewrite Hr. cbn.
  destruct wrap; eauto.
Qed.

Lemma effectiveWrap_defined (points : list Point3d) (wrap : bool) :
  (2 <= length points)%nat -> exists w, effectiveWrap points wrap = Ok w.
Proof.
  intros Hlen. unfold effectiveWrap.
  destruct wrap; [|eauto].
  destruct (lookup_lt_is_Some_2 points 0) as [p ->]; [lia|].
  destruct (last_is_Some_nonempty points) as [q ->]; [lia|].
  eauto.
Qed.

Lemma emittedChain_defined (points : list Point3d) (wrap : bool) (options : JointOptions.t) :
  (2 <= length points)%nat -> exists chain, emittedChain points wrap options = Ok chain.
Proof.
  intros Hlen. unfold emittedChain, finishedChain.
  destruct (effectiveWrap_defined points wrap Hlen) as [w ->].
  cbn [mbind Result_bind].
  destruct (buildChain_defined points w options Hlen) as [[store joint0] ->].
  cbn [mbind Result_bind].
  destruct (removalPasses 5 options (length points) joint0
              (annotateChain (Some joint0) options (length points) store))
    as [[store' joint0'] log].
  eauto.
Qed.

(** How the emitted chain is wrapped. *)
Lemma chain_result (points : list Point3d) (wrap : bool) (arg : Q + JointOptions.t)
    (chain : list Point3d) (front back : Point3d) :
  emittedChain points wrap (JointOptions.create arg) = Ok chain ->
  (2 <= length chain)%nat ->
  head chain = Some front ->
  last chain = Some back ->
  constructPolygonWireXYOffset points wrap arg
  = Ok (Some (if Point3d.isAlmostEqual front back then Loop chain else Path chain)).
Proof.
  intros Hchain Hlong Hfront Hback. unfold constructPolygonWireXYOffset.
  rewrite Hchain. cbn [mbind Result_bind].
  destruct (Nat.ltb_spec 1 (length chain)) as [Hlt|Hge]; [|lia].
  rewrite Hfront, Hback.
  destruct (Point3d.isAlmostEqual front back); reflexivity.
Qed.

Lemma fragment_defined (points : list Point3d) (d : Q) (i : nat) :
  (S i < length points)%nat ->
  createOffsetSegment (points !! i) (points !! S i) d = Ok (fragment points d i).
Proof.
  intros Hlen. unfold fragment.
  destruct (lookup_lt_is_Some_2 points i) as [p ->]; [lia|].
  destruct (lookup_lt_is_Some_2 points (S i)) as [q ->]; [lia|].
  unfold createOffsetSegment.
  destruct (normalize (Vector3d.createStartEnd p q)); reflexivity.
Qed.

Lemma alter_middle {A} (f : A -> A) (pre : list A) (a : A) (rest : list A) :
  alter f (length pre) (pre ++ a :: rest) = pre ++ f a :: rest.
Proof. induction pre as [|b pre IH]; cbn; [reflexivity|]. f_equal. exact IH. Qed.

Lemma alter_middle_next {A} (f : A -> A) (pre : list A) (a b : A) (rest : list A) :
  alter f (S (length pre)) (pre ++ a :: b :: rest) = pre ++ a :: f b :: rest.
Proof. induction pre as [|c pre IH]; cbn; [reflexivity|]. f_equal. exact IH. Qed.

Lemma lookup_middle {A} (pre : list A) (a : A) (rest : list A) :
  (pre ++ a :: rest) !! length pre = Some a.
Proof. induction pre as [|b pre IH]; cbn; [reflexivity|exact IH]. Qed.

Lemma lookup_middle_next {A} (pre : list A) (a b : A) (rest : list A) :
  (pre ++ a :: b :: rest) !! S (length pre) = Some b.
Proof. induction pre as [|c pre IH]; cbn; [reflexivity|exact IH]. Qed.

(** Linking a new last joint to the joint before it. *)
Lemma link_snoc (pre : Store) (A B : Joint) (k : nat) :
  length pre = k ->
  curve0 B = curve1 A ->
  link k (Some (S k)) (pre ++ [A; B])
  = pre ++ [set_nextJoint (Some (S k)) A; set_previousJoint (Some k) B].
Proof.
  intros Hk Hc. subst k. unfold link, deref. cbv zeta. unfold Store, JointRef in *.
  rewrite alter_middle, alter_middle_next, lookup_middle, lookup_middle_next.
  cbn. rewrite Hc. destruct (curve1 A); reflexivity.
Qed.

Lemma linkFragments_shape (points : list Point3d) (d : Q) (count : nat) :
  forall k,
    (S k + count < length points)%nat ->
    linkFragments points d count (S k) (partialChain points d k) k (fragment points d k)
    = Ok (partialChain points d (k + count), (k + count)%nat,
          fragment points d (k + count)).
Proof.
  induction count as [|count IH]; intros k Hlen; cbn [linkFragments].
  - rewrite Nat.add_0_r. reflexivity.
  - rewrite fragment_defined by lia. cbn [mbind Result_bind].
    unfold alloc, partialChain.
    rewrite <- app_assoc. cbn [app].
    rewrite length_app, length_map, length_seq. cbn [length].
    replace (k + 1)%nat with (S k) by lia.
    rewrite link_snoc; [|rewrite length_map, length_seq; reflexivity|reflexivity].
    replace (k + S count)%nat with (S k + count)%nat by lia.
    etransitivity; [|exact (IH (S k) ltac:(lia))].
    unfold partialChain. rewrite seq_S, map_app, <- app_assoc. reflexivity.
Qed.

(** The chain of an open polyline. *)
Lemma buildChain_open (points : list Point3d) (options : JointOptions.t) (k : nat) :
  length points = S (S k) ->
  buildChain points false options
  = Ok (openChain points (JointOptions.leftOffsetDistance options) (S k), 0%nat).
Proof.
  intros Hlen. unfold buildChain.
  rewrite fragment_defined by lia. cbn [mbind Result_bind].
  unfold alloc. cbn [app length].
  rewrite Hlen. replace (S (S k) - 2)%nat with k by lia.
  pose proof (linkFragments_shape points (JointOptions.leftOffsetDistance options) k 0) as Hl.
  unfold partialChain at 1 in Hl. cbn [seq map app] in Hl.
  change (lastJoint points (JointOptions.leftOffsetDistance options) 0)
    with (new_Joint None (fragment points (JointOptions.leftOffsetDistance options) 0)
                    (points !! 0%nat)) in Hl.
  rewrite Hl by lia. cbn [mbind Result_bind Nat.add].
  unfold partialChain.
  rewrite <- app_assoc. cbn [app].
  rewrite length_app, length_map, length_seq. cbn [length].
  replace (k + 1)%nat with (S k) by lia.
  replace (S (S k) - 1)%nat with (S k) by lia.
  rewrite link_snoc; [|rewrite length_map, length_seq; reflexivity|reflexivity].
  unfold openChain. rewrite seq_S, map_app, <- app_assoc. reflexivity.
Qed.

(** Walking a chain whose joints follow each other in the store. *)
Lemma visitLoop_linear {St : Type} (storeOf : St -> Store)
    (callback : JointRef -> St -> bool * St) (start m : nat)
    (endLink : option JointRef) (I : nat -> St -> Prop) :
  (endLink = None \/ endLink = Some start) ->
  (forall j, (S j < m)%nat -> S j <> start) ->
  (forall j st, (j < m)%nat -> I j st ->
     exists st', callback j st = (true, st') /\ I (S j) st'
       /\ field nextJoint (storeOf st') (Some j)
          = if (S j =? m)%nat then endLink else Some (S j)) ->
  forall count k remaining st,
    (k + count = m)%nat -> (0 < count <= remaining)%nat -> I k st ->
    exists st', visitLoop storeOf callback start remaining (Some k) st = (true, st')
                /\ I m st'.
Proof.
  intros Hend Hstart Hstep.
  induction count as [|count IH]; intros k remaining st Hm Hcount HI; [lia|].
  destruct remaining as [|remaining]; [lia|].
  cbn [visitLoop].
  destruct (Hstep k st) as (st' & Hcb & HI' & Hnext); [lia|exact HI|].
  rewrite Hcb. cbn [negb]. cbv iota beta. unfold JointRef in *. rewrite Hnext.
  destruct (Nat.eqb_spec (S k) m) as [Heq|Hne].
  - exists st'. split; [|rewrite <- Heq; exact HI'].
    destruct Hend as [-> | ->]; cbn [refEqb].
    + destruct remaining; reflexivity.
    + rewrite Nat.eqb_refl. reflexivity.
  - cbn [refEqb].
    destruct (Nat.eqb_spec (S k) start) as [Heq|_]; [exfalso; apply (Hstart k); [lia|exact Heq]|].
    apply IH; [lia|lia|exact HI'].
Qed.

Lemma annotateExtension_nextJoint (options : JointOptions.t) (J : Joint) :
  nextJoint (annotateExtension options J) = nextJoint J.
Proof.
  unfold annotateExtension, fillGap. repeat case_match; reflexivity.
Qed.

Lemma annotateJointMode_nextJoint (options : JointOptions.t) (J : Joint) :
  nextJoint (annotateJointMode options J) = nextJoint J.
Proof.
  unfold annotateJointMode.
  repeat case_match; try reflexivity; rewrite annotateExtension_nextJoint; reflexivity.
Qed.

Lemma linear_fmap (f : Joint -> Joint) (endLink : option JointRef) (store : Store) :
  (forall J, nextJoint (f J) = nextJoint J) ->
  linear endLink store -> linear endLink (f <$> store).
Proof.
  intros Hf Hlin j J HJ. unfold Store, JointRef in *. rewrite list_lookup_fmap in HJ.
  destruct (store !! j) as [J0|] eqn:HJ0; [|discriminate].
  injection HJ as <-. rewrite Hf, length_fmap. exact (Hlin j J0 HJ0).
Qed.

(** The store while the joints before [j] have been altered by [f]. *)
Lemma alter_progress {A} (f : A -> A) (l : list A) (j : nat) :
  (j < length l)%nat ->
  alter f j ((f <$> take j l) ++ drop j l) = (f <$> take (S j) l) ++ drop (S j) l.
Proof.
  intros Hj.
  destruct (lookup_lt_is_Some_2 l j Hj) as [a Ha].
  rewrite (drop_S l a j Ha), (take_S_r l j a Ha), fmap_app, <- app_assoc. cbn [fmap list_fmap app].
  replace j with (length (f <$> take j l)) at 1
    by (rewrite length_fmap, length_take; lia).
  apply alter_middle.
Qed.

(** On a chain whose joints follow each other, [annotateChain] annotates
    every joint. *)
Lemma annotateChain_linear (options : JointOptions.t) (endLink : option JointRef)
    (store : Store) (maxTest : nat) :
  linear endLink store ->
  (endLink = None \/ endLink = Some 0%nat) ->
  (0 < length store <= maxTest + 5)%nat ->
  annotateChain (Some 0%nat) options maxTest store = annotateJointMode options <$> store.
Proof.
  intros Hlin Hend Hlen. unfold annotateChain, visitJointsOnChain.
  set (f := annotateJointMode options).
  destruct (visitLoop_linear (fun store : Store => store)
              (fun joint store => (true, alter f joint store))
              0 (length store) endLink
              (fun j st => st = (f <$> take j store) ++ drop j store)
              Hend ltac:(lia)) with (count := length store) (k := 0%nat)
              (remaining := (maxTest + 5)%nat) (st := store)
    as (st' & Hvisit & Hst').
  - intros j st Hj ->. eexists. split; [reflexivity|].
    cbv beta. unfold Store, JointRef in *.
    rewrite alter_progress by exact Hj. split; [reflexivity|].
    destruct (lookup_lt_is_Some_2 store j Hj) as [J HJ].
    unfold field, deref, Store, JointRef.
    rewrite lookup_app_l by (rewrite length_fmap, length_take; lia).
    rewrite list_lookup_fmap, lookup_take_lt by lia. rewrite HJ. cbn.
    unfold f. rewrite annotateJointMode_nextJoint. exact (Hlin j J HJ).
  - reflexivity.
  - lia.
  - rewrite take_0, drop_0. reflexivity.
  - unfold JointRef in *. rewrite Hvisit. cbn [snd]. rewrite Hst'.
    rewrite firstn_all, drop_all, app_nil_r. reflexivity.
Qed.

Lemma openChain_length (points : list Point3d) (d : Q) (k : nat) :
  length (openChain points d k) = S k.
Proof. unfold openChain. rewrite length_app, length_map, length_seq. cbn. lia. Qed.

Lemma openChain_lookup (points : list Point3d) (d : Q) (k j : nat) :
  openChain points d k !! j
  = if (j <? k)%nat then Some (linkedJoint points d j)
    else if (j =? k)%nat then Some (trailingJoint points d k) else None.
Proof.
  unfold openChain, Store, JointRef.
  destruct (Nat.ltb_spec j k) as [Hlt|Hge].
  - rewrite lookup_app_l by (rewrite length_map, length_seq; exact Hlt).
    change (map (linkedJoint points d) (seq 0 k)) with (linkedJoint points d <$> seq 0 k).
    rewrite list_lookup_fmap, lookup_seq_lt by exact Hlt. reflexivity.
  - rewrite lookup_app_r by (rewrite length_map, length_seq; exact Hge).
    rewrite length_map, length_seq.
    destruct (Nat.eqb_spec j k) as [->|Hne].
    + rewrite Nat.sub_diag. reflexivity.
    + destruct (j - k)%nat as [|r] eqn:Hr; [lia|]. reflexivity.
Qed.

Lemma openChain_linear (points : list Point3d) (d : Q) (k : nat) :
  linear None (openChain points d k).
Proof.
  intros j J HJ. rewrite openChain_length. rewrite openChain_lookup in HJ.
  destruct (Nat.ltb_spec j k) as [Hlt|Hge].
  - injection HJ as <-. cbn. destruct (Nat.eqb_spec j k); [lia|reflexivity].
  - destruct (Nat.eqb_spec j k) as [->|Hne]; [|discriminate].
    injection HJ as <-. cbn. rewrite Nat.eqb_refl. reflexivity.
Qed.

Lemma alter_cons_0 {A} (f : A -> A) (a : A) (l : list A) :
  alter f 0%nat (a :: l) = f a :: l.
Proof. reflexivity. Qed.

Lemma alter_cons_S {A} (f : A -> A) (n : nat) (a : A) (l : list A) :
  alter f (S n) (a :: l) = a :: alter f n l.
Proof. reflexivity. Qed.

Lemma lookup_cons_0 {A} (a : A) (l : list A) : (a :: l) !! 0%nat = Some a.
Proof. reflexivity. Qed.

Lemma lookup_cons_S {A} (n : nat) (a : A) (l : list A) : (a :: l) !! S n = l !! n.
Proof. reflexivity. Qed.

(** Linking the last joint to the first one. *)
Lemma link_close (A0 : Joint) (mid : Store) (L : Joint) :
  curve0 A0 = None ->
  link (S (length mid)) (Some 0%nat) (A0 :: mid ++ [L])
  = set_curve0 (curve1 L) (set_previousJoint (Some (S (length mid))) A0)
    :: mid ++ [set_nextJoint (Some 0%nat) L].
Proof.
  intros Hc. unfold link, deref. cbv zeta. unfold Store, JointRef in *.
  rewrite alter_cons_S, alter_middle, alter_cons_0, lookup_cons_S, lookup_middle,
    lookup_cons_0.
  cbn. rewrite Hc.
  destruct (curve1 L) as [c|]; [reflexivity|].
  destruct A0. cbn in Hc. subst. reflexivity.
Qed.

(** The chain of a closed polyline. *)
Lemma buildChain_closed (points : list Point3d) (options : JointOptions.t) (k : nat) :
  length points = S (S (S k)) ->
  buildChain points true options
  = Ok (closedChain points (JointOptions.leftOffsetDistance options) k, 0%nat).
Proof.
  intros Hlen. unfold buildChain.
  rewrite fragment_defined by lia. cbn [mbind Result_bind].
  unfold alloc. cbn [app length].
  rewrite Hlen. replace (S (S (S k)) - 2)%nat with (S k) by lia.
  set (d := JointOptions.leftOffsetDistance options).
  pose proof (linkFragments_shape points d (S k) 0) as Hl.
  unfold partialChain at 1 in Hl. cbn [seq map app] in Hl.
  change (lastJoint points d 0)
    with (new_Joint None (fragment points d 0) (points !! 0%nat)) in Hl.
  rewrite Hl by lia. cbn [mbind Result_bind Nat.add].
  f_equal. f_equal.
  unfold partialChain, closedChain. cbn [seq map app].
  pose proof (link_close (linkedJoint points d 0) (map (linkedJoint points d) (seq 1 k))
                (lastJoint points d (S k)) eq_refl) as Hlink.
  rewrite length_map, length_seq in Hlink. exact Hlink.
Qed.

Lemma closedChain_length (points : list Point3d) (d : Q) (k : nat) :
  length (closedChain points d k) = S (S k).
Proof.
  unfold closedChain. cbn [length]. rewrite length_app, length_map, length_seq. cbn. lia.
Qed.

Lemma closedChain_lookup (points : list Point3d) (d : Q) (k j : nat) :
  closedChain points d k !! j
  = match j with
    | O => Some (set_curve0 (fragment points d (S k))
                   (set_previousJoint (Some (S k)) (linkedJoint points d 0)))
    | S i =>
        if (i <? k)%nat then Some (linkedJoint points d (S i))
        else if (i =? k)%nat then Some (set_nextJoint (Some 0%nat) (lastJoint points d (S k)))
        else None
    end.
Proof.
  unfold closedChain, Store, JointRef.
  destruct j as [|i]; [reflexivity|].
  rewrite lookup_cons_S.
  destruct (Nat.ltb_spec i k) as [Hlt|Hge].
  - rewrite lookup_app_l by (rewrite length_map, length_seq; exact Hlt).
    change (map (linkedJoint points d) (seq 1 k)) with (linkedJoint points d <$> seq 1 k).
    rewrite list_lookup_fmap, lookup_seq_lt by exact Hlt. reflexivity.
  - rewrite lookup_app_r by (rewrite length_map, length_seq; exact Hge).
    rewrite length_map, length_seq.
    destruct (Nat.eqb_spec i k) as [->|Hne].
    + rewrite Nat.sub_diag. reflexivity.
    + destruct (i - k)%nat as [|r] eqn:Hr; [lia|]. reflexivity.
Qed.

Lemma closedChain_linear (points : list Point3d) (d : Q) (k : nat) :
  linear (Some 0%nat) (closedChain points d k).
Proof.
  intros j J HJ. rewrite closedChain_length. rewrite closedChain_lookup in HJ.
  destruct j as [|i].
  - injection HJ as <-. reflexivity.
  - destruct (Nat.ltb_spec i k) as [Hlt|Hge].
    + injection HJ as <-. cbn.
      destruct (Nat.eqb_spec i k); [lia|reflexivity].
    + destruct (Nat.eqb_spec i k) as [->|Hne]; [|discriminate].
      injection HJ as <-. cbn. rewrite Nat.eqb_refl. reflexivity.
Qed.

(** A joint whose neighbours trim nothing is left alone. *)
Lemma removeAt_settled (options : JointOptions.t) (store : Store) (a start : JointRef)
    (numRemoved : Z) :
  settled store ->
  removeAt options a start numRemoved store = (store, start, a, numRemoved, false).
Proof.
  intros Hsettled. unfold removeAt.
  destruct (deref store a) as [jointA|] eqn:HA; [|reflexivity].
  destruct (nextJoint jointA) as [b|]; [|reflexivity].
  destruct (previousJoint jointA) as [before|]; [|reflexivity].
  destruct (deref store b) as [jointB|] eqn:HB; [|reflexivity].
  destruct (nextJoint jointB) as [c|]; [|reflexivity].
  destruct (fraction1 jointA) as [f0|] eqn:Hf0; [|reflexivity].
  destruct (fraction0 jointB) as [f1|] eqn:Hf1; [|reflexivity].
  destruct (Hsettled a jointA HA) as [H0 _]. destruct (Hsettled b jointB HB) as [_ H1].
  rewrite (H0 f0 Hf0), (H1 f1 Hf1).
  reflexivity.
Qed.

Lemma removeLoop_settled (options : JointOptions.t) (store : Store) (start : JointRef)
    (numRemoved : Z) (remaining : nat) :
  settled store ->
  forall jointA,
    removeLoop options remaining jointA start numRemoved store = (store, start, numRemoved).
Proof.
  intros Hsettled.
  induction remaining as [|remaining IH]; intros [a|]; cbn [removeLoop]; try reflexivity.
  rewrite removeAt_settled by exact Hsettled.
  destruct (refEqb (field nextJoint store (Some a)) start); [reflexivity|apply IH].
Qed.

(** On a chain without overlapping trims the first pass removes nothing,
    and no further pass is made. *)
Lemma removalPasses_settled (options : JointOptions.t) (store : Store) (joint0 : JointRef)
    (maxTest remaining : nat) :
  settled store ->
  removalPasses (S remaining) options maxTest joint0 store = (store, joint0, [0%Z]).
Proof.
  intros Hsettled. cbn [removalPasses]. unfold removeDegeneratePrimitives.
  rewrite removeLoop_settled by exact Hsettled. reflexivity.
Qed.

(** On a chain whose joints follow each other, the strokes are collected
    joint by joint. *)
Lemma collectStrokesFromChain_linear (store : Store) (endLink : option JointRef)
    (D : nat -> list Point3d) (maxTest : nat) :
  linear endLink store ->
  (endLink = None \/ endLink = Some 0%nat) ->
  (0 < length store <= maxTest + 5)%nat ->
  (length store <= 3 * maxTest)%nat ->
  (forall j J, store !! j = Some J -> collectStrokesOfJoint store J (D j) = D (S j)) ->
  collectStrokesFromChain store 0%nat (D 0%nat) maxTest = D (length store).
Proof.
  intros Hlin Hend Hlen Hmax Hstep. unfold collectStrokesFromChain, visitJointsOnChain.
  destruct (visitLoop_linear (fun st : Store * list Point3d * Z => fst (fst st))
              (fun j '(store, destination, numOut) =>
                 let destination :=
                   match deref store j with
                   | Some joint => collectStrokesOfJoint store joint destination
                   | None => destination
                   end in
                 ((numOut <? Z.of_nat maxTest)%Z, (store, destination, (numOut + 1)%Z)))
              0 (length store) endLink
              (fun j st => st = (store, D j, (-2 * Z.of_nat maxTest + Z.of_nat j)%Z))
              Hend ltac:(lia)) with (count := length store) (k := 0%nat)
              (remaining := (maxTest + 5)%nat)
              (st := (store, D 0%nat, (-2 * Z.of_nat maxTest)%Z))
    as (st' & Hvisit & Hst').
  - intros j st Hj ->.
    destruct (lookup_lt_is_Some_2 store j Hj) as [J HJ].
    exists (store, D (S j), (-2 * Z.of_nat maxTest + Z.of_nat (S j))%Z).
    cbv beta iota zeta. unfold deref, Store, JointRef in *. rewrite HJ, (Hstep j J HJ).
    split.
    { f_equal; [|f_equal; lia].
      apply Z.ltb_lt. lia. }
    split; [reflexivity|].
    cbn [fst]. unfold field, deref, Store, JointRef in *. rewrite HJ. exact (Hlin j J HJ).
  - reflexivity.
  - lia.
  - f_equal. lia.
  - unfold JointRef in *. rewrite Hvisit, Hst'. reflexivity.
Qed.

Lemma chainOut_S (A B : nat -> Point3d) (i : nat) : chainOut A B (S i) = chainOut A B i ++ [A i; B i].
Proof.
  unfold chainOut. rewrite seq_S, flat_map_app. cbn [flat_map Nat.add].
  rewrite app_nil_r. reflexivity.
Qed.

Lemma last_chainOut (A B : nat -> Point3d) (i : nat) : last (chainOut A B (S i)) = Some (B i).
Proof.
  rewrite chainOut_S.
  change [A i; B i] with ([A i] ++ [B i]). rewrite app_assoc. apply last_snoc.
Qed.

Lemma head_chainOut (A B : nat -> Point3d) (i : nat) : head (chainOut A B (S i)) = Some (A 0%nat).
Proof. reflexivity. Qed.

Lemma length_chainOut (A B : nat -> Point3d) (i : nat) : length (chainOut A B i) = (2 * i)%nat.
Proof.
  induction i as [|i IH]; [reflexivity|].
  rewrite chainOut_S, length_app, IH. cbn [length]. lia.
Qed.

(** A chain all of whose fragments are kept whole: the end of each
    fragment is taken for the start of the next one. *)
Section WholeFragments.
Variable points : list Point3d.
Variable options : JointOptions.t.
Variable k : nat.
Variables A B : nat -> Point3d.

Let d : Q := JointOptions.leftOffsetDistance options.
Let seg (i : nat) : CurvePrimitive :=
  mkCurve (LineSegment3d (A i) (B i)) (points !! i) (points !! S i).

Hypothesis Hlen : length points = S (S k).
Hypothesis Hfrag : forall i, (i <= k)%nat -> fragment points d i = Some (seg i).
Hypothesis Hmeet : forall i, (i < k)%nat -> Point3d.isAlmostEqual (B i) (A (S i)) = true.

Lemma annotated_first :
  annotateJointMode options (linkedJoint points d 0)
  = mkJoint JointMode.Cap None None (Some (seg 0)) (Some 0) None (points !! 0%nat)
            (Some 1%nat) None.
Proof.
  unfold annotateJointMode, linkedJoint, lastJoint.
  cbn [curve0 curve1 set_nextJoint fragmentBefore].
  rewrite Hfrag by lia. reflexivity.
Qed.

Lemma annotated_linked (i : nat) :
  (i < k)%nat ->
  annotateJointMode options (linkedJoint points d (S i))
  = mkJoint JointMode.Trim (Some (seg i)) (Some 1) (Some (seg (S i))) (Some 0) None
            (points !! S i) (Some (S (S i))) (Some i).
Proof.
  intros Hi.
  unfold annotateJointMode, linkedJoint, lastJoint.
  cbn [curve0 curve1 set_nextJoint fragmentBefore].
  rewrite !Hfrag by lia.
  change (endPoint (seg i)) with (B i).
  change (startPoint (seg (S i))) with (A (S i)).
  rewrite Hmeet by exact Hi. reflexivity.
Qed.

Lemma annotated_trailing :
  annotateJointMode options (trailingJoint points d (S k))
  = mkJoint JointMode.Cap (Some (seg k)) (Some 1) None None None (points !! S k)
            None (Some k).
Proof.
  unfold annotateJointMode, trailingJoint.
  cbn [curve0 curve1 fragmentBefore].
  rewrite Hfrag by lia. reflexivity.
Qed.

Lemma annotated_first_closed (k' : nat) :
  k = S k' ->
  Point3d.isAlmostEqual (B k) (A 0%nat) = true ->
  annotateJointMode options
    (set_curve0 (fragment points d (S k'))
       (set_previousJoint (Some (S k')) (linkedJoint points d 0)))
  = mkJoint JointMode.Trim (Some (seg k)) (Some 1) (Some (seg 0)) (Some 0) None
            (points !! 0%nat) (Some 1%nat) (Some k).
Proof.
  intros -> Hclose.
  unfold annotateJointMode, linkedJoint, lastJoint.
  cbn [curve0 curve1 set_nextJoint set_previousJoint set_curve0 fragmentBefore].
  rewrite !Hfrag by lia.
  change (endPoint (seg (S k'))) with (B (S k')).
  change (startPoint (seg 0)) with (A 0%nat).
  rewrite Hclose. reflexivity.
Qed.

Lemma annotated_last_closed (k' : nat) :
  k = S k' ->
  annotateJointMode options (set_nextJoint (Some 0%nat) (lastJoint points d (S k')))
  = mkJoint JointMode.Trim (Some (seg k')) (Some 1) (Some (seg k)) (Some 0) None
            (points !! k) (Some 0%nat) (Some k').
Proof.
  intros ->.
  unfold annotateJointMode, lastJoint.
  cbn [curve0 curve1 set_nextJoint fragmentBefore].
  rewrite !Hfrag by lia.
  change (endPoint (seg k')) with (B k').
  change (startPoint (seg (S k'))) with (A (S k')).
  rewrite Hmeet by lia. reflexivity.
Qed.

(** What a joint of the chain adds to the strokes: the two ends of its
    fragment. *)
Lemma collect_edge (store : Store) (J : Joint) (j : nat) :
  (j <= k)%nat ->
  jointCurve J = None ->
  curve1 J = Some (seg j) ->
  fraction1 J = Some 0 ->
  field fraction0 store (nextJoint J) = Some 1 ->
  collectStrokesOfJoint store J (chainOut A B j) = chainOut A B (S j).
Proof.
  intros Hj Hjc Hc1 Hf1 Hnext.
  unfold collectStrokesOfJoint, nextJointFraction0.
  rewrite Hjc, Hc1, Hf1, Hnext.
  change (Qeq_bool 0 0 && Qeq_bool 1 1) with true. cbv iota.
  cbn [addStrokes].
  change (startPoint (clone (seg j))) with (A j).
  unfold emitStrokes. cbn [geometry clone seg].
  rewrite chainOut_S.
  destruct j as [|i].
  - reflexivity.
  - unfold addPoint.
    rewrite last_chainOut, (Hmeet i) by lia. reflexivity.
Qed.

Lemma collect_none (store : Store) (J : Joint) (destination : list Point3d) :
  jointCurve J = None ->
  curve1 J = None ->
  collectStrokesOfJoint store J destination = destination.
Proof.
  intros Hjc Hc1. unfold collectStrokesOfJoint. rewrite Hjc, Hc1. reflexivity.
Qed.

Let openStore : Store :=
  annotateJointMode options <$> openChain points d (S k).

Lemma openStore_lookup (j : nat) (J : Joint) :
  openStore !! j = Some J ->
  (j = 0%nat /\ J = annotateJointMode options (linkedJoint points d 0))
  \/ (exists i, j = S i /\ (i < k)%nat
                /\ J = annotateJointMode options (linkedJoint points d (S i)))
  \/ (j = S k /\ J = annotateJointMode options (trailingJoint points d (S k))).
Proof.
  unfold openStore, Store, JointRef. rewrite list_lookup_fmap, openChain_lookup.
  destruct (Nat.ltb_spec j (S k)) as [Hlt|Hge].
  - intros [= <-]. destruct j as [|i]; [left; split; reflexivity|].
    right; left. exists i. split; [reflexivity|]. split; [lia|reflexivity].
  - destruct (Nat.eqb_spec j (S k)) as [->|Hne]; [|discriminate].
    intros [= <-]. right; right. split; reflexivity.
Qed.

Lemma openStore_fraction0 (j : nat) :
  (j <= k)%nat -> field fraction0 openStore (Some (S j)) = Some 1.
Proof.
  intros Hj. unfold field, deref, openStore, Store, JointRef.
  rewrite list_lookup_fmap, openChain_lookup.
  destruct (Nat.ltb_spec (S j) (S k)) as [Hlt|Hge].
  - cbn [fmap option_fmap option_map]. rewrite annotated_linked by lia. reflexivity.
  - replace j with k by lia. rewrite Nat.eqb_refl.
    cbn [fmap option_fmap option_map]. rewrite annotated_trailing. reflexivity.
Qed.

Lemma openStore_settled : settled openStore.
Proof.
  intros j J HJ.
  destruct (openStore_lookup j J HJ) as [[_ ->]|[(i & _ & Hi & ->)|[_ ->]]].
  - rewrite annotated_first. cbn. split; intros f [=]; congruence.
  - rewrite annotated_linked by exact Hi. cbn. split; intros f [=]; congruence.
  - rewrite annotated_trailing. cbn. split; intros f [=]; congruence.
Qed.

(** The strokes of the chain of an open polyline. *)
Lemma emitted_open (wrap : bool) :
  effectiveWrap points wrap = Ok false ->
  emittedChain points wrap options = Ok (chainOut A B (S k)).
Proof.
  intros Hwrap. unfold emittedChain, finishedChain.
  rewrite Hwrap. cbn [mbind Result_bind].
  rewrite (buildChain_open points options k Hlen). cbn [mbind Result_bind].
  fold d. rewrite Hlen.
  rewrite (annotateChain_linear options None);
    [|apply openChain_linear|left; reflexivity|rewrite openChain_length; lia].
  fold openStore.
  rewrite removalPasses_settled by exact openStore_settled.
  f_equal.
  pose (D := fun j : nat => chainOut A B (Nat.min j (S k))).
  change (@nil Point3d) with (D 0%nat).
  replace (chainOut A B (S k)) with (D (length openStore)).
  2:{ unfold D, openStore. rewrite length_fmap, openChain_length.
      replace (Nat.min (S (S k)) (S k)) with (S k) by lia. reflexivity. }
  assert (Hlength : length openStore = S (S k)).
  { unfold openStore. rewrite length_fmap. apply openChain_length. }
  apply (collectStrokesFromChain_linear openStore None D).
  - apply linear_fmap; [apply annotateJointMode_nextJoint|apply openChain_linear].
  - left; reflexivity.
  - lia.
  - lia.
  - intros j J HJ. unfold D.
    destruct (openStore_lookup j J HJ) as [[-> ->]|[(i & -> & Hi & ->)|[-> ->]]].
    + apply (collect_edge openStore _ 0%nat); [lia|..].
      * rewrite annotated_first; reflexivity.
      * rewrite annotated_first; reflexivity.
      * rewrite annotated_first; reflexivity.
      * rewrite annotated_first. cbn [nextJoint]. apply openStore_fraction0. lia.
    + replace (Nat.min (S i) (S k)) with (S i) by lia.
      replace (Nat.min (S (S i)) (S k)) with (S (S i)) by lia.
      apply (collect_edge openStore _ (S i)); [lia|..].
      * rewrite annotated_linked by exact Hi; reflexivity.
      * rewrite annotated_linked by exact Hi; reflexivity.
      * rewrite annotated_linked by exact Hi; reflexivity.
      * rewrite annotated_linked by exact Hi. cbn [nextJoint].
        apply openStore_fraction0. lia.
    + replace (Nat.min (S k) (S k)) with (S k) by lia.
      replace (Nat.min (S (S k)) (S k)) with (S k) by lia.
      apply collect_none; rewrite annotated_trailing; reflexivity.
Qed.

Section Closed.
Variable k' : nat.
Hypothesis Hk : k = S k'.
Hypothesis Hclose : Point3d.isAlmostEqual (B k) (A 0%nat) = true.

Let closedStore : Store :=
  annotateJointMode options <$> closedChain points d k'.

Lemma closedStore_lookup (j : nat) (J : Joint) :
  closedStore !! j = Some J ->
  (j <= k)%nat
  /\ jointCurve J = None /\ curve1 J = Some (seg j)
  /\ fraction1 J = Some 0 /\ fraction0 J = Some 1
  /\ nextJoint J = Some (if (j =? k)%nat then 0%nat else S j).
Proof.
  unfold closedStore, Store, JointRef. rewrite list_lookup_fmap, closedChain_lookup.
  destruct j as [|i].
  - intros [= <-]. rewrite (annotated_first_closed k' Hk Hclose).
    rewrite Hk. repeat split; [lia|..]; reflexivity.
  - destruct (Nat.ltb_spec i k') as [Hlt|Hge].
    + intros [= <-]. rewrite annotated_linked by lia.
      destruct (Nat.eqb_spec (S i) k) as [Heq|Hne]; [lia|].
      repeat split; [lia|..]; reflexivity.
    + destruct (Nat.eqb_spec i k') as [->|Hne]; [|discriminate].
      intros [= <-]. rewrite (annotated_last_closed k' Hk).
      rewrite <- Hk, Nat.eqb_refl. repeat split; [lia|..]; reflexivity.
Qed.

Lemma closedStore_length : length closedStore = S k.
Proof. unfold closedStore. rewrite length_fmap, closedChain_length, Hk. reflexivity. Qed.

Lemma closedStore_fraction0 (j : nat) :
  (j <= k)%nat -> field fraction0 closedStore (Some j) = Some 1.
Proof.
  intros Hj. unfold field, deref.
  destruct (lookup_lt_is_Some_2 closedStore j) as [J HJ];
    [rewrite closedStore_length; lia|].
  unfold Store, JointRef in *. rewrite HJ.
  apply (closedStore_lookup j J HJ).
Qed.

Lemma closedStore_settled : settled closedStore.
Proof.
  intros j J HJ.
  destruct (closedStore_lookup j J HJ) as (_ & _ & _ & -> & -> & _).
  split; intros f [=]; congruence.
Qed.

(** The strokes of the chain of a closed polyline. *)
Lemma emitted_closed (wrap : bool) :
  effectiveWrap points wrap = Ok true ->
  emittedChain points wrap options = Ok (chainOut A B (S k)).
Proof.
  intros Hwrap. unfold emittedChain, finishedChain.
  rewrite Hwrap. cbn [mbind Result_bind].
  rewrite (buildChain_closed points options k') by (rewrite Hlen, Hk; reflexivity).
  cbn [mbind Result_bind].
  fold d. rewrite Hlen.
  rewrite (annotateChain_linear options (Some 0%nat));
    [|apply closedChain_linear|right; reflexivity|rewrite closedChain_length; lia].
  fold closedStore.
  rewrite removalPasses_settled by exact closedStore_settled.
  f_equal.
  change (@nil Point3d) with (chainOut A B 0%nat).
  rewrite <- closedStore_length.
  apply (collectStrokesFromChain_linear closedStore (Some 0%nat) (chainOut A B)).
  - apply linear_fmap; [apply annotateJointMode_nextJoint|apply closedChain_linear].
  - right; reflexivity.
  - rewrite closedStore_length. lia.
  - rewrite closedStore_length. lia.
  - intros j J HJ.
    destruct (closedStore_lookup j J HJ) as (Hj & Hjc & Hc1 & Hf1 & _ & Hnext).
    apply (collect_edge closedStore J j Hj Hjc Hc1 Hf1).
    rewrite Hnext. apply closedStore_fraction0.
    destruct (Nat.eqb_spec j k); lia.
Qed.

End Closed.

(** The strokes of the chain of two points that are taken for a closed
    polyline: its one joint has the one fragment on both sides. *)
Lemma emitted_pair (wrap : bool) :
  k = 0%nat ->
  Point3d.isAlmostEqual (B 0%nat) (A 0%nat) = true ->
  effectiveWrap points wrap = Ok true ->
  emittedChain points wrap options = Ok (chainOut A B 1).
Proof.
  intros Hk Hclose Hwrap. unfold emittedChain, finishedChain.
  rewrite Hwrap. cbn [mbind Result_bind].
  assert (Hbuild : buildChain points true options
                   = Ok ([mkJoint JointMode.Unknown (Some (seg 0)) None (Some (seg 0)) None None
                                  (points !! 0%nat) (Some 0%nat) (Some 0%nat)], 0%nat)).
  { unfold buildChain. rewrite fragment_defined by lia. cbn [mbind Result_bind].
    rewrite Hlen, Hk. cbn [Nat.sub linkFragments mbind Result_bind alloc app length].
    fold d. rewrite Hfrag by lia. reflexivity. }
  rewrite Hbuild. cbn [mbind Result_bind].
  set (J := mkJoint JointMode.Unknown (Some (seg 0)) None (Some (seg 0)) None None
                    (points !! 0%nat) (Some 0%nat) (Some 0%nat)).
  assert (Hlin : linear (Some 0%nat) [J]).
  { intros [|j] J' HJ; [|discriminate]. injection HJ as <-. reflexivity. }
  rewrite (annotateChain_linear options (Some 0%nat));
    [|exact Hlin|right; reflexivity|cbn [length]; lia].
  assert (HJ : annotateJointMode options J
               = mkJoint JointMode.Trim (Some (seg 0)) (Some 1) (Some (seg 0)) (Some 0) None
                         (points !! 0%nat) (Some 0%nat) (Some 0%nat)).
  { unfold annotateJointMode, J. cbn [curve0 curve1].
    change (endPoint (seg 0)) with (B 0%nat).
    change (startPoint (seg 0)) with (A 0%nat).
    rewrite Hclose. reflexivity. }
  cbn [fmap list_fmap]. rewrite HJ.
  set (J' := mkJoint JointMode.Trim (Some (seg 0)) (Some 1) (Some (seg 0)) (Some 0) None
                     (points !! 0%nat) (Some 0%nat) (Some 0%nat)).
  rewrite removalPasses_settled.
  2:{ intros [|j] J0 HJ0; [|discriminate]. injection HJ0 as <-.
      split; intros f [=]; congruence. }
  f_equal.
  change (@nil Point3d) with (chainOut A B 0%nat).
  change (chainOut A B 1) with (chainOut A B (length [J'])).
  apply (collectStrokesFromChain_linear [J'] (Some 0%nat) (chainOut A B)).
  - intros [|j] J0 HJ0; [|discriminate]. injection HJ0 as <-. reflexivity.
  - right; reflexivity.
  - rewrite Hlen. cbn [length]. lia.
  - rewrite Hlen. cbn [length]. lia.
  - intros [|j] J0 HJ0; [|discriminate]. injection HJ0 as <-.
    apply (collect_edge [J'] J' 0%nat); [lia|reflexivity..].
Qed.

End WholeFragments.

Lemma directedEdges_lookup (points : list Point3d) :
  directedEdges points = true ->
  forall i p q, points !! i = Some p -> points !! S i = Some q ->
    exists u, normalize (Vector3d.createStartEnd p q) = Some u.
Proof.
  induction points as [|a [|b rest] IH]; intros Hedges i p q Hp Hq.
  - discriminate.
  - destruct i; discriminate.
  - cbn [directedEdges] in Hedges.
    apply andb_prop in Hedges as [Hnorm Hrest].
    destruct i as [|i].
    + cbn in Hp, Hq. injection Hp as <-. injection Hq as <-.
      destruct (normalize (Vector3d.createStartEnd a b)) as [u|]; [eauto|discriminate].
    + apply (IH Hrest i p q); [exact Hp|exact Hq].
Qed.

Lemma edgeEnds_length (points : list Point3d) :
  length (edgeEnds points) = (2 * (length points - 1))%nat.
Proof.
  induction points as [|a [|b rest] IH]; [reflexivity|reflexivity|].
  cbn [edgeEnds length] in *. lia.
Qed.

Lemma edgeEnds_lookup (points : list Point3d) (i : nat) (p q : Point3d) :
  points !! i = Some p -> points !! S i = Some q ->
  edgeEnds points !! (2 * i)%nat = Some p /\ edgeEnds points !! S (2 * i) = Some q.
Proof.
  revert i. induction points as [|a [|b rest] IH]; intros i Hp Hq.
  - discriminate.
  - destruct i; discriminate.
  - destruct i as [|i].
    + cbn in Hp, Hq. injection Hp as <-. injection Hq as <-. split; reflexivity.
    + replace (2 * S i)%nat with (S (S (2 * i))) by lia.
      cbn [edgeEnds]. rewrite !lookup_cons_S.
      apply IH; [exact Hp|exact Hq].
Qed.

Lemma chainOut_lookup (A B : nat -> Point3d) (j i : nat) :
  (i < j)%nat ->
  chainOut A B j !! (2 * i)%nat = Some (A i) /\ chainOut A B j !! S (2 * i) = Some (B i).
Proof.
  induction j as [|j IH]; intros Hi; [lia|].
  rewrite chainOut_S.
  destruct (Nat.eq_dec i j) as [->|Hne].
  - rewrite !lookup_app_r by (rewrite length_chainOut; lia).
    rewrite length_chainOut.
    replace (2 * j - 2 * j)%nat with 0%nat by lia.
    replace (S (2 * j) - 2 * j)%nat with 1%nat by lia.
    split; reflexivity.
  - rewrite !lookup_app_l by (rewrite length_chainOut; lia).
    apply IH. lia.
Qed.

Section ZeroDistance.
Variable points : list Point3d.
Variable options : JointOptions.t.
Variable k : nat.

Let d : Q := JointOptions.leftOffsetDistance options.

Hypothesis Hlen : length points = S (S k).
Hypothesis Hd : d == 0.
Hypothesis Hedges : directedEdges points = true.

Lemma offsetStart_near (i : nat) (p : Point3d) :
  points !! i = Some p -> pointEq (offsetStart points d i) p.
Proof.
  intros Hp. unfold offsetStart.
  rewrite (nth_lookup_Some _ _ _ _ Hp). apply plusScaled_zero. exact Hd.
Qed.

Lemma offsetEnd_near (i : nat) (q : Point3d) :
  points !! S i = Some q -> pointEq (offsetEnd points d i) q.
Proof.
  intros Hq. unfold offsetEnd.
  rewrite (nth_lookup_Some _ _ _ _ Hq). apply plusScaled_zero. exact Hd.
Qed.

Lemma fragment_zero (i : nat) :
  (i <= k)%nat ->
  fragment points d i
  = Some (mkCurve (LineSegment3d (offsetStart points d i) (offsetEnd points d i))
                  (points !! i) (points !! S i)).
Proof.
  intros Hi.
  destruct (lookup_lt_is_Some_2 points i) as [p Hp]; [lia|].
  destruct (lookup_lt_is_Some_2 points (S i)) as [q Hq]; [lia|].
  destruct (directedEdges_lookup points Hedges i p q Hp Hq) as [u Hu].
  unfold fragment, offsetStart, offsetEnd, unitAlong.
  rewrite (nth_lookup_Some _ _ _ _ Hp), (nth_lookup_Some _ _ _ _ Hq), Hp, Hq.
  unfold createOffsetSegment. rewrite Hu. reflexivity.
Qed.

Lemma pointEq_refl (p : Point3d) : pointEq p p.
Proof. repeat split; reflexivity. Qed.

Lemma zero_meet (i : nat) :
  (i < k)%nat ->
  Point3d.isAlmostEqual (offsetEnd points d i) (offsetStart points d (S i)) = true.
Proof.
  intros Hi.
  destruct (lookup_lt_is_Some_2 points (S i)) as [q Hq]; [lia|].
  rewrite (isAlmostEqual_compat _ q _ q (offsetEnd_near i q Hq) (offsetStart_near (S i) q Hq)).
  apply isAlmostEqual_refl.
Qed.

(** The strokes of a polyline offset by nothing. *)
Lemma emitted_zero (wrap : bool) :
  emittedChain points wrap options
  = Ok (chainOut (offsetStart points d) (offsetEnd points d) (S k)).
Proof.
  destruct (effectiveWrap_defined points wrap) as [[|] Hwrap]; [lia| |].
  - assert (Hclose : exists p q, points !! 0%nat = Some p /\ last points = Some q
                                /\ Point3d.isAlmostEqual p q = true).
    { unfold effectiveWrap in Hwrap. destruct wrap; [|discriminate].
      destruct (lookup_lt_is_Some_2 points 0) as [p Hp]; [lia|].
      destruct (last_is_Some_nonempty points) as [q Hq]; [lia|].
      rewrite Hp, Hq in Hwrap. injection Hwrap as Hclose. eauto. }
    destruct Hclose as (p & q & Hp & Hq & Hclose).
    rewrite last_lookup, Hlen in Hq. cbn [pred] in Hq.
    assert (Hends : Point3d.isAlmostEqual (offsetEnd points d k) (offsetStart points d 0)
                    = true).
    { rewrite isAlmostEqual_sym.
      rewrite (isAlmostEqual_compat _ p _ q); [exact Hclose|apply offsetStart_near; exact Hp|].
      apply offsetEnd_near. exact Hq. }
    destruct (Nat.eq_dec k 0%nat) as [Hk|Hk].
    + rewrite Hk.
      apply (emitted_pair points options k); try (intros i Hi); try exact Hwrap.
      * exact Hlen.
      * apply fragment_zero. exact Hi.
      * apply zero_meet. exact Hi.
      * exact Hk.
      * rewrite Hk in Hends. exact Hends.
    + apply (emitted_closed points options k) with (k' := pred k);
        try (intros i Hi); try exact Hwrap.
      * exact Hlen.
      * apply fragment_zero. exact Hi.
      * apply zero_meet. exact Hi.
      * lia.
      * exact Hends.
  - apply (emitted_open points options k); try (intros i Hi); try exact Hwrap.
    + exact Hlen.
    + apply fragment_zero. exact Hi.
    + apply zero_meet. exact Hi.
Qed.

(** Those strokes are the two ends of every edge. *)
Lemma chainOut_near :
  Forall2 pointEq (chainOut (offsetStart points d) (offsetEnd points d) (S k))
          (edgeEnds points).
Proof.
  apply Forall2_same_length_lookup. split.
  - rewrite length_chainOut, edgeEnds_length, Hlen. lia.
  - intros i a p Ha Hp.
    assert (Hi : (i < 2 * S k)%nat).
    { apply lookup_lt_Some in Ha. rewrite length_chainOut in Ha. exact Ha. }
    assert (Hedge : (i / 2 < S k)%nat) by (apply Nat.Div0.div_lt_upper_bound; lia).
    destruct (lookup_lt_is_Some_2 points (i / 2)) as [p0 Hp0]; [lia|].
    destruct (lookup_lt_is_Some_2 points (S (i / 2))) as [q0 Hq0]; [lia|].
    destruct (chainOut_lookup (offsetStart points d) (offsetEnd points d) (S k) (i / 2) Hedge)
      as [HA HB].
    destruct (edgeEnds_lookup points (i / 2) p0 q0 Hp0 Hq0) as [HP HQ].
    pose proof (Nat.div_mod_eq i 2) as Hdiv.
    assert (Hmod : (i mod 2 < 2)%nat) by (apply Nat.mod_upper_bound; lia).
    destruct (i mod 2)%nat as [|[|r]] eqn:Hr; [| |lia].
    + replace i with (2 * (i / 2))%nat in Ha, Hp by lia.
      rewrite HA in Ha. rewrite HP in Hp. injection Ha as <-. injection Hp as <-.
      apply offsetStart_near. exact Hp0.
    + replace i with (S (2 * (i / 2)))%nat in Ha, Hp by lia.
      rewrite HB in Ha. rewrite HQ in Hp. injection Ha as <-. injection Hp as <-.
      apply offsetEnd_near. exact Hq0.
Qed.

End ZeroDistance.

End WithKernel.
End ChainProperties.

(** ** The passes of degeneracy removal *)

Module PassProperties.
Import Curves JointOps Chain PolygonWireOffsetContext ChainShapes.

Section WithKernel.
Context {kernel : GeometryKernel}.

(** A turn of the loop either counts nothing and goes on, or counts one
    joint and returns. *)
Lemma removeAt_count (options : JointOptions.t) (a start : JointRef) (store : Store) :
  let '(_, _, _, numRemoved, returned) := removeAt options a start 0%Z store in
  (numRemoved = 0%Z /\ returned = false) \/ (numRemoved = 1%Z /\ returned = true).
Proof.
  unfold removeAt.
  repeat case_match; simplify_eq; try (left; split; reflexivity);
    right; split; reflexivity.
Qed.

(** A call of [removeDegeneratePrimitives] counts at most [maxRemove]
    joints. *)
Lemma removeLoop_count (options : JointOptions.t) (remaining : nat) :
  forall jointA start store,
    let '(_, _, numRemoved) := removeLoop options remaining jointA start 0%Z store in
    numRemoved = 0%Z \/ numRemoved = 1%Z.
Proof.
  induction remaining as [|remaining IH]; intros [a|] start store; cbn [removeLoop];
    try (left; reflexivity).
  pose proof (removeAt_count options a start store) as Hcount.
  destruct (removeAt options a start 0%Z store) as [[[[store' start'] a'] numRemoved] returned].
  destruct Hcount as [[-> ->]|[-> ->]].
  - destruct (refEqb (field nextJoint store' (Some a')) start'); [left; reflexivity|].
    apply IH.
  - right; reflexivity.
Qed.

(** The pass loop makes at most [remaining] passes, each but the last
    counts one joint, and a pass that counts none is the last. *)
Lemma removalPasses_log (options : JointOptions.t) (maxTest : nat) (remaining : nat) :
  forall joint0 store,
    let '(_, _, log) := removalPasses remaining options maxTest joint0 store in
    (length log <= remaining)%nat
    /\ exists ones, Forall (fun c => c = 1%Z) ones
                    /\ (log = ones ++ [0%Z] \/ (log = ones /\ length ones = remaining)).
Proof.
  induction remaining as [|remaining IH]; intros joint0 store; cbn [removalPasses].
  - split; [reflexivity|]. exists []. split; [constructor|right; split; reflexivity].
  - unfold removeDegeneratePrimitives.
    pose proof (removeLoop_count options maxTest (Some joint0) joint0 store) as Hcount.
    destruct (removeLoop options maxTest (Some joint0) joint0 0%Z store)
      as [[store' newStart] numJointRemoved].
    destruct Hcount as [-> | ->]; cbn [Z.eqb].
    + split; [cbn; lia|]. exists []. split; [constructor|left; reflexivity].
    + specialize (IH newStart store').
      destruct (removalPasses remaining options maxTest newStart store')
        as [[store'' joint0'] log].
      destruct IH as (Hlength & ones & Hones & Hlog).
      split; [cbn; lia|].
      exists (1%Z :: ones). split; [constructor; [reflexivity|exact Hones]|].
      destruct Hlog as [-> | [-> Hfull]]; [left; reflexivity|].
      right. split; [reflexivity|cbn; lia].
Qed.

End WithKernel.
End PassProperties.

(** ** [constructPolygonWireXYOffset] *)

Module OffsetProperties.
Import Curves JointOps Chain PolygonWireOffsetContext ChainShapes ChainProperties.

Section WithKernel.
Context {kernel : GeometryKernel}.

(** C6.  Once the finished chain has been walked, a call that emitted fewer
    than two points returns [undefined]; one that emitted at least two
    returns a [Loop] when the first and the last emitted point are almost
    equal and a [Path] otherwise.  For a polyline of at least two points the
    walk is reached: the chain is emitted and the call returns. *)
Theorem constructPolygonWireXYOffset_result
    (points : list Point3d) (wrap : bool) (arg : Q + JointOptions.t) :
  ((2 <= length points)%nat ->
   exists chain, emittedChain points wrap (JointOptions.create arg) = Ok chain)
  /\ forall chain,
       emittedChain points wrap (JointOptions.create arg) = Ok chain ->
       ((length chain < 2)%nat ->
        constructPolygonWireXYOffset points wrap arg = Ok None)
       /\ forall front back,
            (2 <= length chain)%nat ->
            head chain = Some front ->
            last chain = Some back ->
            constructPolygonWireXYOffset points wrap arg
            = Ok (Some (if Point3d.isAlmostEqual front back
                        then Loop chain else Path chain)).
Proof.
  split; [apply emittedChain_defined|].
  intros chain Hchain.
  split.
  - intros Hshort. unfold constructPolygonWireXYOffset.
    rewrite Hchain. cbn [mbind Result_bind].
    destruct (Nat.ltb_spec 1 (length chain)) as [Hlt|Hge]; [lia|reflexivity].
  - intros front back. apply chain_result. exact Hchain.
Qed.

Section Fallback.
Variable points : list Point3d.
Variables first final : Point3d.
Variable arg : Q + JointOptions.t.
Hypothesis Hfirst : points !! 0%nat = Some first.
Hypothesis Hfinal : last points = Some final.
Hypothesis Hapart : Point3d.isAlmostEqual first final = false.

Let options : JointOptions.t := JointOptions.create arg.
Let d : Q := JointOptions.leftOffsetDistance options.
Let n : nat := length points.

Lemma fallback_length : exists k, length points = S (S k).
Proof using Hfirst Hfinal Hapart.
  destruct points as [|p [|q rest]] eqn:Hp.
  - discriminate.
  - cbn in Hfirst, Hfinal. injection Hfirst as <-. injection Hfinal as <-.
    rewrite isAlmostEqual_refl in Hapart. discriminate.
  - cbn [length]. eauto.
Qed.

(** C10 (amended).  With [wrap = true] and a first and a last point that are
    not almost equal, the call goes on as with [wrap = false] and does not
    fail: the chain is not closed (no joint is followed by the first one,
    which has no joint before it), and a trailing joint without a fragment
    after it and without a next joint is added at the last point.
    Annotation marks it [Cap] when the last edge has an offset fragment;
    when [createOffsetSegment] returns none for the last edge, the trailing
    joint has no fragment on either side and keeps the mode [Unknown]. *)
Theorem wrap_without_closure :
  effectiveWrap points true = Ok false
  /\ finishedChain points true options = finishedChain points false options
  /\ constructPolygonWireXYOffset points true arg
     = constructPolygonWireXYOffset points false arg
  /\ (exists result, constructPolygonWireXYOffset points true arg = Ok result)
  /\ exists store trailing,
       buildChain points false options = Ok (store, 0%nat)
       /\ length store = n
       /\ last store = Some trailing
       /\ createOffsetSegment (points !! (n - 2)%nat) (points !! (n - 1)%nat) d
          = Ok (curve0 trailing)
       /\ curve1 trailing = None
       /\ nextJoint trailing = None
       /\ swingPoint trailing = Some final
       /\ (forall j J, store !! j = Some J -> nextJoint J <> Some 0%nat)
       /\ field previousJoint store (Some 0%nat) = None
       /\ flexure <$> last (annotateChain (Some 0%nat) options n store)
          = Some (match curve0 trailing with
                  | Some _ => JointMode.Cap
                  | None => JointMode.Unknown
                  end).
Proof using Hfirst Hfinal Hapart.
  destruct fallback_length as [k Hlen].
  assert (Hwrap : effectiveWrap points true = Ok false).
  { unfold effectiveWrap. rewrite Hfirst, Hfinal, Hapart. reflexivity. }
  assert (Hfinished : finishedChain points true options = finishedChain points false options).
  { unfold finishedChain. rewrite Hwrap. reflexivity. }
  assert (Hsame : constructPolygonWireXYOffset points true arg
                  = constructPolygonWireXYOffset points false arg).
  { unfold constructPolygonWireXYOffset, emittedChain. fold options.
    rewrite Hfinished. reflexivity. }
  split; [exact Hwrap|]. split; [exact Hfinished|]. split; [exact Hsame|].
  split.
  { destruct (emittedChain_defined points true options) as [chain Hchain]; [lia|].
    unfold constructPolygonWireXYOffset. fold options. rewrite Hchain.
    cbn [mbind Result_bind].
    destruct (1 <? length chain)%nat; [|eauto].
    destruct (head chain); [|eauto]. destruct (last chain); [|eauto].
    destruct (Point3d.isAlmostEqual p p0); eauto. }
  exists (openChain points d (S k)), (trailingJoint points d (S k)).
  unfold n. rewrite Hlen.
  replace (S (S k) - 2)%nat with k by lia. replace (S (S k) - 1)%nat with (S k) by lia.
  split; [apply buildChain_open; exact Hlen|].
  split; [apply openChain_length|].
  split; [unfold openChain; apply last_snoc|].
  split; [apply fragment_defined; lia|].
  split; [reflexivity|]. split; [reflexivity|].
  split.
  { cbn [trailingJoint swingPoint]. rewrite <- Hfinal, last_lookup, Hlen. reflexivity. }
  split.
  { intros j J HJ. rewrite openChain_lookup in HJ.
    destruct (j <? S k)%nat.
    - injection HJ as <-. discriminate.
    - destruct (j =? S k)%nat; [|discriminate]. injection HJ as <-. discriminate. }
  split.
  { unfold field, deref. rewrite openChain_lookup. reflexivity. }
  rewrite (annotateChain_linear options None) ;
    [|apply openChain_linear|left; reflexivity|rewrite openChain_length; lia].
  unfold openChain. rewrite fmap_app, last_app. cbn [fmap list_fmap last option_fmap option_map].
  unfold annotateJointMode.
  change (curve0 (trailingJoint points d (S k))) with (fragment points d k).
  change (curve1 (trailingJoint points d (S k))) with (@None CurvePrimitive).
  destruct (fragment points d k); reflexivity.
Qed.

End Fallback.

(** C7 (amended).  A polyline of at least two points, every edge of which
    has a direction, offset by a distance equal to 0, comes back as the two
    ends of every edge in order: the first point, every point between the
    first and the last one twice, and the last point, each with the
    coordinates of the input point; these are twice as many points as the
    polyline has edges.  It comes back as a [Loop] when its first and last
    point are almost equal and as a [Path] otherwise.  This holds with and
    without [wrap]. *)
Theorem zero_offset_edges
    (points : list Point3d) (wrap : bool) (arg : Q + JointOptions.t) :
  JointOptions.leftOffsetDistance (JointOptions.create arg) == 0 ->
  (2 <= length points)%nat ->
  directedEdges points = true ->
  exists chain first final,
    points !! 0%nat = Some first
    /\ last points = Some final
    /\ constructPolygonWireXYOffset points wrap arg
       = Ok (Some (if Point3d.isAlmostEqual first final then Loop chain else Path chain))
    /\ Forall2 pointEq chain (edgeEnds points)
    /\ length chain = (2 * (length points - 1))%nat.
Proof.
  intros Hd Hlen Hedges.
  destruct (length points) as [|[|k]] eqn:Hk; [lia|lia|].
  set (options := JointOptions.create arg) in *.
  set (d := JointOptions.leftOffsetDistance options) in *.
  pose proof (emitted_zero points options k Hk Hd Hedges wrap) as Hemitted.
  pose proof (chainOut_near points options k Hk Hd) as Hnear.
  fold d in Hemitted, Hnear.
  set (chain := chainOut (offsetStart points d) (offsetEnd points d) (S k)) in *.
  destruct (lookup_lt_is_Some_2 points 0) as [first Hfirst]; [lia|].
  destruct (last_is_Some_nonempty points) as [final Hfinal]; [lia|].
  exists chain, first, final.
  split; [exact Hfirst|]. split; [exact Hfinal|].
  split; [|split; [exact Hnear|unfold chain; rewrite length_chainOut; lia]].
  assert (Hfront : head chain = Some (offsetStart points d 0)) by reflexivity.
  assert (Hback : last chain = Some (offsetEnd points d k)) by apply last_chainOut.
  assert (Hlong : (2 <= length chain)%nat).
  { unfold chain. rewrite length_chainOut. lia. }
  rewrite (chain_result points wrap arg chain _ _ Hemitted Hlong Hfront Hback).
  rewrite (isAlmostEqual_compat _ first _ final); [reflexivity| |].
  - apply offsetStart_near; [exact Hd|exact Hfirst].
  - apply offsetEnd_near; [exact Hd|]. rewrite <- Hfinal, last_lookup, Hk. reflexivity.
Qed.

End WithKernel.

Import PlanarKernel GeometrySamples.

Lemma constructPolygonWireXYOffset_result_witness :
  exists chain,
    constructPolygonWireXYOffset cornerPolyline false (inl 1) = Ok (Some (Path chain))
    /\ map reduced chain = [mkXYZ 0 1 0; mkXYZ 3 1 0; mkXYZ 3 1 0; mkXYZ 3 4 0].
Proof.
  assert (exists chain front back,
            emittedChain cornerPolyline false (JointOptions.create (inl 1)) = Ok chain
            /\ head chain = Some front /\ last chain = Some back
            /\ Point3d.isAlmostEqual front back = false
            /\ (2 <= length chain)%nat
            /\ map reduced chain = [mkXYZ 0 1 0; mkXYZ 3 1 0; mkXYZ 3 1 0; mkXYZ 3 4 0])
    as (chain & front & back & Hchain & Hfront & Hback & Hfar & Hlong & Hpoints).
  { vm_compute. do 3 eexists. repeat split; try reflexivity. lia. }
  exists chain. split; [|exact Hpoints].
  destruct (constructPolygonWireXYOffset_result cornerPolyline false (inl 1)) as [_ Hresult].
  destruct (Hresult chain Hchain) as [_ Hlong'].
  rewrite (Hlong' front back Hlong Hfront Hback), Hfar.
  reflexivity.
Defined.

(** With [wrap = true], the polyline (0,0), (1,0), (1,0) is handled as an
    open one, and the joint at its end, the third of the chain, has no
    fragment and no mode. *)
Lemma wrap_without_closure_counterexample :
  effectiveWrap repeatedEndPolyline true = Ok false
  /\ exists store log trailing,
       finishedChain repeatedEndPolyline true (JointOptions.create (inl 1))
       = Ok (store, 0%nat, log)
       /\ jointsOnChain store 0%nat 3 = [0; 1; 2]%nat
       /\ store !! 2%nat = Some trailing
       /\ nextJoint trailing = None
       /\ curve0 trailing = None
       /\ curve1 trailing = None
       /\ flexure trailing = JointMode.Unknown.
Proof.
  split; [vm_compute; reflexivity|].
  vm_compute. do 3 eexists. repeat split; reflexivity.
Qed.

Lemma wrap_without_closure_witness :
  effectiveWrap cornerPolyline true = Ok false
  /\ constructPolygonWireXYOffset cornerPolyline true (inl 1)
     = constructPolygonWireXYOffset cornerPolyline false (inl 1).
Proof.
  destruct (wrap_without_closure cornerPolyline (mkXYZ 0 0 0) (mkXYZ 4 4 0) (inl 1))
    as (Hwrap & _ & Hsame & _).
  - reflexivity.
  - reflexivity.
  - vm_compute. reflexivity.
  - split; [exact Hwrap|exact Hsame].
Defined.

(** C4.  For the polyline (0,20), (0,0), (4,0), (4,1) offset by 3, the one
    call of [removeDegeneratePrimitives] takes the joints 1, 2 and 3, and
    with them two fragments, out of the chain and puts one new joint in
    their place, yet it reports that it removed no joint: the pass loop
    stops after this first pass. *)
Theorem removeDegeneratePrimitives_double_cut :
  exists store0 store1,
    buildChain doubleCutPolyline false (JointOptions.create (inl 3)) = Ok (store0, 0%nat)
    /\ jointsOnChain (annotateChain (Some 0%nat) (JointOptions.create (inl 3)) 4 store0) 0%nat 4
       = [0; 1; 2; 3]%nat
    /\ removeDegeneratePrimitives 0%nat (JointOptions.create (inl 3)) 4
         (annotateChain (Some 0%nat) (JointOptions.create (inl 3)) 4 store0)
       = (store1, 0%nat, 0%Z)
    /\ jointsOnChain store1 0%nat 4 = [0; 4]%nat
    /\ finishedChain doubleCutPolyline false (JointOptions.create (inl 3))
       = Ok (store1, 0%nat, [0%Z]).
Proof.
  do 2 eexists.
  split; [vm_compute; reflexivity|].
  split; [vm_compute; reflexivity|].
  split; [vm_compute; reflexivity|].
  split; vm_compute; reflexivity.
Qed.

(** Offset by 0, the three points (0,0), (4,0), (4,4) come back as four
    points, the corner (4,0) twice, and the polyline (0,0), (0,0) does not
    come back. *)
Lemma zero_offset_counterexample :
  (exists chain,
     constructPolygonWireXYOffset cornerPolyline false (inl 0) = Ok (Some (Path chain))
     /\ map reduced chain = [mkXYZ 0 0 0; mkXYZ 4 0 0; mkXYZ 4 0 0; mkXYZ 4 4 0]
     /\ length chain <> length cornerPolyline)
  /\ constructPolygonWireXYOffset pointTwice false (inl 0) = Ok None.
Proof.
  split; [|vm_compute; reflexivity].
  vm_compute. eexists. split; [reflexivity|]. split; [reflexivity|discriminate].
Qed.

Lemma zero_offset_edges_witness :
  exists chain,
    constructPolygonWireXYOffset cornerPolyline false (inl 0) = Ok (Some (Path chain))
    /\ Forall2 pointEq chain [mkXYZ 0 0 0; mkXYZ 4 0 0; mkXYZ 4 0 0; mkXYZ 4 4 0]
    /\ length chain = 4%nat.
Proof.
  destruct (zero_offset_edges cornerPolyline false (inl 0))
    as (chain & first & final & Hfirst & Hfinal & Hresult & Hnear & Hlength).
  - reflexivity.
  - vm_compute. lia.
  - vm_compute. reflexivity.
  - exists chain. split; [|split; [exact Hnear|exact Hlength]].
    injection Hfirst as <-. injection Hfinal as <-. exact Hresult.
Defined.

End OffsetProperties.

(** ** Joints *)

Module JointFacts.
Import Curves JointOps Chain.

Lemma clamp_lower (value lo hi : Q) : lo <= Geometry.clamp value lo hi.
Proof. unfold Geometry.clamp. apply Q.le_max_l. Qed.

Lemma clamp_upper (value lo hi : Q) : lo <= value -> Geometry.clamp value lo hi <= value.
Proof.
  intros H. unfold Geometry.clamp. apply Q.max_lub; [exact H|apply Q.le_min_r].
Qed.


Section WithKernel.
Context {kernel : GeometryKernel}.

(** X2.  [Joint.link] of two different joints makes the second the
    [nextJoint] of the first and the first the [previousJoint] of the
    second; the fragment between them is missing on both sides or on
    neither; where one side missed it, both now hold the same one; a curve
    that a joint had is kept; every other joint is as before. *)
Theorem link_joins (store : Store) (j0 j1 : JointRef) (J0 J1 : Joint) :
  j0 <> j1 ->
  store !! j0 = Some J0 ->
  store !! j1 = Some J1 ->
  exists J0' J1',
    link j0 (Some j1) store !! j0 = Some J0'
    /\ link j0 (Some j1) store !! j1 = Some J1'
    /\ nextJoint J0' = Some j1
    /\ previousJoint J1' = Some j0
    /\ (curve1 J0' = None <-> curve0 J1' = None)
    /\ (curve1 J0 = None \/ curve0 J1 = None -> curve1 J0' = curve0 J1')
    /\ (forall c, curve1 J0 = Some c -> curve1 J0' = Some c)
    /\ (forall c, curve0 J1 = Some c -> curve0 J1' = Some c)
    /\ (forall j, j <> j0 -> j <> j1 -> link j0 (Some j1) store !! j = store !! j).
Proof.
  intros Hne H0 H1. unfold link, deref. cbv zeta. unfold Store, JointRef in *.
  set (store' := alter (set_previousJoint (Some j0)) j1
                   (alter (set_nextJoint (Some j1)) j0 store)).
  assert (L0 : store' !! j0 = Some (set_nextJoint (Some j1) J0)).
  { unfold store'. rewrite list_lookup_alter_ne by congruence.
    rewrite list_lookup_alter_eq, H0. reflexivity. }
  assert (L1 : store' !! j1 = Some (set_previousJoint (Some j0) J1)).
  { unfold store'. rewrite list_lookup_alter_eq.
    rewrite list_lookup_alter_ne by congruence. rewrite H1. reflexivity. }
  assert (Lo : forall j, j <> j0 -> j <> j1 -> store' !! j = store !! j).
  { intros j Hj0 Hj1. unfold store'. now rewrite !list_lookup_alter_ne by congruence. }
  rewrite L0, L1.
  cbn [curve1 curve0 set_nextJoint set_previousJoint].
  destruct (curve1 J0) as [c1|] eqn:Hc1; destruct (curve0 J1) as [c0|] eqn:Hc0.
  all: rewrite ?list_lookup_alter_eq, ?(list_lookup_alter_ne _ _ j0 j1),
         ?(list_lookup_alter_ne _ _ j1 j0), ?L0, ?L1 by congruence.
  all: do 2 eexists; repeat split; try reflexivity.
  all: cbn; rewrite ?Hc0, ?Hc1.
  all: try discriminate; try reflexivity; try (intros; congruence).
  all: try (intros [H|H]; congruence).
  all: intros j Hj0 Hj1; rewrite ?list_lookup_alter_ne by congruence; now apply Lo.
Qed.

Lemma annotateExtension_frame (options : JointOptions.t) (J : Joint) :
  curve0 (annotateExtension options J) = curve0 J
  /\ curve1 (annotateExtension options J) = curve1 J
  /\ swingPoint (annotateExtension options J) = swingPoint J
  /\ nextJoint (annotateExtension options J) = nextJoint J
  /\ previousJoint (annotateExtension options J) = previousJoint J.
Proof.
  destruct J as [fl c0 f0 c1 f1 jc sp nx pv].
  unfold annotateExtension, fillGap. cbn [curve0 curve1].
  repeat case_match; repeat split; reflexivity.
Qed.

(** X3.  [annotateJointMode] leaves the two curves, the swing point and the
    links of a joint as they are: it writes the mode, the fractions and the
    joint curve only. *)
Theorem annotateJointMode_frame (options : JointOptions.t) (J : Joint) :
  curve0 (annotateJointMode options J) = curve0 J
  /\ curve1 (annotateJointMode options J) = curve1 J
  /\ swingPoint (annotateJointMode options J) = swingPoint J
  /\ nextJoint (annotateJointMode options J) = nextJoint J
  /\ previousJoint (annotateJointMode options J) = previousJoint J.
Proof.
  destruct J as [fl c0 f0 c1 f1 jc sp nx pv].
  unfold annotateJointMode. cbn [curve0 curve1].
  repeat case_match; try (repeat split; reflexivity);
    match goal with
    | |- context [annotateExtension ?o ?j] => exact (annotateExtension_frame o j)
    end.
Qed.

(** What [annotateExtension] makes of a joint between two curves depends on
    the joint through the two curves only. *)
Lemma annotateExtension_shape (options : JointOptions.t) (J : Joint)
    (c0 c1 : CurvePrimitive) :
  curve0 J = Some c0 ->
  curve1 J = Some c1 ->
  annotateExtension options J
  = mkJoint (flexure (annotateExtension options (new_Joint (Some c0) (Some c1) None)))
            (Some c0) (Some 1) (Some c1) (Some 0)
            (jointCurve (annotateExtension options (new_Joint (Some c0) (Some c1) None)))
            (swingPoint J) (nextJoint J) (previousJoint J).
Proof.
  destruct J as [fl c0' f0 c1' f1 jc sp nx pv]. cbn [curve0 curve1].
  intros -> ->.
  unfold annotateExtension, fillGap, new_Joint. cbn [curve0 curve1].
  repeat case_match; reflexivity.
Qed.

Ltac extension_shape options c0 c1 :=
  match goal with
  | |- context [annotateExtension options ?j] =>
      lazymatch j with
      | new_Joint _ _ _ => fail
      | _ => rewrite (annotateExtension_shape options j c0 c1 eq_refl eq_refl)
      end
  end.

Ltac joint_fields :=
  cbn [curve0 curve1 set_flexure set_fraction0 set_fraction1 set_jointCurve
       flexure fraction0 fraction1 jointCurve swingPoint nextJoint previousJoint].

(** X4.  Annotating a joint a second time changes nothing:
    [annotateJointMode] is idempotent. *)
Theorem annotateJointMode_idempotent (options : JointOptions.t) (J : Joint) :
  annotateJointMode options (annotateJointMode options J) = annotateJointMode options J.
Proof.
  destruct J as [fl c0 f0 c1 f1 jc sp nx pv].
  destruct c0 as [c0|], c1 as [c1|]; try reflexivity.
  unfold annotateJointMode at 2. joint_fields.
  destruct (Point3d.isAlmostEqual (endPoint c0) (startPoint c1)) eqn:Hmeet.
  { unfold annotateJointMode. joint_fields. rewrite Hmeet. reflexivity. }
  destruct (isLineSegment3d c0 && isLineSegment3d c1) eqn:Hlines.
  - cbv zeta.
    destruct (approachType _) as [approach|] eqn:Happroach;
      [destruct approach|];
      try (unfold annotateJointMode; joint_fields; rewrite Hmeet, Hlines; cbv zeta;
           rewrite Happroach; reflexivity).
    joint_fields.
    destruct (Qle_bool 1 _ && Qle_bool _ 0) eqn:Hextend.
    { extension_shape options c0 c1.
      set (R := annotateExtension options (new_Joint (Some c0) (Some c1) None)).
      joint_fields.
      unfold annotateJointMode. joint_fields. rewrite Hmeet, Hlines. cbv zeta.
      rewrite Happroach, Hextend.
      repeat extension_shape options c0 c1. reflexivity. }
    destruct (Qltb _ 1 && Qltb 0 _) eqn:Htrim.
    { unfold annotateJointMode. joint_fields. rewrite Hmeet, Hlines. cbv zeta.
      rewrite Happroach, Hextend, Htrim. reflexivity. }
    destruct (Qltb 1 _ && Qltb 1 _) eqn:Hgap.
    { unfold annotateJointMode. joint_fields. rewrite Hmeet, Hlines. cbv zeta.
      rewrite Happroach, Hextend, Htrim, Hgap. reflexivity. }
    unfold annotateJointMode. joint_fields. rewrite Hmeet, Hlines. cbv zeta.
    rewrite Happroach, Hextend, Htrim, Hgap. reflexivity.
  - cbv zeta.
    destruct (0 <=? selectIntersectionIndexByFraction 1 0 _)%Z eqn:Hindex.
    + destruct (nth_error _ _) as [found|] eqn:Hfound.
      * unfold annotateJointMode. joint_fields. rewrite Hmeet, Hlines. cbv zeta.
        rewrite Hindex, Hfound. reflexivity.
      * unfold annotateJointMode. joint_fields. rewrite Hmeet, Hlines. cbv zeta.
        rewrite Hindex, Hfound. reflexivity.
    + extension_shape options c0 c1.
      set (R := annotateExtension options (new_Joint (Some c0) (Some c1) None)).
      joint_fields.
      unfold annotateJointMode. joint_fields. rewrite Hmeet, Hlines. cbv zeta.
      rewrite Hindex.
      repeat extension_shape options c0 c1. reflexivity.
Qed.

Lemma annotateExtension_mode (options : JointOptions.t) (c0 c1 : CurvePrimitive) :
  let R := annotateExtension options (new_Joint (Some c0) (Some c1) None) in
  (flexure R = JointMode.Extend \/ flexure R = JointMode.Gap)
  /\ is_Some (jointCurve R).
Proof.
  unfold annotateExtension, fillGap, new_Joint. cbn [curve0 curve1]. cbv zeta.
  repeat case_match; cbn; split; eauto.
Qed.

(** X5.  What [annotateJointMode] leaves on a fresh joint, by mode: [Cap] has
    exactly one curve, the fraction on its side (1 before, 0 after) and no
    joint curve; [Extend] and [Gap] have both curves, the fractions 1 and 0
    and a joint curve; [Trim] has both curves, both fractions and no joint
    curve; [Unknown] has no joint curve; [JustGeometry] does not occur. *)
Theorem annotateJointMode_modes (options : JointOptions.t) (J : Joint) :
  flexure J = JointMode.Unknown ->
  fraction0 J = None ->
  fraction1 J = None ->
  jointCurve J = None ->
  let J' := annotateJointMode options J in
  match flexure J' with
  | JointMode.Unknown => jointCurve J' = None
  | JointMode.Cap =>
      jointCurve J' = None
      /\ ((curve0 J = None /\ is_Some (curve1 J)
           /\ fraction0 J' = None /\ fraction1 J' = Some 0)
          \/ (is_Some (curve0 J) /\ curve1 J = None
              /\ fraction0 J' = Some 1 /\ fraction1 J' = None))
  | JointMode.Extend | JointMode.Gap =>
      is_Some (curve0 J) /\ is_Some (curve1 J)
      /\ fraction0 J' = Some 1 /\ fraction1 J' = Some 0
      /\ is_Some (jointCurve J')
  | JointMode.Trim =>
      is_Some (curve0 J) /\ is_Some (curve1 J)
      /\ is_Some (fraction0 J') /\ is_Some (fraction1 J')
      /\ jointCurve J' = None
  | JointMode.JustGeometry => False
  end.
Proof.
  destruct J as [fl c0 f0 c1 f1 jc sp nx pv]. cbn [flexure fraction0 fraction1 jointCurve].
  intros -> -> -> ->. cbv zeta.
  destruct c0 as [c0|], c1 as [c1|]; unfold annotateJointMode; joint_fields.
  - destruct (Point3d.isAlmostEqual (endPoint c0) (startPoint c1)) eqn:Hmeet.
    { joint_fields. repeat split; eauto. }
    destruct (isLineSegment3d c0 && isLineSegment3d c1) eqn:Hlines; cbv zeta.
    + destruct (approachType _) as [approach|] eqn:Happroach;
        [destruct approach|]; joint_fields; try reflexivity.
      destruct (Qle_bool 1 _ && Qle_bool _ 0) eqn:Hextend.
      { extension_shape options c0 c1. joint_fields.
        destruct (annotateExtension_mode options c0 c1) as [[-> | ->] Hcurve];
          repeat split; eauto. }
      destruct (Qltb _ 1 && Qltb 0 _) eqn:Htrim.
      { joint_fields. repeat split; eauto. }
      destruct (Qltb 1 _ && Qltb 1 _) eqn:Hgap; joint_fields; [|reflexivity].
      repeat split; eauto.
    + destruct (0 <=? selectIntersectionIndexByFraction 1 0 _)%Z eqn:Hindex.
      * destruct (nth_error _ _) as [found|] eqn:Hfound; joint_fields; [|reflexivity].
        repeat split; eauto.
      * extension_shape options c0 c1. joint_fields.
        destruct (annotateExtension_mode options c0 c1) as [[-> | ->] Hcurve];
          repeat split; eauto.
  - split; [reflexivity|]. right. repeat split; eauto.
  - split; [reflexivity|]. left. repeat split; eauto.
  - reflexivity.
Qed.

End WithKernel.

Import PlanarKernel GeometrySamples ChainSamples.


Lemma link_joins_witness :
  exists J0' J1',
    link 0%nat (Some 1%nat) unlinkedJoints !! 0%nat = Some J0'
    /\ link 0%nat (Some 1%nat) unlinkedJoints !! 1%nat = Some J1'
    /\ nextJoint J0' = Some 1%nat
    /\ previousJoint J1' = Some 0%nat
    /\ curve0 J1' = Some insideFragment0.
Proof.
  destruct (link_joins unlinkedJoints 0%nat 1%nat
              (new_Joint None (Some insideFragment0) None)
              (new_Joint None (Some insideFragment1) None))
    as (J0' & J1' & H0 & H1 & Hnext & Hprevious & _ & Hshare & Hkeep & _).
  - lia.
  - reflexivity.
  - reflexivity.
  - exists J0', J1'. repeat split; try assumption.
    rewrite <- Hshare by (right; reflexivity).
    apply Hkeep. reflexivity.
Defined.

Lemma annotateJointMode_modes_witness :
  let J' := annotateJointMode (JointOptions.new 3) insideJoint in
  match flexure J' with
  | JointMode.Unknown => jointCurve J' = None
  | JointMode.Cap =>
      jointCurve J' = None
      /\ ((curve0 insideJoint = None /\ is_Some (curve1 insideJoint)
           /\ fraction0 J' = None /\ fraction1 J' = Some 0)
          \/ (is_Some (curve0 insideJoint) /\ curve1 insideJoint = None
              /\ fraction0 J' = Some 1 /\ fraction1 J' = None))
  | JointMode.Extend | JointMode.Gap =>
      is_Some (curve0 insideJoint) /\ is_Some (curve1 insideJoint)
      /\ fraction0 J' = Some 1 /\ fraction1 J' = Some 0
      /\ is_Some (jointCurve J')
  | JointMode.Trim =>
      is_Some (curve0 insideJoint) /\ is_Some (curve1 insideJoint)
      /\ is_Some (fraction0 J') /\ is_Some (fraction1 J')
      /\ jointCurve J' = None
  | JointMode.JustGeometry => False
  end.
Proof.
  apply (annotateJointMode_modes (JointOptions.new 3) insideJoint); reflexivity.
Defined.

End JointFacts.

(** ** The chain as a whole *)

Module ChainFacts.
Import Curves JointOps Chain PolygonWireOffsetContext ChainShapes ChainNotions.
Import ChainProperties PassProperties.

Section WithKernel.
Context {kernel : GeometryKernel}.

Lemma visit_collects (store : Store) (endLink : option JointRef) :
  linear endLink store ->
  (endLink = None \/ endLink = Some 0%nat) ->
  forall remaining k visited,
    (k < length store)%nat ->
    visitLoop (fun st : Store * list JointRef => fst st)
      (fun j '(store, visited) => (true, (store, visited ++ [j])))
      0%nat remaining (Some k) (store, visited)
    = (true, (store, visited ++ seq k (Nat.min (length store - k) remaining))).
Proof.
  intros Hlin Hend.
  induction remaining as [|remaining IH]; intros k visited Hk; cbn [visitLoop].
  - rewrite Nat.min_0_r. cbn. rewrite app_nil_r. reflexivity.
  - cbn [negb fst].
    destruct (lookup_lt_is_Some_2 store k Hk) as [J HJ].
    unfold field at 1 2, deref. unfold Store, JointRef in *. rewrite HJ, (Hlin k J HJ).
    destruct (Nat.eqb_spec (S k) (length store)) as [Heq|Hne].
    + replace (length store - k)%nat with 1%nat by lia. cbn [Nat.min seq].
      destruct Hend as [-> | ->]; cbn [refEqb Nat.eqb]; [|reflexivity].
      destruct remaining; reflexivity.
    + cbn [refEqb Nat.eqb].
      rewrite IH by lia. rewrite <- app_assoc. cbn [app].
      replace (length store - k)%nat with (S (length store - S k)) by lia.
      reflexivity.
Qed.

(** X6.  On a store whose joints follow each other by index, the last one
    followed by nothing or by joint 0, [visitJointsOnChain] from joint 0
    visits the joints 0, 1, 2, ... in this order, each once, and stops at
    the end of the chain or after [maxTest + 5] joints, whichever comes
    first. *)
Theorem visitJointsOnChain_order (store : Store) (endLink : option JointRef)
    (maxTest : nat) :
  linear endLink store ->
  (endLink = None \/ endLink = Some 0%nat) ->
  (0 < length store)%nat ->
  jointsOnChain store 0%nat maxTest = seq 0 (Nat.min (length store) (maxTest + 5)).
Proof.
  intros Hlin Hend Hlen. unfold jointsOnChain, visitJointsOnChain.
  rewrite (visit_collects store endLink Hlin Hend) by exact Hlen.
  cbn [snd app]. rewrite Nat.sub_0_r. reflexivity.
Qed.

(** X7.  A pass of [removeDegeneratePrimitives] reports 0 or 1 removed
    joint, never more; the five passes of [constructPolygonWireXYOffset]
    report 1 each until one reports 0, which is the last, or all five
    report 1. *)
Theorem removal_counts (options : JointOptions.t) (maxTest : nat) (start : JointRef)
    (store : Store) :
  (let '(_, _, numJointRemoved) := removeDegeneratePrimitives start options maxTest store in
   numJointRemoved = 0%Z \/ numJointRemoved = 1%Z)
  /\ let '(_, _, log) := removalPasses 5 options maxTest start store in
     (length log <= 5)%nat
     /\ exists ones, Forall (fun c => c = 1%Z) ones
                     /\ (log = ones ++ [0%Z] \/ (log = ones /\ length ones = 5%nat)).
Proof.
  split.
  - exact (removeLoop_count options maxTest (Some start) start store).
  - exact (removalPasses_log options maxTest 5 start store).
Qed.

Lemma wholeFragments_pair (store : Store) (a b : JointRef) (A B : Joint) (f0 f1 : Q) :
  wholeFragments store = true ->
  deref store a = Some A ->
  nextJoint A = Some b ->
  deref store b = Some B ->
  fraction1 A = Some f0 ->
  fraction0 B = Some f1 ->
  Qle_bool f1 f0 || Qltb 1 f0 = false.
Proof.
  intros Hwhole HA Hb HB Hf0 Hf1. unfold wholeFragments in Hwhole.
  rewrite forallb_forall in Hwhole.
  specialize (Hwhole A).
  rewrite Hb, HB, Hf0, Hf1 in Hwhole.
  assert (Hin : In A store).
  { unfold deref in HA. apply list_elem_of_In. eapply list_elem_of_lookup_2. exact HA. }
  apply Hwhole in Hin. apply andb_prop in Hin as [Hlt Hle].
  unfold Qltb in *. apply negb_true_iff in Hlt. rewrite Hlt, Hle. reflexivity.
Qed.

Lemma removeAt_whole (options : JointOptions.t) (store : Store) (a start : JointRef)
    (numRemoved : Z) :
  wholeFragments store = true ->
  removeAt options a start numRemoved store = (store, start, a, numRemoved, false).
Proof.
  intros Hwhole. unfold removeAt.
  destruct (deref store a) as [jointA|] eqn:HA; [|reflexivity].
  destruct (nextJoint jointA) as [b|] eqn:Hb; [|reflexivity].
  destruct (previousJoint jointA) as [before|]; [|reflexivity].
  destruct (deref store b) as [jointB|] eqn:HB; [|reflexivity].
  destruct (nextJoint jointB) as [c|]; [|reflexivity].
  destruct (fraction1 jointA) as [f0|] eqn:Hf0; [|reflexivity].
  destruct (fraction0 jointB) as [f1|] eqn:Hf1; [|reflexivity].
  cbv zeta.
  rewrite (wholeFragments_pair store a b jointA jointB f0 f1 Hwhole HA Hb HB Hf0 Hf1).
  reflexivity.
Qed.

Lemma removeLoop_whole (options : JointOptions.t) (store : Store) (start : JointRef)
    (numRemoved : Z) (remaining : nat) :
  wholeFragments store = true ->
  forall jointA,
    removeLoop options remaining jointA start numRemoved store = (store, start, numRemoved).
Proof.
  intros Hwhole.
  induction remaining as [|remaining IH]; intros [a|]; cbn [removeLoop]; try reflexivity.
  rewrite removeAt_whole by exact Hwhole.
  destruct (refEqb (field nextJoint store (Some a)) start); [reflexivity|apply IH].
Qed.

(** X8.  On a chain in which no joint starts its fragment at or behind the
    fraction where the next joint ends it, nor beyond the end of the
    fragment, [removeDegeneratePrimitives] removes nothing: the chain and
    its start are returned as they are with the count 0, and the passes
    stop after the first. *)
Theorem removal_fixpoint (options : JointOptions.t) (maxTest : nat) (start : JointRef)
    (store : Store) :
  wholeFragments store = true ->
  removeDegeneratePrimitives start options maxTest store = (store, start, 0%Z)
  /\ removalPasses 5 options maxTest start store = (store, start, [0%Z]).
Proof.
  intros Hwhole.
  assert (Hcall : removeDegeneratePrimitives start options maxTest store
                  = (store, start, 0%Z)).
  { unfold removeDegeneratePrimitives. apply removeLoop_whole. exact Hwhole. }
  split; [exact Hcall|].
  cbn [removalPasses]. rewrite Hcall. reflexivity.
Qed.

(** X9.  With fewer than two points [constructPolygonWireXYOffset] throws,
    whatever [wrap] and the distance are: it reads [points[0]] and
    [points[1]] before it looks at the length. *)
Theorem too_few_points (points : list Point3d) (wrap : bool) (arg : Q + JointOptions.t) :
  (length points < 2)%nat ->
  constructPolygonWireXYOffset points wrap arg = Throw.
Proof.
  intros Hlen. unfold constructPolygonWireXYOffset, emittedChain, finishedChain.
  destruct points as [|p [|q rest]]; [| |cbn in Hlen; lia].
  - destruct wrap; reflexivity.
  - destruct wrap.
    + unfold effectiveWrap. cbn [lookup list_lookup last].
      rewrite isAlmostEqual_refl. reflexivity.
    + reflexivity.
Qed.


Lemma fragment_segment (points : list Point3d) (d : Q) (i : nat) (c : CurvePrimitive) :
  fragment points d i = Some c ->
  c = mkCurve (LineSegment3d (offsetStart points d i) (offsetEnd points d i))
              (points !! i) (points !! S i).
Proof.
  unfold fragment, createOffsetSegment, offsetStart, offsetEnd, unitAlong.
  destruct (points !! i) as [p|] eqn:Hp; [|discriminate].
  destruct (points !! S i) as [q|] eqn:Hq; [|discriminate].
  rewrite (nth_lookup_Some _ _ _ _ Hp), (nth_lookup_Some _ _ _ _ Hq).
  destruct (normalize (Vector3d.createStartEnd p q)) as [u|]; [|discriminate].
  intros [= <-]. reflexivity.
Qed.

(** X11.  When every edge has an offset fragment and each fragment ends
    where the next one starts, the offset without [wrap] is the two ends of
    every fragment in order, so that a point at which two fragments meet
    comes twice: once as the end of the one fragment, once as the start of
    the other.  It is a [Loop] if the first and the last of these points
    are almost equal and a [Path] otherwise. *)
Theorem meeting_fragments (points : list Point3d) (arg : Q + JointOptions.t) :
  let d := JointOptions.leftOffsetDistance (JointOptions.create arg) in
  let chain := chainOut (offsetStart points d) (offsetEnd points d) (length points - 1) in
  (2 <= length points)%nat ->
  fragmentsMeet points d = true ->
  constructPolygonWireXYOffset points false arg
  = Ok (Some (if Point3d.isAlmostEqual (offsetStart points d 0)
                                       (offsetEnd points d (length points - 2))
              then Loop chain else Path chain))
  /\ length chain = (2 * (length points - 1))%nat.
Proof.
  intros d chain Hlen Hmeet. subst chain.
  destruct (length points) as [|[|k]] eqn:Hk; [lia|lia|].
  unfold fragmentsMeet in Hmeet. rewrite Hk in Hmeet.
  replace (S (S k) - 1)%nat with (S k) in * by lia.
  replace (S (S k) - 2)%nat with k in * by lia.
  set (chain := chainOut (offsetStart points d) (offsetEnd points d) (S k)).
  apply andb_prop in Hmeet as [Hedges Hjoints].
  rewrite forallb_forall in Hedges, Hjoints.
  assert (Hfrag : forall i, (i <= k)%nat ->
            fragment points d i
            = Some (mkCurve (LineSegment3d (offsetStart points d i) (offsetEnd points d i))
                            (points !! i) (points !! S i))).
  { intros i Hi. specialize (Hedges i). rewrite in_seq in Hedges.
    destruct (fragment points d i) as [c|] eqn:Hc; [|specialize (Hedges ltac:(lia)); discriminate].
    rewrite (fragment_segment points d i c Hc). reflexivity. }
  assert (Hjoint : forall i, (i < k)%nat ->
            Point3d.isAlmostEqual (offsetEnd points d i) (offsetStart points d (S i)) = true).
  { intros i Hi. apply Hjoints. rewrite in_seq. lia. }
  assert (Hemitted : emittedChain points false (JointOptions.create arg) = Ok chain).
  { apply (emitted_open points (JointOptions.create arg) k); try reflexivity.
    - exact Hk.
    - exact Hfrag.
    - exact Hjoint. }
  split; [|unfold chain; rewrite length_chainOut; lia].
  apply (chain_result points false arg chain); [exact Hemitted| | |].
  - unfold chain. rewrite length_chainOut. lia.
  - reflexivity.
  - apply last_chainOut.
Qed.

End WithKernel.

Import PlanarKernel GeometrySamples ChainSamples.

Lemma visitJointsOnChain_order_witness :
  jointsOnChain cornerChain 0%nat 3 = [0; 1; 2]%nat.
Proof.
  apply (visitJointsOnChain_order cornerChain None 3).
  - intros j J HJ.
    destruct j as [|[|[|j]]]; vm_compute in HJ; [| | |discriminate];
      injection HJ as <-; reflexivity.
  - left. reflexivity.
  - vm_compute. lia.
Defined.

Lemma removal_fixpoint_witness :
  removeDegeneratePrimitives 0%nat (JointOptions.new 1) 3 cornerChain
  = (cornerChain, 0%nat, 0%Z)
  /\ removalPasses 5 (JointOptions.new 1) 3 0%nat cornerChain = (cornerChain, 0%nat, [0%Z]).
Proof.
  apply (removal_fixpoint (JointOptions.new 1) 3 0%nat cornerChain).
  vm_compute. reflexivity.
Defined.

Lemma too_few_points_witness :
  constructPolygonWireXYOffset [mkXYZ 0 0 0] true (inl 1) = Throw.
Proof.
  apply (too_few_points [mkXYZ 0 0 0] true (inl 1)). simpl. lia.
Defined.


Lemma meeting_fragments_witness :
  exists chain,
    constructPolygonWireXYOffset straightPolyline false (inl 2) = Ok (Some (Path chain))
    /\ map reduced chain = [mkXYZ 0 2 0; mkXYZ 1 2 0; mkXYZ 1 2 0; mkXYZ 3 2 0]
    /\ length chain = 4%nat.
Proof.
  destruct (meeting_fragments straightPolyline (inl 2)) as [Hresult Hlength].
  - simpl. lia.
  - vm_compute. reflexivity.
  - eexists. split; [|split; [|exact Hlength]].
    + rewrite Hresult.
      assert (Hfar : Point3d.isAlmostEqual (offsetStart straightPolyline 2 0)
                       (offsetEnd straightPolyline 2 1) = false)
        by (vm_compute; reflexivity).
      change (JointOptions.leftOffsetDistance (JointOptions.create (inl 2))) with 2.
      change (length straightPolyline - 2)%nat with 1%nat.
      rewrite Hfar. reflexivity.
    + vm_compute. reflexivity.
Defined.

End ChainFacts.

(** ** The offset of a chain of curves *)

Module CurveChainFacts.
Import Curves JointOps Chain CurveJoints CurveChainWireOffsetContext.
Import ChainProperties.

(** X12.  [OffsetOptions.getOffsetDistance] of a number, of joint options or
    of offset options is the [leftOffsetDistance] of what
    [OffsetOptions.create] makes of it, and [create] of offset options hands
    them back: creating twice is creating once. *)
Theorem getOffsetDistance_create {StrokeOptions : Type} (createForCurves : StrokeOptions)
    (x : Q + JointOptions.t + OffsetOptions.t StrokeOptions) :
  OffsetOptions.getOffsetDistance x
  = OffsetOptions.leftOffsetDistance (OffsetOptions.create createForCurves x)
  /\ OffsetOptions.create createForCurves (inr (OffsetOptions.create createForCurves x))
     = OffsetOptions.create createForCurves x.
Proof.
  destruct x as [[distance|options]|options]; split; reflexivity.
Qed.

Section WithKernel.
Context {kernel : GeometryKernel}.

Lemma connected_nil : connected [].
Proof. intros i a b H. destruct i; discriminate. Qed.

Lemma connected_snoc (curves : list CurvePrimitive) (c : CurvePrimitive) :
  connected curves ->
  (forall back, last curves = Some back ->
     Point3d.isAlmostEqual (endPoint back) (startPoint c) = true) ->
  connected (curves ++ [c]).
Proof.
  intros Hcurves Hback i a b Ha Hb.
  destruct (Nat.lt_ge_cases (S i) (length curves)) as [Hlt|Hge].
  - rewrite lookup_app_l in Ha by lia. rewrite lookup_app_l in Hb by lia.
    exact (Hcurves i a b Ha Hb).
  - assert (Hlen : S i = length curves).
    { apply lookup_lt_Some in Hb. rewrite length_app in Hb. cbn in Hb. lia. }
    rewrite lookup_app_l in Ha by lia.
    rewrite lookup_app_r in Hb by lia.
    replace (S i - length curves)%nat with 0%nat in Hb by lia.
    injection Hb as <-. apply Hback.
    rewrite last_lookup. replace (pred (length curves)) with i by lia. exact Ha.
Qed.

(** What [collectPrimitive] does to a connected array. *)
Lemma collectPrimitive_appends (destination : list CurvePrimitive)
    (primitive : option CurvePrimitive) :
  connected destination ->
  connected (collectPrimitive destination primitive)
  /\ (exists added, collectPrimitive destination primitive = destination ++ added
                    /\ (length added <= 2)%nat)
  /\ (forall p, primitive = Some p ->
        last (collectPrimitive destination primitive) = Some p).
Proof.
  intros Hconnected. unfold collectPrimitive.
  destruct primitive as [p|].
  2:{ split; [exact Hconnected|]. split; [|discriminate].
      exists []. rewrite app_nil_r. split; [reflexivity|cbn; lia]. }
  cbv zeta.
  destruct (last destination) as [back|] eqn:Hlast.
  - destruct (Point3d.isAlmostEqual (endPoint back) (startPoint p)) eqn:Hmeet; cbn [negb].
    + split.
      { apply connected_snoc; [exact Hconnected|].
        intros back' Hback'. rewrite Hlast in Hback'. injection Hback' as <-. exact Hmeet. }
      split; [exists [p]; split; [reflexivity|cbn; lia]|].
      intros p' [= <-]. apply last_snoc.
    + split.
      { apply connected_snoc.
        - apply connected_snoc; [exact Hconnected|].
          intros back' Hback'. rewrite Hlast in Hback'. injection Hback' as <-.
          apply isAlmostEqual_refl.
        - intros back' Hback'. rewrite last_snoc in Hback'. injection Hback' as <-.
          apply isAlmostEqual_refl. }
      split.
      { exists [LineSegment3d_create (endPoint back) (startPoint p); p].
        rewrite <- app_assoc. split; [reflexivity|cbn; lia]. }
      intros p' [= <-]. apply last_snoc.
  - split.
    { apply connected_snoc; [exact Hconnected|].
      intros back Hback. rewrite Hlast in Hback. discriminate. }
    split; [exists [p]; split; [reflexivity|cbn; lia]|].
    intros p' [= <-]. apply last_snoc.
Qed.

(** X13.  [collectPrimitive] keeps a connected array connected: it appends
    at most two primitives to the destination and changes nothing else, and
    a primitive that is given ends up last. *)
Theorem collectPrimitive_connected (destination : list CurvePrimitive)
    (primitive : option CurvePrimitive) :
  connected destination ->
  connected (collectPrimitive destination primitive)
  /\ (exists added, collectPrimitive destination primitive = destination ++ added
                    /\ (length added <= 2)%nat)
  /\ (forall p, primitive = Some p ->
        last (collectPrimitive destination primitive) = Some p).
Proof. exact (collectPrimitive_appends destination primitive). Qed.


Lemma collectCurvesOfJoint_connected (store : Store) (joint : Joint)
    (destination : list CurvePrimitive) :
  connected destination -> connected (collectCurvesOfJoint store joint destination).
Proof.
  intros Hconnected. unfold collectCurvesOfJoint. cbv zeta.
  pose proof (collectPrimitive_appends destination (jointCurve joint) Hconnected)
    as [Hjoint _].
  destruct (curve1 joint) as [c1|]; [|exact Hjoint].
  destruct (fraction1 joint) as [fA|]; [|exact Hjoint].
  apply collectPrimitive_appends. exact Hjoint.
Qed.

(** What every turn of [visitJointsOnChain] keeps, the walk keeps. *)
Lemma visitLoop_invariant {St : Type} (storeOf : St -> Store)
    (callback : JointRef -> St -> bool * St) (P : St -> Prop) (start : JointRef) :
  (forall j st, P st -> P (snd (callback j st))) ->
  forall remaining joint st,
    P st -> P (snd (visitLoop storeOf callback start remaining joint st)).
Proof.
  intros Hstep.
  induction remaining as [|remaining IH]; intros [j|] st HP; cbn [visitLoop]; try exact HP.
  specialize (Hstep j st HP).
  destruct (callback j st) as [continue st'].
  destruct continue; cbn [negb snd] in *; [|exact Hstep].
  destruct (refEqb _ start); [exact Hstep|].
  apply IH. exact Hstep.
Qed.

Lemma collectCurvesFromChain_connected (store : Store) (start : option JointRef)
    (destination : list CurvePrimitive) (maxTest : nat) :
  connected destination ->
  connected (snd (collectCurvesFromChain store start destination maxTest)).
Proof.
  intros Hconnected. unfold collectCurvesFromChain.
  destruct start as [start|]; [|exact Hconnected].
  unfold visitJointsOnChain.
  match goal with
  | |- context [visitLoop ?s ?cb start ?r (Some start) ?st0] =>
      assert (Hinv : connected (snd (fst (snd (visitLoop s cb start r (Some start) st0)))));
      [|destruct (visitLoop s cb start r (Some start) st0)
          as [continue [[store' destination'] numOut]]; exact Hinv]
  end.
  apply (visitLoop_invariant _ _
           (fun st : Store * list CurvePrimitive * Z => connected (snd (fst st))));
    [|exact Hconnected].
  intros j [[store0 destination0] numOut0] H0. cbn [snd fst] in *.
  destruct (deref _ j) as [joint|]; [|exact H0].
  apply collectCurvesOfJoint_connected. exact H0.
Qed.

Section WithLibrary.
Context {library : CurveLibrary}.

(** X14.  The curves that [constructCurveXYOffset] hands to [RegionOps] are
    connected: each one starts where the one before it ends, whatever the
    input curves and options are. *)
Theorem outputCurves_connected (curves : CurveChainInput)
    (offsetDistanceOrOptions : Q + JointOptions.t + OffsetOptions.t StrokeOptions) :
  connected (outputCurves curves offsetDistanceOrOptions).
Proof.
  unfold outputCurves. cbv zeta.
  destruct (chainOfOffsets _ _) as [store joint0].
  apply collectCurvesFromChain_connected. apply connected_nil.
Qed.

Lemma applyBasePoints_labelled (c : CurvePrimitive) (a b : Point3d) :
  baseCurveStart (PolygonWireOffsetContext.applyBasePoints c (Some a) (Some b)) = Some a
  /\ baseCurveEnd (PolygonWireOffsetContext.applyBasePoints c (Some a) (Some b)) = Some b.
Proof. split; reflexivity. Qed.

Lemma labelOffsets_labelled (offset basePrims : list CurvePrimitive) :
  length basePrims = length offset ->
  Forall (fun c => exists base, In base basePrims
                     /\ baseCurveStart c = Some (startPoint base)
                     /\ baseCurveEnd c = Some (endPoint base))
         (labelOffsets offset basePrims).
Proof.
  revert basePrims.
  induction offset as [|c offset IH]; intros [|base basePrims] Hlen;
    cbn [labelOffsets]; try discriminate; constructor.
  - exists base. split; [left; reflexivity|]. apply applyBasePoints_labelled.
  - cbn in Hlen. injection Hlen as Hlen.
    eapply Forall_impl; [apply IH; exact Hlen|].
    intros c' (base' & Hin & Hstart & Hend). exists base'. split; [right; exact Hin|].
    split; assumption.
Qed.

(** X15.  Every simple offset that [constructCurveXYOffset] collects is
    labelled with [baseCurveStart] and [baseCurveEnd], and they are the
    start and the end of a child of the input or of one of the primitives
    that the child is made of. *)
Theorem simpleOffsets_labelled (children : list CurvePrimitive)
    (offsetOptions : OffsetOptions.t StrokeOptions) :
  Forall (fun c => exists g base,
            In g children
            /\ (base = g \/ In base (collectCurvePrimitives g))
            /\ baseCurveStart c = Some (startPoint base)
            /\ baseCurveEnd c = Some (endPoint base))
         (simpleOffsetsOf children offsetOptions).
Proof.
  unfold simpleOffsetsOf.
  induction children as [|g children IH]; cbn [flat_map]; [constructor|].
  apply Forall_app. split.
  - unfold createSingleOffsetPrimitiveXY, applyBasePoints.
    destruct (constructOffsetXY g (inr offsetOptions)) as [[offset|offset]|];
      [| |constructor].
    + constructor; [|constructor].
      exists g, g. split; [left; reflexivity|]. split; [left; reflexivity|].
      apply applyBasePoints_labelled.
    + destruct (Nat.eqb_spec (length (collectCurvePrimitives g)) (length offset))
        as [Hlen|Hlen]; cbn [negb]; [|constructor].
      eapply Forall_impl; [apply labelOffsets_labelled; exact Hlen|].
      intros c (base & Hin & Hstart & Hend). exists g, base.
      split; [left; reflexivity|]. split; [right; exact Hin|]. split; assumption.
  - eapply Forall_impl; [exact IH|].
    intros c (g' & base & Hin & Hbase & Hstart & Hend). exists g', base.
    split; [right; exact Hin|]. repeat split; assumption.
Qed.

(** X16.  When no child of the input has an offset, [constructCurveXYOffset]
    hands no curve to [RegionOps]; for a path of one child with a single
    offset it hands over a copy of that offset alone: the copy has the
    geometry of the offset and, being made by [clone], neither of the two
    labels that [applyBasePoints] put on the offset. *)
Theorem few_children (curves : CurveChainInput)
    (offsetDistanceOrOptions : Q + JointOptions.t + OffsetOptions.t StrokeOptions) :
  let offsetOptions :=
    OffsetOptions.create StrokeOptions_createForCurves offsetDistanceOrOptions in
  ((forall g, In g (children curves) -> constructOffsetXY g (inr offsetOptions) = None) ->
   outputCurves curves offsetDistanceOrOptions = [])
  /\ (forall g c,
        curves = PathInput [g] ->
        constructOffsetXY g (inr offsetOptions) = Some (inl c) ->
        outputCurves curves offsetDistanceOrOptions = [mkCurve (geometry c) None None]).
Proof.
  cbv zeta. split.
  - intros Hnone. unfold outputCurves. cbv zeta.
    assert (Hempty : simpleOffsetsOf (children curves)
                       (OffsetOptions.create StrokeOptions_createForCurves
                          offsetDistanceOrOptions) = []).
    { unfold simpleOffsetsOf.
      induction (children curves) as [|g rest IH]; [reflexivity|].
      cbn [flat_map]. unfold createSingleOffsetPrimitiveXY at 1.
      rewrite (Hnone g) by (left; reflexivity). cbn [app].
      apply IH. intros g' Hin. apply Hnone. right. exact Hin. }
    rewrite Hempty. reflexivity.
  - intros g c -> Hoffset. unfold outputCurves. cbv zeta.
    cbn [children simpleOffsetsOf flat_map isLoop].
    unfold createSingleOffsetPrimitiveXY. rewrite Hoffset.
    cbn [applyBasePoints app length].
    unfold chainOfOffsets. cbn [fold_left jointBefore alloc app length].
    reflexivity.
Qed.

End WithLibrary.
End WithKernel.

Import PlanarKernel GeometrySamples SampleLibrary.

Lemma collectPrimitive_connected_witness :
  connected (collectPrimitive [insideFragment0] (Some insideFragment1))
  /\ length (collectPrimitive [insideFragment0] (Some insideFragment1)) = 3%nat.
Proof.
  destruct (collectPrimitive_connected [insideFragment0] (Some insideFragment1))
    as [Hconnected _].
  - intros i a b Ha Hb. destruct i; discriminate.
  - split; [exact Hconnected|]. vm_compute. reflexivity.
Defined.

Lemma few_children_witness :
  exists c,
    outputCurves (PathInput [baseSegment]) (inl (inl 1)) = [c]
    /\ baseCurveStart c = None
    /\ baseCurveEnd c = None.
Proof.
  assert (exists c,
            constructOffsetXY baseSegment
              (inr (OffsetOptions.create StrokeOptions_createForCurves (inl (inl 1))))
            = Some (inl c)) as [c Hc]
    by (vm_compute; eexists; reflexivity).
  destruct (few_children (PathInput [baseSegment]) (inl (inl 1))) as [_ Hone].
  rewrite (Hone baseSegment c eq_refl Hc).
  eexists. split; [reflexivity|]. split; reflexivity.
Defined.

End CurveChainFacts.

(** ** The chunk header and the feature table *)

Module HeaderFacts.
Import ImdlParser.
Open Scope Z_scope.

Section WithCoreCommon.
Context {core : CoreCommon}.

(** X17.  Provided the glTF format tag is not the tag of the unknown format,
    a chunk header that [GltfHeader] accepts starts with the glTF tag, takes
    its lengths from the third and fourth word, has the scene 20 bytes
    behind its start, and is of one of two layouts: version 1, the fifth
    word being the scene format, with the binary data right behind the
    scene; or version 2, the fifth word being the JSON chunk type, with a
    binary chunk header of non-zero length and binary chunk type behind the
    scene and the binary data 8 bytes further. *)
Theorem GltfHeader_layout (stream : ByteStream.t) :
  TileFormat_Gltf <> TileFormat_Unknown ->
  isValid (fst (GltfHeader_new stream)) = true ->
  let h := fst (GltfHeader_new stream) in
  let buf := ByteStream.buffer stream in
  let pos := ByteStream.curPos stream in
  ByteStream.uint32At buf pos = TileFormat_Gltf
  /\ gltfLength h = ByteStream.uint32At buf (pos + 8)
  /\ sceneStrLength h = ByteStream.uint32At buf (pos + 12)
  /\ scenePosition h = pos + 20
  /\ ((TileHeader.version (header h) = GltfVersions_Version1
       /\ ByteStream.uint32At buf (pos + 16) = GltfVersions_Gltf1SceneFormat
       /\ binaryPosition h = scenePosition h + sceneStrLength h)
      \/ (TileHeader.version (header h) = GltfVersions_Version2
          /\ ByteStream.uint32At buf (pos + 16) = GltfV2ChunkTypes_JSON
          /\ ByteStream.uint32At buf (scenePosition h + sceneStrLength h) <> 0
          /\ ByteStream.uint32At buf (scenePosition h + sceneStrLength h + 4)
             = GltfV2ChunkTypes_Binary
          /\ binaryPosition h = scenePosition h + sceneStrLength h + 8)).
Proof.
  intros Hformats. destruct stream as [buf pos].
  unfold GltfHeader_new, TileHeader.new, ByteStream.readUint32, ByteStream.setCurPos, isValid,
    invalidate.
  cbn [ByteStream.buffer ByteStream.curPos fst snd].
  replace (pos + 4 + 4) with (pos + 8) by lia.
  replace (pos + 8 + 4) with (pos + 12) by lia.
  replace (pos + 12 + 4) with (pos + 16) by lia.
  replace (pos + 16 + 4) with (pos + 20) by lia.
  set (format := ByteStream.uint32At buf pos).
  set (version := ByteStream.uint32At buf (pos + 4)).
  set (value5 := ByteStream.uint32At buf (pos + 16)).
  set (len := ByteStream.uint32At buf (pos + 12)).
  cbn [TileHeader.version TileHeader.format].
  assert (Hinvalid : forall v, (TileFormat_Gltf =? TileHeader.format
                                  (TileHeader.mk TileFormat_Unknown v)) = true -> False).
  { intros v H. cbn in H. apply Z.eqb_eq in H. exact (Hformats H). }
  destruct ((version =? GltfVersions_Version2) && (value5 =? GltfVersions_Gltf1SceneFormat))
    eqn:Hlegacy.
  - cbn [TileHeader.version TileHeader.format].
    rewrite Z.eqb_refl.
    apply andb_prop in Hlegacy as [_ Hvalue]. apply Z.eqb_eq in Hvalue.
    rewrite Hvalue, Z.eqb_refl. cbn [negb fst header TileHeader.format gltfLength
      sceneStrLength scenePosition binaryPosition TileHeader.version].
    intros Hvalid. apply Z.eqb_eq in Hvalid.
    repeat split; try reflexivity; [congruence|]. left. repeat split; reflexivity.
  - cbn [TileHeader.version TileHeader.format].
    destruct (version =? GltfVersions_Version1) eqn:Hv1.
    + destruct (GltfVersions_Gltf1SceneFormat =? value5) eqn:Hvalue; cbn [negb fst header];
        [|intros H; destruct (Hinvalid _ H)].
      cbn [TileHeader.format gltfLength sceneStrLength scenePosition binaryPosition
           TileHeader.version].
      intros Hvalid. apply Z.eqb_eq in Hvalid, Hv1, Hvalue.
      repeat split; try reflexivity; [congruence|]. left. repeat split; congruence.
    + destruct (version =? GltfVersions_Version2) eqn:Hv2;
        [|cbn [fst header]; intros H; destruct (Hinvalid _ H)].
      destruct (negb (GltfV2ChunkTypes_JSON =? value5)
                || negb (GltfV2ChunkTypes_Binary
                         =? ByteStream.uint32At buf (pos + 20 + len + 4))
                || (0 =? ByteStream.uint32At buf (pos + 20 + len))) eqn:Hchunks;
        cbn [fst header]; [intros H; destruct (Hinvalid _ H)|].
      cbn [TileHeader.format gltfLength sceneStrLength scenePosition binaryPosition
           TileHeader.version].
      apply orb_false_iff in Hchunks as [Hchunks Hlength].
      apply orb_false_iff in Hchunks as [Hjson Hbinary].
      apply negb_false_iff, Z.eqb_eq in Hjson, Hbinary. apply Z.eqb_neq in Hlength.
      intros Hvalid. apply Z.eqb_eq in Hvalid, Hv2.
      repeat split; try reflexivity; [congruence|]. right.
      repeat split; try congruence. lia.
Qed.

(** What [parseFeatureTable] returns when it returns a table. *)
Lemma parseFeatureTable_table document binaryData stream info ft stream' :
  parseFeatureTable document binaryData stream info = Ok (Some ft, stream') ->
  let buf := ByteStream.buffer stream in
  let pos := startPos info in
  let len := ByteStream.uint32At buf pos in
  Z.rem len 4 = 0
  /\ FeatureTableHeader.sizeInBytes <= len
  /\ pos + len <= ByteStream.length stream
  /\ stream' = ByteStream.mk buf (pos + len)
  /\ ft_multiModel ft = multiModel info
  /\ ft_numFeatures ft = ByteStream.uint32At buf (pos + 8)
  /\ ft_numSubCategories ft
     = (if multiModel info then Some (ByteStream.uint32At buf (pos + 4)) else None)
  /\ (multiModel info = true -> ft_animationNodeIds ft = None)
  /\ Z.of_nat (List.length (ft_data ft)) = (len - FeatureTableHeader.sizeInBytes) / 4
  /\ forall i : nat, (i < List.length (ft_data ft))%nat ->
       ft_data ft !! i
       = Some (ByteStream.uint32At buf (pos + FeatureTableHeader.sizeInBytes + 4 * Z.of_nat i)).
Proof.
  destruct stream as [buf c]. unfold parseFeatureTable, ByteStream.setCurPos.
  cbn [ByteStream.buffer ByteStream.curPos]. rewrite DecoderProperties.readFrom_eq.
  set (pos := startPos info). set (len := ByteStream.uint32At buf pos).
  destruct (Z.ltb_spec (Z.of_nat (List.length buf)) (pos + 12)) as [|Hheader]; [discriminate|].
  cbn [FeatureTableHeader.length FeatureTableHeader.count FeatureTableHeader.numSubCategories].
  destruct (Z.eqb_spec 0 (Z.rem len 4)) as [Hrem|]; cbn [negb]; [|discriminate].
  unfold FeatureTableHeader.sizeInBytes, ByteStream.nextUint32s.
  set (n := (len - 12) / 4).
  destruct (Z.ltb_spec n 0) as [|Hn]; [discriminate|].
  cbn [mbind Result_bind ByteStream.buffer ByteStream.curPos ByteStream.setCurPos].
  unfold ByteStream.isPastTheEnd, ByteStream.length, ByteStream.setCurPos.
  cbn [ByteStream.buffer ByteStream.curPos].
  destruct (Z.ltb_spec (Z.of_nat (List.length buf)) (pos + 12 + 4 * n)) as [|Hend];
    [discriminate|].
  assert (Hlen : 0 <= len - 12 /\ 4 * n = len - 12).
  { assert (Hm : (len - 12) mod 4 = 0).
    { pose proof (DecoderProperties.uint32At_nonneg buf pos) as H0. fold len in H0.
      symmetry in Hrem. rewrite Z.rem_mod_nonneg in Hrem by lia.
      rewrite <- Zminus_mod_idemp_l, Hrem. reflexivity. }
    subst n. apply Z.mod_divide in Hm; [|lia]. destruct Hm as [k Hk]. rewrite Hk.
    rewrite Z.div_mul by lia. rewrite Hk in Hn. rewrite Z.div_mul in Hn by lia. lia. }
  assert (Havail : Z.min n ((Z.of_nat (List.length buf) - (pos + 12)) / 4) = n).
  { apply Z.min_l. apply Z.div_le_lower_bound; lia. }
  rewrite Havail.
  set (data := map _ (seq 0 (Z.to_nat n))).
  assert (Hdata : Z.of_nat (List.length data) = n
                  /\ forall i : nat, (i < List.length data)%nat ->
                       data !! i = Some (ByteStream.uint32At buf (pos + 12 + 4 * Z.of_nat i))).
  { subst data. rewrite length_map, length_seq. split; [lia|]. intros i Hi.
    rewrite list_lookup_fmap, lookup_seq_lt by exact Hi. reflexivity. }
  destruct Hdata as [Hcount Hwords].
  intros H.
  assert (Hshape : ft_data ft = data /\ stream' = ByteStream.mk buf (pos + len)
                   /\ ft_multiModel ft = multiModel info
                   /\ ft_numFeatures ft = ByteStream.uint32At buf (pos + 8)
                   /\ ft_numSubCategories ft
                      = (if multiModel info then Some (ByteStream.uint32At buf (pos + 4))
                         else None)
                   /\ (multiModel info = true -> ft_animationNodeIds ft = None)).
  { destruct (multiModel info); cbn [mbind Result_bind] in H.
    - injection H as <- <-. cbn. auto 10.
    - destruct (parseAnimationNodeIds document binaryData) as [ids|];
        cbn [mbind Result_bind] in H; [|discriminate].
      injection H as <- <-. cbn. repeat split; auto; discriminate. }
  destruct Hshape as (-> & -> & Hmulti & Hfeatures & Hsub & Hanim).
  repeat split; try assumption; lia.
Qed.

(** X18.  When [parseFeatureTable] returns a table, the declared length is
    a multiple of 4, not smaller than the header and within the stream; the
    stream is left at the end of the table; the feature count and, for a
    multi-model table only, the sub-category count are those of the header;
    a multi-model table has no animation node ids; and the packed feature
    array is the 32-bit words between the header and the end of the
    table. *)
Theorem parseFeatureTable_success document binaryData stream info ft stream' :
  parseFeatureTable document binaryData stream info = Ok (Some ft, stream') ->
  let buf := ByteStream.buffer stream in
  let pos := startPos info in
  let len := ByteStream.uint32At buf pos in
  Z.rem len 4 = 0
  /\ FeatureTableHeader.sizeInBytes <= len
  /\ pos + len <= ByteStream.length stream
  /\ stream' = ByteStream.mk buf (pos + len)
  /\ ft_multiModel ft = multiModel info
  /\ ft_numFeatures ft = ByteStream.uint32At buf (pos + 8)
  /\ ft_numSubCategories ft
     = (if multiModel info then Some (ByteStream.uint32At buf (pos + 4)) else None)
  /\ (multiModel info = true -> ft_animationNodeIds ft = None)
  /\ Z.of_nat (List.length (ft_data ft)) = (len - FeatureTableHeader.sizeInBytes) / 4
  /\ forall i : nat, (i < List.length (ft_data ft))%nat ->
       ft_data ft !! i
       = Some (ByteStream.uint32At buf (pos + FeatureTableHeader.sizeInBytes + 4 * Z.of_nat i)).
Proof. exact (parseFeatureTable_table document binaryData stream info ft stream'). Qed.


End WithCoreCommon.

Section WithParseNodes.
Context {core : CoreCommon} {Node ImdlParserOptions : Type}.
Variable parseNodes :
  Document -> Uint8Array.t -> ImdlParserOptions -> FeatureTable -> Result (list Node).

(** What [readScene] hands to [new ImdlParser]. *)
Lemma readScene_document stream imdlHeader ftStartPos gltfHeader sceneStr document binaryData
    info :
  readScene stream imdlHeader ftStartPos gltfHeader sceneStr
  = Ok (inl (document, binaryData, info)) ->
  isNullish (meshes document) = false
  /\ isNullish (bufferViews document) = false
  /\ isNullish (nodes document) = false
  /\ Uint8Array.ofBuffer (ByteStream.buffer stream) (binaryPosition gltfHeader) = Ok binaryData
  /\ info = {| startPos := ftStartPos;
               multiModel :=
                 negb (0 =? Z.land (imdl_flags imdlHeader) ImdlFlags_MultiModelFeatureTable) |}.
Proof.
  unfold readScene. destruct (JSON_parse sceneStr) as [sceneValue|]; [|discriminate].
  intros H. unfold mbind in H.
  repeat match type of H with
  | context [Result_bind _ _ _ ?r] =>
      destruct r eqn:?; cbn [Result_bind] in H; [|discriminate H]
  end.
  destruct (isNullish _) eqn:Hmeshes; [discriminate|].
  repeat match type of H with
  | context [Result_bind _ _ _ ?r] =>
      destruct r eqn:?; cbn [Result_bind] in H; [|discriminate H]
  end.
  injection H as <- <- <-. cbn [meshes bufferViews nodes].
  assert (Hnullish : forall a, isNullish (nullish a (JObject [])) = false)
    by (intros []; reflexivity).
  rewrite !Hnullish. auto.
Qed.

Lemma parse_status document binaryData options stream info status :
  parse parseNodes document binaryData options stream info = Ok (inr status) ->
  status = TileReadStatus.InvalidFeatureTable.
Proof.
  unfold parse.
  destruct (parseFeatureTable _ _ _ _) as [[[ft|] s]|]; cbn [mbind Result_bind];
    [|congruence|discriminate].
  destruct (parseNodes _ _ _ _); cbn [mbind Result_bind]; discriminate.
Qed.

Lemma decodeScene_status stream imdlHeader pos ftLength status :
  decodeScene stream imdlHeader pos ftLength = inr status ->
  status = TileReadStatus.InvalidTileData \/ status = TileReadStatus.InvalidScene.
Proof.
  unfold decodeScene. destruct (GltfHeader_new _) as [gltfHeader s2].
  destruct (negb (isValid gltfHeader)); [intros [= <-]; auto|].
  cbn [ByteStream.nextBytes].
  destruct (utf8ToString _) as [[|c sceneStr]|]; try (intros [= <-]; auto).
  destruct (readScene _ _ _ _ _) as [[[[d b] i]|status']|] eqn:E; try discriminate;
    [|intros [= <-]; auto].
  intros [= <-]. left.
  unfold readScene in E. destruct (JSON_parse _) as [sceneValue|]; [|discriminate].
  unfold mbind in E.
  repeat match type of E with
  | context [Result_bind _ _ _ ?r] =>
      destruct r eqn:?; cbn [Result_bind] in E; [|discriminate E]
  end.
  destruct (isNullish _); [congruence|].
  repeat match type of E with
  | context [Result_bind _ _ _ ?r] =>
      destruct r eqn:?; cbn [Result_bind] in E; [|discriminate E]
  end.
  discriminate.
Qed.

(** The scene stage fails with [InvalidScene] exactly when the chunk header
    is accepted and the scene text is missing or empty. *)
Lemma decodeScene_InvalidScene stream imdlHeader pos ftLength :
  let gltfHeader := fst (GltfHeader_new (ByteStream.setCurPos stream (pos + ftLength))) in
  let sceneStr :=
    utf8ToString (ByteStream.slice (ByteStream.buffer stream) (scenePosition gltfHeader)
                    (sceneStrLength gltfHeader)) in
  decodeScene stream imdlHeader pos ftLength = inr TileReadStatus.InvalidScene
  <-> isValid gltfHeader = true /\ (sceneStr = None \/ sceneStr = Some EmptyString).
Proof.
  cbv zeta. unfold decodeScene.
  pose proof (DecoderProperties.GltfHeader_new_buffer
                (ByteStream.setCurPos stream (pos + ftLength))) as Hbuf.
  destruct (GltfHeader_new _) as [gltfHeader s2]. cbn [fst snd] in Hbuf |- *.
  destruct (isValid gltfHeader); cbn [negb].
  2:{ split; [discriminate | intros [H _]; discriminate H]. }
  cbn [ByteStream.nextBytes ByteStream.setCurPos ByteStream.buffer ByteStream.curPos].
  rewrite Hbuf. cbn [ByteStream.setCurPos ByteStream.buffer].
  destruct (utf8ToString _) as [[|c sceneStr]|].
  - split; auto.
  - destruct (readScene _ _ _ _ _) as [[[[d b] i]|status]|] eqn:E.
    + split; [discriminate | intros [_ [H|H]]; discriminate H].
    + assert (status = TileReadStatus.InvalidTileData) as ->.
      { unfold readScene in E. destruct (JSON_parse _) as [sceneValue|]; [|discriminate].
        unfold mbind in E.
        repeat match type of E with
        | context [Result_bind _ _ _ ?r] =>
            destruct r eqn:?; cbn [Result_bind] in E; [|discriminate E]
        end.
        destruct (isNullish _); [congruence|].
        repeat match type of E with
        | context [Result_bind _ _ _ ?r] =>
            destruct r eqn:?; cbn [Result_bind] in E; [|discriminate E]
        end.
        discriminate. }
      split; [discriminate | intros [_ [H|H]]; discriminate H].
    + split; [discriminate | intros [_ [H|H]]; discriminate H].
  - split; auto.
Qed.

(** The cases of a result that is not the status in question. *)
Ltac stages :=
  split; [|split]; split; intros H; try solve [auto]; try discriminate H;
  try (destruct H; discriminate);
  try (destruct H as (_ & H0 & _); discriminate);
  try (destruct H as (_ & _ & ? & ? & H0 & H1); injection H0 as <- <-; congruence);
  try (destruct H as (_ & _ & ? & ? & H0 & H1); discriminate).

(** X19.  Each of these statuses of [parseImdlDocument] names its stage:
    [InvalidHeader] is returned exactly when the tile header is not valid,
    [NewerMajorVersion] exactly when it is valid but not readable, and
    [InvalidScene] exactly when it is valid and readable, the feature-table
    header can be read, the chunk header behind the feature table is
    accepted and the scene text is missing or empty. *)
Theorem status_stage options stream :
  let result := parseImdlDocument parseNodes options stream in
  let imdlHeader := fst (ImdlHeader_new stream) in
  let pos := snd (ImdlHeader_new stream) in
  (result = inr TileReadStatus.InvalidHeader <-> imdl_isValid imdlHeader = false)
  /\ (result = inr TileReadStatus.NewerMajorVersion
      <-> imdl_isValid imdlHeader = true /\ imdl_isReadableVersion imdlHeader = false)
  /\ (result = inr TileReadStatus.InvalidScene
      <-> imdl_isValid imdlHeader = true /\ imdl_isReadableVersion imdlHeader = true
          /\ exists ftHeader s,
               FeatureTableHeader.readFrom (ByteStream.setCurPos stream pos)
               = (Some ftHeader, s)
               /\ let gltfHeader :=
                    fst (GltfHeader_new
                           (ByteStream.setCurPos s
                              (pos + FeatureTableHeader.length ftHeader))) in
                  let sceneStr :=
                    utf8ToString (ByteStream.slice (ByteStream.buffer s)
                                    (scenePosition gltfHeader)
                                    (sceneStrLength gltfHeader)) in
                  isValid gltfHeader = true
                  /\ (sceneStr = None \/ sceneStr = Some EmptyString)).
Proof.
  cbv zeta. rewrite DecoderProperties.parseImdlDocument_stages.
  destruct (ImdlHeader_new stream) as [imdlHeader pos]. cbn [fst snd].
  destruct (imdl_isValid imdlHeader); cbn [negb]; [|stages].
  destruct (imdl_isReadableVersion imdlHeader); cbn [negb]; [|stages].
  destruct (FeatureTableHeader.readFrom _) as [[ftHeader|] s1]; [|stages].
  pose proof (decodeScene_InvalidScene s1 imdlHeader pos (FeatureTableHeader.length ftHeader))
    as Hscene. cbv zeta in Hscene.
  match goal with |- (?R = _ <-> _) /\ _ => set (result := R) end.
  assert (Hresult : (result = inr TileReadStatus.InvalidScene
                     <-> decodeScene s1 imdlHeader pos (FeatureTableHeader.length ftHeader)
                         = inr TileReadStatus.InvalidScene)
                    /\ result <> inr TileReadStatus.InvalidHeader
                    /\ result <> inr TileReadStatus.NewerMajorVersion).
  { subst result. destruct (decodeScene _ _ _ _) as [[[[d b] i] s2]|status] eqn:E.
    - destruct (parse _ _ _ _ _ _) as [[doc|status]|] eqn:Ep.
      + repeat split; discriminate.
      + apply parse_status in Ep. subst status. repeat split; discriminate.
      + repeat split; discriminate.
    - pose proof (decodeScene_status _ _ _ _ _ E) as [->| ->]; repeat split; discriminate. }
  destruct Hresult as (Hstage & Hheader & Hversion).
  split; [split; [intros H; destruct (Hheader H) | discriminate]|].
  split; [split; [intros H; destruct (Hversion H) | intros [_ H]; discriminate H]|].
  rewrite Hstage, Hscene. split.
  - intros H. split; [reflexivity|]. split; [reflexivity|]. exists ftHeader, s1.
    split; [reflexivity | exact H].
  - intros (_ & _ & ftHeader0 & s & [= <- <-] & H). exact H.
Qed.

(** X20.  A document that [parseImdlDocument] returns comes from a valid,
    readable tile header and an accepted chunk header; its binary data is
    the buffer from the binary position of that header on, which lies
    within the buffer; [meshes], [bufferViews] and [nodes] of its JSON are
    neither [null] nor [undefined]; its feature table is multi-model
    exactly when the flag of the tile header says so, has the feature count
    of the feature-table header and as many packed words as the declared
    length leaves behind the header; its nodes are those of [parseNodes];
    and it has an RTC center exactly when the scene has an array for it. *)
Theorem parseImdlDocument_document options stream doc :
  parseImdlDocument parseNodes options stream = inl doc ->
  let buf := ByteStream.buffer stream in
  let imdlHeader := fst (ImdlHeader_new stream) in
  let pos := snd (ImdlHeader_new stream) in
  let gltfHeader :=
    fst (GltfHeader_new (ByteStream.mk buf (pos + ByteStream.uint32At buf pos))) in
  imdl_isValid imdlHeader = true
  /\ imdl_isReadableVersion imdlHeader = true
  /\ isValid gltfHeader = true
  /\ 0 <= binaryPosition gltfHeader <= ByteStream.length stream
  /\ binaryData doc
     = Uint8Array.mk (binaryPosition gltfHeader)
         (skipn (Z.to_nat (binaryPosition gltfHeader)) buf)
  /\ isNullish (meshes (json doc)) = false
  /\ isNullish (bufferViews (json doc)) = false
  /\ isNullish (nodes (json doc)) = false
  /\ ft_multiModel (featureTable doc)
     = negb (0 =? Z.land (imdl_flags imdlHeader) ImdlFlags_MultiModelFeatureTable)
  /\ ft_numFeatures (featureTable doc) = ByteStream.uint32At buf (pos + 8)
  /\ Z.of_nat (List.length (ft_data (featureTable doc)))
     = (ByteStream.uint32At buf pos - FeatureTableHeader.sizeInBytes) / 4
  /\ parseNodes (json doc) (binaryData doc) options (featureTable doc) = Ok (imdl_nodes doc)
  /\ (imdl_rtcCenter doc = None <-> forall items, rtcCenter (json doc) <> JArray items).
Proof.
  cbv zeta. rewrite DecoderProperties.parseImdlDocument_stages.
  destruct (ImdlHeader_new stream) as [imdlHeader pos]. cbn [fst snd].
  destruct (imdl_isValid imdlHeader); cbn [negb]; [|discriminate].
  destruct (imdl_isReadableVersion imdlHeader); cbn [negb]; [|discriminate].
  destruct stream as [buf c]. unfold ByteStream.setCurPos at 1.
  cbn [ByteStream.buffer ByteStream.curPos]. rewrite DecoderProperties.readFrom_eq.
  destruct (Z.ltb_spec (Z.of_nat (List.length buf)) (pos + 12)) as [|_]; [discriminate|].
  cbn [FeatureTableHeader.length].
  unfold decodeScene, ByteStream.setCurPos at 1. cbn [ByteStream.buffer ByteStream.curPos].
  pose proof (DecoderProperties.GltfHeader_new_buffer
                (ByteStream.mk buf (pos + ByteStream.uint32At buf pos))) as Hbuf.
  destruct (GltfHeader_new _) as [gltfHeader s2]. cbn [fst snd ByteStream.buffer] in Hbuf |- *.
  destruct (isValid gltfHeader); cbn [negb]; [|discriminate].
  cbn [ByteStream.nextBytes].
  destruct (utf8ToString _) as [[|ch sceneStr]|]; try discriminate.
  destruct (readScene _ _ _ _ _) as [[[[document data] info]|status]|] eqn:Escene;
    try discriminate.
  apply readScene_document in Escene as (Hmeshes & Hviews & Hnodes & Hdata & ->).
  cbn [ByteStream.buffer ByteStream.setCurPos] in Hdata. rewrite Hbuf in Hdata.
  unfold Uint8Array.ofBuffer in Hdata.
  destruct (Z.ltb_spec (binaryPosition gltfHeader) 0) as [|Hlow]; [discriminate|].
  destruct (Z.ltb_spec (Z.of_nat (List.length buf)) (binaryPosition gltfHeader)) as [|Hhigh];
    [discriminate|].
  cbn [orb] in Hdata. injection Hdata as <-.
  unfold parse.
  destruct (parseFeatureTable _ _ _ _) as [[[ft|] s3]|] eqn:Etable; cbn [mbind Result_bind];
    try discriminate.
  apply parseFeatureTable_table in Etable.
  cbn [ByteStream.buffer ByteStream.setCurPos startPos multiModel] in Etable.
  rewrite Hbuf in Etable.
  destruct Etable as (_ & _ & _ & _ & Hmulti & Hfeatures & _ & _ & Hcount & _).
  destruct (parseNodes _ _ _ _) as [nodes|] eqn:Enodes; cbn [mbind Result_bind];
    [|discriminate].
  intros [= <-]. cbn [binaryData json featureTable imdl_nodes imdl_rtcCenter].
  unfold ByteStream.length. cbn [ByteStream.buffer].
  repeat split; try assumption; try lia.
  - destruct (rtcCenter document); congruence.
  - intros H. destruct (rtcCenter document); try reflexivity. destruct (H items eq_refl).
Qed.

End WithParseNodes.

Import SampleCore Samples.

Lemma GltfHeader_layout_witness :
  let stream := ByteStream.mk sampleTile 28 in
  let h := fst (GltfHeader_new stream) in
  isValid h = true
  /\ scenePosition h = 48
  /\ TileHeader.version (header h) = 1
  /\ binaryPosition h = scenePosition h + sceneStrLength h.
Proof.
  pose proof (GltfHeader_layout (ByteStream.mk sampleTile 28)) as H.
  assert (Hformats : TileFormat_Gltf <> TileFormat_Unknown) by (vm_compute; discriminate).
  assert (Hvalid : isValid (fst (GltfHeader_new (ByteStream.mk sampleTile 28))) = true)
    by (vm_compute; reflexivity).
  specialize (H Hformats Hvalid). cbv zeta in H.
  destruct H as (_ & _ & _ & Hscene & [(Hversion & _ & Hbinary)|(Hversion & _)]).
  - cbv zeta. split; [exact Hvalid|]. split; [exact Hscene|]. split; [exact Hversion|].
    exact Hbinary.
  - vm_compute in Hversion. discriminate Hversion.
Defined.

Lemma parseFeatureTable_success_witness :
  exists ft stream',
    parseFeatureTable sampleDocument (Uint8Array.mk 166 [x01; x02; x03])
      (ByteStream.mk sampleTile 0) {| startPos := 16; multiModel := false |}
    = Ok (Some ft, stream')
    /\ stream' = ByteStream.mk sampleTile 28
    /\ ft_numFeatures ft = 5
    /\ ft_data ft = [].
Proof.
  eexists. eexists. split; [vm_compute; reflexivity|].
  pose proof (parseFeatureTable_success sampleDocument (Uint8Array.mk 166 [x01; x02; x03])
                (ByteStream.mk sampleTile 0) {| startPos := 16; multiModel := false |}
                _ _ ltac:(vm_compute; reflexivity)) as H.
  cbv zeta in H. destruct H as (_ & _ & _ & Hstream & _ & Hfeatures & _).
  split; [exact Hstream|]. split; [exact Hfeatures|]. reflexivity.
Defined.

Lemma parseImdlDocument_document_witness :
  exists doc,
    parseImdlDocument noNodes tt (ByteStream.mk sampleTile 0) = inl doc
    /\ Uint8Array.byteOffset (binaryData doc) = 166
    /\ ft_numFeatures (featureTable doc) = 5.
Proof.
  assert (Hrun : { doc | parseImdlDocument noNodes tt (ByteStream.mk sampleTile 0) = inl doc })
    by (eexists; vm_compute; reflexivity).
  destruct Hrun as [doc Hrun].
  pose proof (parseImdlDocument_document noNodes tt (ByteStream.mk sampleTile 0) doc Hrun) as H.
  cbv zeta in H. destruct H as (_ & _ & _ & _ & Hdata & _ & _ & _ & _ & Hfeatures & _).
  exists doc. split; [exact Hrun|]. split.
  - rewrite Hdata. vm_compute. reflexivity.
  - rewrite Hfeatures. vm_compute. reflexivity.
Defined.

End HeaderFacts.

(** ** Buffer views, primitives and nodes *)

Module NodeFacts.
Import ImdlParser JsObject ImdlNodes NodeShapes.
Open Scope string_scope.
Open Scope Z_scope.

Lemma slice_length buf pos n :
  0 <= pos -> 0 <= n -> pos + n <= Z.of_nat (List.length buf) ->
  Z.of_nat (List.length (ByteStream.slice buf pos n)) = n.
Proof.
  intros Hpos Hn Hend. unfold ByteStream.slice.
  rewrite length_take, length_drop. lia.
Qed.

Lemma relativeIndex_range len i : 0 <= len -> 0 <= Uint8Array.relativeIndex len i <= len.
Proof. intros Hlen. unfold Uint8Array.relativeIndex. destruct (Z.ltb_spec i 0); lia. Qed.

(** A view taken by [subarray] lies within the array it is taken from. *)
Lemma subarray_within a begin end_ :
  let view := Uint8Array.subarray a begin end_ in
  Uint8Array.byteOffset a <= Uint8Array.byteOffset view
  /\ Uint8Array.byteOffset view + Uint8Array.byteLength view
     <= Uint8Array.byteOffset a + Uint8Array.byteLength a
  /\ Uint8Array.data view
     = ByteStream.slice (Uint8Array.data a)
         (Uint8Array.byteOffset view - Uint8Array.byteOffset a) (Uint8Array.byteLength view).
Proof.
  cbv zeta. unfold Uint8Array.subarray.
  set (len := Uint8Array.byteLength a).
  assert (Hlen : 0 <= len) by (subst len; unfold Uint8Array.byteLength; lia).
  pose proof (relativeIndex_range len begin Hlen) as Hb.
  pose proof (relativeIndex_range len end_ Hlen) as He.
  set (b := Uint8Array.relativeIndex len begin) in *.
  set (e := Uint8Array.relativeIndex len end_) in *.
  cbn [Uint8Array.byteOffset Uint8Array.data].
  assert (Hview : Uint8Array.byteLength
                    (Uint8Array.mk (Uint8Array.byteOffset a + b)
                       (ByteStream.slice (Uint8Array.data a) b (Z.max (e - b) 0)))
                  = Z.max (e - b) 0).
  { unfold Uint8Array.byteLength at 1. cbn [Uint8Array.data].
    apply slice_length; [lia | lia |]. fold (Uint8Array.byteLength a). fold len. lia. }
  rewrite Hview. replace (Uint8Array.byteOffset a + b - Uint8Array.byteOffset a) with b by lia.
  repeat split; try reflexivity; lia.
Qed.


Lemma indexString_inj (i j : nat) :
  indexString (Z.of_nat i) = indexString (Z.of_nat j) -> i = j.
Proof.
  unfold indexString. intros H.
  assert (Hnil : forall n, N.to_uint n <> Decimal.Nil).
  { intros [|p]; [discriminate|]. cbn. apply DecimalPos.Unsigned.to_uint_nonnil. }
  assert (Huint : N.to_uint (Z.to_N (Z.of_nat i)) = N.to_uint (Z.to_N (Z.of_nat j))).
  { pose proof (NilZero.usu _ (Hnil (Z.to_N (Z.of_nat i)))) as Hi.
    pose proof (NilZero.usu _ (Hnil (Z.to_N (Z.of_nat j)))) as Hj.
    rewrite H in Hi. congruence. }
  apply DecimalN.Unsigned.to_uint_inj in Huint. lia.
Qed.

Lemma memberKeys_NoDup props : NoDup (memberKeys props).
Proof.
  induction props as [|[k v] props IH]; cbn [memberKeys]; [constructor|].
  constructor.
  - rewrite list_elem_of_In, filter_In. intros [_ H].
    rewrite String.eqb_refl in H. discriminate H.
  - apply NoDup_ListNoDup, List.NoDup_filter, NoDup_ListNoDup. exact IH.
Qed.

Lemma Object_keys_NoDup json keys : Object_keys json = Ok keys -> NoDup keys.
Proof.
  destruct json as [| | | |s|items|props]; cbn [Object_keys]; try discriminate;
    intros [= <-]; try constructor.
  - apply (NoDup_fmap_2_strong (fun i => indexString (Z.of_nat i))); [|apply NoDup_seq].
    intros i j _ _. apply indexString_inj.
  - apply (NoDup_fmap_2_strong (fun i => indexString (Z.of_nat i))); [|apply NoDup_seq].
    intros i j _ _. apply indexString_inj.
  - pose proof (memberKeys_NoDup props) as Hkeys.
    apply NoDup_app. split; [|split].
    + rewrite merge_sort_Permutation.
      apply NoDup_ListNoDup, List.NoDup_filter, NoDup_ListNoDup. exact Hkeys.
    + intros key. rewrite merge_sort_Permutation, !list_elem_of_In, !filter_In.
      intros [_ Hindex] [_ Hother]. rewrite Hindex in Hother. discriminate Hother.
    + apply NoDup_ListNoDup, List.NoDup_filter, NoDup_ListNoDup. exact Hkeys.
Qed.

Section WithCoreCommon.
Context {core : CoreCommon}.

(** A view that [findBuffer] returns lies within the binary data. *)
Lemma findBuffer_within document binaryData bufferViewId view :
  findBuffer document binaryData bufferViewId = Ok (Some view) ->
  Uint8Array.byteOffset binaryData <= Uint8Array.byteOffset view
  /\ Uint8Array.byteOffset view + Uint8Array.byteLength view
     <= Uint8Array.byteOffset binaryData + Uint8Array.byteLength binaryData.
Proof.
  unfold findBuffer. destruct bufferViewId as [| | | |id| |]; try discriminate.
  destruct (0 =? Z.of_nat (String.length id)); [discriminate|].
  destruct (getElem (bufferViews document) id) as [bufferViewJson|];
    cbn [mbind Result_bind]; [|discriminate].
  destruct (isUndefined bufferViewJson); [discriminate|].
  destruct (getProp bufferViewJson "byteOffset") as [offsetJson|];
    cbn [fmap Result_fmap mbind Result_bind]; [|discriminate].
  destruct (getProp bufferViewJson "byteLength") as [lengthJson|];
    cbn [fmap Result_fmap mbind Result_bind]; [|discriminate].
  destruct (0 =? JsonUtils.asInt lengthJson); [discriminate|].
  intros [= <-].
  pose proof (subarray_within binaryData (JsonUtils.asInt offsetJson)
                (JsonUtils.asInt offsetJson + JsonUtils.asInt lengthJson)) as H.
  cbv zeta in H. destruct H as (Hlow & Hhigh & _). split; assumption.
Qed.

(** X21.  A view that [findBuffer] returns was asked for by a string that
    is not empty and names a buffer view of the document whose [byteLength]
    is not 0; it lies within the binary data and holds those bytes of it;
    and it is exactly the declared range when that range is not negative
    and within the binary data. *)
Theorem findBuffer_view document binaryData bufferViewId view :
  findBuffer document binaryData bufferViewId = Ok (Some view) ->
  exists id bufferViewJson,
    bufferViewId = JString id
    /\ id <> ""
    /\ getElem (bufferViews document) id = Ok bufferViewJson
    /\ bufferViewJson <> JUndefined
    /\ let byteOffset := JsonUtils.asInt (getOptional bufferViewJson "byteOffset") in
       let byteLength := JsonUtils.asInt (getOptional bufferViewJson "byteLength") in
       byteLength <> 0
       /\ Uint8Array.byteOffset binaryData <= Uint8Array.byteOffset view
       /\ Uint8Array.byteOffset view + Uint8Array.byteLength view
          <= Uint8Array.byteOffset binaryData + Uint8Array.byteLength binaryData
       /\ Uint8Array.data view
          = ByteStream.slice (Uint8Array.data binaryData)
              (Uint8Array.byteOffset view - Uint8Array.byteOffset binaryData)
              (Uint8Array.byteLength view)
       /\ (0 <= byteOffset -> 0 <= byteLength ->
           byteOffset + byteLength <= Uint8Array.byteLength binaryData ->
           Uint8Array.byteOffset view = Uint8Array.byteOffset binaryData + byteOffset
           /\ Uint8Array.byteLength view = byteLength).
Proof.
  unfold findBuffer. destruct bufferViewId as [| | | |id| |]; try discriminate.
  destruct (Z.eqb_spec 0 (Z.of_nat (String.length id))) as [|Hid]; [discriminate|].
  destruct (getElem (bufferViews document) id) as [bufferViewJson|] eqn:Hview;
    cbn [mbind Result_bind]; [|discriminate].
  destruct (isUndefined bufferViewJson) eqn:Hundefined; [discriminate|].
  assert (Hget : forall key value,
             getProp bufferViewJson key = Ok value -> getOptional bufferViewJson key = value).
  { intros key value. destruct bufferViewJson; cbn; congruence. }
  intros H. exists id, bufferViewJson.
  split; [reflexivity|]. split; [intros ->; apply Hid; reflexivity|].
  split; [exact Hview|]. split; [intros ->; discriminate|].
  destruct (getProp bufferViewJson "byteOffset") as [offsetJson|] eqn:Hoffset;
    cbn [fmap Result_fmap mbind Result_bind] in H; [|discriminate].
  destruct (getProp bufferViewJson "byteLength") as [lengthJson|] eqn:Hlength;
    cbn [fmap Result_fmap mbind Result_bind] in H; [|discriminate].
  apply Hget in Hoffset, Hlength. subst offsetJson lengthJson.
  cbv zeta.
  set (byteOffset := JsonUtils.asInt (getOptional bufferViewJson "byteOffset")) in *.
  set (byteLength := JsonUtils.asInt (getOptional bufferViewJson "byteLength")) in *.
  destruct (Z.eqb_spec 0 byteLength) as [|Hnonzero]; [discriminate|].
  injection H as <-.
  pose proof (subarray_within binaryData byteOffset (byteOffset + byteLength)) as Hwithin.
  cbv zeta in Hwithin. destruct Hwithin as (Hlow & Hhigh & Hdata).
  split; [congruence|]. split; [exact Hlow|]. split; [exact Hhigh|]. split; [exact Hdata|].
  intros Hoffset Hlength Hend.
  unfold Uint8Array.subarray, Uint8Array.relativeIndex.
  set (len := Uint8Array.byteLength binaryData) in *.
  destruct (Z.ltb_spec byteOffset 0); [lia|].
  destruct (Z.ltb_spec (byteOffset + byteLength) 0); [lia|].
  cbn [Uint8Array.byteOffset]. split; [lia|].
  unfold Uint8Array.byteLength at 1. cbn [Uint8Array.data].
  rewrite slice_length; [lia | lia | lia |].
  fold (Uint8Array.byteLength binaryData). fold len. lia.
Qed.

Context {Primitive Timeline : Type}.
Variable parsePrimitive : Json -> Result (option Primitive).
Variable parseAnimationBranches :
  list (@Node Primitive) -> Json -> FeatureTable -> Timeline
  -> Result (list (@Node Primitive) * FeatureTable).
Variable AnimationNodeId_Untransformed : Z.

Lemma parsePrimitivesOf_kept items : forall primitives result,
  parsePrimitivesOf parsePrimitive items primitives = Ok result
  <-> exists added, result = (primitives ++ added)%list /\ kept parsePrimitive items added.
Proof.
  induction items as [|item items IH]; intros primitives result; cbn [parsePrimitivesOf].
  - split.
    + intros [= <-]. exists []. rewrite app_nil_r. split; [reflexivity | constructor].
    + intros (added & -> & Hkept). inversion Hkept. rewrite app_nil_r. reflexivity.
  - destruct (parsePrimitive item) as [[primitive|]|] eqn:Hitem; cbn [mbind Result_bind].
    + rewrite IH. split.
      * intros (added & -> & Hkept). exists (primitive :: added).
        rewrite <- app_assoc. split; [reflexivity|]. now constructor.
      * intros (added & -> & Hkept). inversion Hkept; subst; [congruence|].
        assert (primitive0 = primitive) as -> by congruence.
        eexists. rewrite <- app_assoc. split; [reflexivity | assumption].
    + rewrite IH. split.
      * intros (added & -> & Hkept). exists added. split; [reflexivity|]. now constructor.
      * intros (added & -> & Hkept). inversion Hkept; subst; [|congruence].
        eexists. split; [reflexivity | assumption].
    + split; [discriminate|]. intros (added & _ & Hkept). inversion Hkept; congruence.
Qed.

(** X22.  [parsePrimitives] succeeds exactly when its argument can be
    iterated and [parsePrimitive] throws on none of the items, and it then
    returns, in the order of the items, the primitives of those items that
    have one. *)
Theorem parsePrimitives_kept docPrimitives primitives :
  parsePrimitives parsePrimitive docPrimitives = Ok primitives
  <-> exists items, iterate docPrimitives = Ok items /\ kept parsePrimitive items primitives.
Proof.
  unfold parsePrimitives.
  destruct (iterate docPrimitives) as [items|]; cbn [mbind Result_bind].
  - rewrite parsePrimitivesOf_kept. cbn [app]. split.
    + intros (added & -> & Hkept). eauto.
    + intros (items' & [= <-] & Hkept). eauto.
  - split; [discriminate|]. intros (items & H & _). discriminate H.
Qed.

(** One turn of the loop without a timeline: the key is skipped, or one
    node is pushed for it. *)
Lemma parseNode_step document options nodeKey nodes featureTable nodes' featureTable' :
  timeline options = None ->
  parseNode parsePrimitive parseAnimationBranches AnimationNodeId_Untransformed
    document options nodeKey (nodes, featureTable) = Ok (nodes', featureTable') ->
  featureTable' = featureTable
  /\ ((nodes' = nodes /\ skipped document nodeKey)
      \/ exists node,
           nodes' = (nodes ++ [node])%list
           /\ nodeOf parsePrimitive AnimationNodeId_Untransformed document options nodeKey
                node).
Proof.
  intros Htimeline. unfold parseNode, nodeOf, skipped.
  destruct (getElem (ImdlParser.nodes document) nodeKey) as [docNode|] eqn:HdocNode;
    cbn [mbind Result_bind]; [|discriminate].
  destruct (getElem (meshes document) (propertyKey docNode)) as [docMesh|] eqn:HdocMesh;
    cbn [mbind Result_bind]; [|discriminate].
  cbv zeta.
  assert (Hoptional : match docMesh with
                      | JUndefined | JNull => JUndefined
                      | _ => getOptional docMesh "primitives"
                      end = getOptional docMesh "primitives")
    by (destruct docMesh; reflexivity).
  rewrite Hoptional.
  destruct (truthy (getOptional docMesh "primitives")) eqn:Htruthy; cbn [negb].
  2:{ intros [= <- <-]. split; [reflexivity|]. left. split; [reflexivity|].
      exists docNode, docMesh. auto. }
  rewrite Htimeline.
  destruct (parsePrimitives parsePrimitive (getOptional docMesh "primitives"))
    as [primitives|] eqn:Hprimitives.
  2:{ destruct (String.eqb "Node_Root" nodeKey);
        [destruct (createUntransformedRootNode options)
        |destruct (isUndefined (getOptional docMesh "layer"))];
        cbn [mbind Result_bind]; discriminate. }
  destruct (String.eqb "Node_Root" nodeKey) eqn:Hroot.
  - destruct (createUntransformedRootNode options) eqn:Hcreate; cbn [mbind Result_bind];
      intros [= <- <-]; (split; [reflexivity|]); right; eexists; (split; [reflexivity|]);
      exists docNode, docMesh;
      (split; [reflexivity|]); (split; [exact HdocMesh|]); (split; [exact Htruthy|]);
      (split; [exact Hprimitives|]); unfold rootNode; rewrite Hcreate; cbn; auto.
  - destruct (isUndefined (getOptional docMesh "layer")) eqn:Hundefined;
      cbn [mbind Result_bind];
      intros [= <- <-]; (split; [reflexivity|]); right; eexists; (split; [reflexivity|]);
      exists docNode, docMesh;
      (split; [reflexivity|]); (split; [exact HdocMesh|]); (split; [exact Htruthy|]);
      (split; [exact Hprimitives|]).
    + destruct (getOptional docMesh "layer"); try discriminate.
      unfold animatedNode; cbn; auto.
    + destruct (getOptional docMesh "layer"); try discriminate;
        unfold layerNode; cbn; auto.
Qed.

Lemma parseNodeKeys_keys document options nodeKeys :
  timeline options = None ->
  forall nodes featureTable nodes' featureTable',
  parseNodeKeys parsePrimitive parseAnimationBranches AnimationNodeId_Untransformed
    document options nodeKeys (nodes, featureTable) = Ok (nodes', featureTable') ->
  featureTable' = featureTable
  /\ exists used added,
       nodes' = (nodes ++ added)%list
       /\ used `sublist_of` nodeKeys
       /\ Forall2 (nodeOf parsePrimitive AnimationNodeId_Untransformed document options) used added
       /\ forall nodeKey, nodeKey ∈ nodeKeys -> nodeKey ∉ used -> skipped document nodeKey.
Proof.
  intros Htimeline.
  induction nodeKeys as [|nodeKey nodeKeys IH]; intros nodes featureTable nodes' featureTable';
    cbn [parseNodeKeys].
  - intros [= <- <-]. split; [reflexivity|]. exists [], []. rewrite app_nil_r.
    split; [reflexivity|]. split; [constructor|]. split; [constructor|].
    intros key Hkey. inversion Hkey.
  - destruct (parseNode _ _ _ _ _ _ _) as [[nodes1 featureTable1]|] eqn:Hstep;
      cbn [mbind Result_bind]; [|discriminate].
    apply (parseNode_step _ _ _ _ _ _ _ Htimeline) in Hstep as [-> Hstep].
    intros Hrest. apply IH in Hrest as (-> & used & added & -> & Hsub & Hnodes & Hskipped).
    split; [reflexivity|].
    destruct Hstep as [[-> Hskip]|(node & -> & Hnode)].
    + exists used, added. split; [reflexivity|]. split; [now apply sublist_cons|].
      split; [exact Hnodes|]. intros key Hkey Hunused.
      apply elem_of_cons in Hkey as [->|Hkey]; [exact Hskip | now apply Hskipped].
    + exists (nodeKey :: used), (node :: added). rewrite <- app_assoc.
      split; [reflexivity|]. split; [now apply sublist_skip|].
      split; [now constructor|]. intros key Hkey Hunused.
      apply not_elem_of_cons in Hunused as [Hne Hunused].
      apply elem_of_cons in Hkey as [->|Hkey]; [congruence | now apply Hskipped].
Qed.

(** X23.  Without a timeline, [parseNodes] leaves the feature table alone
    and returns nothing when the document has no [Node_Root]; otherwise it
    returns one node for each key of [nodes] that names a mesh with
    primitives and none for the other keys, in the order of [Object.keys],
    which lists no key twice.  The node of [Node_Root] has no animation id
    and no layer; the node of another key has either the layer of its mesh
    or the animation id [batchModelId_key] with the node id that
    [extractNodeId] reads off the key, never both; the primitives of a node
    are those of its mesh. *)
Theorem parseNodes_keys document options featureTable nodes featureTable' :
  timeline options = None ->
  parseNodes parsePrimitive parseAnimationBranches AnimationNodeId_Untransformed
    document options featureTable = Ok (nodes, featureTable') ->
  featureTable' = featureTable
  /\ exists root nodeKeys used,
       getProp (ImdlParser.nodes document) "Node_Root" = Ok root
       /\ Object_keys (ImdlParser.nodes document) = Ok nodeKeys
       /\ NoDup nodeKeys
       /\ used `sublist_of` nodeKeys
       /\ Forall2 (nodeOf parsePrimitive AnimationNodeId_Untransformed document options) used nodes
       /\ (root = JUndefined -> nodes = [])
       /\ (root <> JUndefined ->
           forall nodeKey, nodeKey ∈ nodeKeys -> nodeKey ∉ used -> skipped document nodeKey).
Proof.
  intros Htimeline. unfold parseNodes. cbv zeta.
  destruct (getProp (ImdlParser.nodes document) "Node_Root") as [root|] eqn:Hroot;
    cbn [mbind Result_bind]; [|discriminate].
  destruct (Object_keys (ImdlParser.nodes document)) as [nodeKeys|] eqn:Hkeys.
  2:{ destruct (ImdlParser.nodes document); discriminate. }
  pose proof (Object_keys_NoDup _ _ Hkeys) as Hdistinct.
  destruct (isUndefined root) eqn:Hundefined.
  - intros [= <- <-]. split; [reflexivity|]. exists root, nodeKeys, [].
    split; [reflexivity|]. split; [reflexivity|]. split; [exact Hdistinct|].
    split; [apply sublist_nil_l|]. split; [constructor|]. split; [reflexivity|].
    intros Hdefined. destruct root; try discriminate. congruence.
  - cbn [mbind Result_bind]. intros Hloop.
    apply (parseNodeKeys_keys _ _ _ Htimeline) in Hloop
      as (-> & used & added & -> & Hsub & Hnodes & Hskipped).
    split; [reflexivity|]. exists root, nodeKeys, used. cbn [app].
    split; [reflexivity|]. split; [reflexivity|]. split; [exact Hdistinct|].
    split; [exact Hsub|]. split; [exact Hnodes|].
    split; [intros ->; discriminate | intros _; exact Hskipped].
Qed.

End WithCoreCommon.
Import SampleCore NodeSamples.

Lemma findBuffer_view_witness :
  exists view,
    findBuffer nodesDocument (Uint8Array.mk 166 [x01; x02; x03]) (JString "bv") = Ok (Some view)
    /\ Uint8Array.byteOffset view = 167
    /\ Uint8Array.byteLength view = 2.
Proof.
  assert (Hrun : { view | findBuffer nodesDocument (Uint8Array.mk 166 [x01; x02; x03])
                            (JString "bv") = Ok (Some view) })
    by (eexists; vm_compute; reflexivity).
  destruct Hrun as [view Hrun]. exists view. split; [exact Hrun|].
  destruct (findBuffer_view _ _ _ _ Hrun) as (id & bufferViewJson & Hid & _ & Hjson & _ & H).
  injection Hid as <-. vm_compute in Hjson. injection Hjson as <-.
  cbv zeta in H. destruct H as (_ & _ & _ & _ & H).
  apply H; vm_compute; discriminate.
Defined.

Lemma parseNodes_keys_witness :
  exists nodes nodeKeys used,
    parseNodes stringPrimitive noBranches 4294967295 nodesDocument noTimeline emptyTable
    = Ok (nodes, emptyTable)
    /\ Object_keys (ImdlParser.nodes nodesDocument) = Ok nodeKeys
    /\ used `sublist_of` nodeKeys
    /\ List.length used = List.length nodes.
Proof.
  assert (Hrun : { nodes | parseNodes stringPrimitive noBranches 4294967295 nodesDocument
                             noTimeline emptyTable = Ok (nodes, emptyTable) })
    by (eexists; vm_compute; reflexivity).
  destruct Hrun as [nodes Hrun].
  destruct (parseNodes_keys stringPrimitive noBranches 4294967295 nodesDocument noTimeline
              emptyTable nodes emptyTable eq_refl Hrun)
    as (_ & root & nodeKeys & used & _ & Hkeys & _ & Hsub & Hnodes & _).
  exists nodes, nodeKeys, used. split; [exact Hrun|]. split; [exact Hkeys|].
  split; [exact Hsub|]. exact (Forall2_length _ _ _ Hnodes).
Defined.

End NodeFacts.

(** ** Edges *)
Module EdgeFacts.
Import ImdlParser JsObject ImdlNodes ImdlEdges.
Open Scope string_scope.
Open Scope Z_scope.

Section WithDisplayParams.
Context {core : CoreCommon} {DisplayParams Weight LinePixels : Type}.
Variable DisplayParams_width : DisplayParams -> Weight.
Variable DisplayParams_linePixels : DisplayParams -> LinePixels.
Variable document : Document.
Variable binaryData : Uint8Array.t.

Lemma findBufferOf_within json key view :
  findBufferOf document binaryData json key = Ok (Some view) -> within binaryData view.
Proof.
  unfold findBufferOf. destruct (getProp json key) as [bufferViewId|];
    cbn [mbind Result_bind]; [|discriminate].
  intros H. exact (NodeFacts.findBuffer_within _ _ _ _ H).
Qed.

Ltac run H :=
  repeat match type of H with
  | context [findBufferOf document binaryData ?json ?key] =>
      let view := fresh "view" in
      let Hview := fresh "Hview" in
      destruct (findBufferOf document binaryData json key) as [[view|]|] eqn:Hview;
      cbn [mbind Result_bind] in H; try discriminate H;
      try apply findBufferOf_within in Hview
  | context [getProp ?json ?key] =>
      destruct (getProp json key); cbn [mbind Result_bind] in H; try discriminate H
  end.

Lemma parseSegmentEdges_within imdl segments :
  parseSegmentEdges document binaryData imdl = Ok (Some segments) ->
  within binaryData (SegmentEdgeParams.indices segments)
  /\ within binaryData (SegmentEdgeParams.endPointAndQuadIndices segments).
Proof.
  unfold parseSegmentEdges. intros H. run H. injection H as H. subst. split; assumption.
Qed.

Lemma parseSilhouetteEdges_within imdl silhouettes :
  parseSilhouetteEdges document binaryData imdl = Ok (Some silhouettes) ->
  within binaryData (SilhouetteParams.indices silhouettes)
  /\ within binaryData (SilhouetteParams.endPointAndQuadIndices silhouettes)
  /\ within binaryData (SilhouetteParams.normalPairs silhouettes).
Proof.
  unfold parseSilhouetteEdges. intros H.
  destruct (parseSegmentEdges document binaryData imdl) as [[segments|]|] eqn:Hsegments;
    cbn [mbind Result_bind] in H; try discriminate H; run H.
  injection H as H. subst. apply parseSegmentEdges_within in Hsegments as [? ?]. auto.
Qed.

Lemma parseIndexedEdges_within imdl indexed :
  parseIndexedEdges document binaryData imdl = Ok (Some indexed) ->
  within binaryData (IndexedEdgeParams.indices indexed)
  /\ within binaryData (EdgeTable.data (IndexedEdgeParams.edges indexed)).
Proof.
  unfold parseIndexedEdges. intros H. run H. injection H as H. subst. split; assumption.
Qed.

Lemma parseTesselatedPolyline_within json polyline :
  parseTesselatedPolyline document binaryData json = Ok (Some polyline) ->
  within binaryData (TesselatedPolyline.indices polyline)
  /\ within binaryData (TesselatedPolyline.prevIndices polyline)
  /\ within binaryData (TesselatedPolyline.nextIndicesAndParams polyline).
Proof.
  unfold parseTesselatedPolyline. intros H. run H. injection H as H. subst. auto.
Qed.

Lemma parseIfPresent_Some {A : Type} (parser : Json -> Result (option A)) imdl key a :
  parseIfPresent parser imdl key = Ok (Some a) ->
  exists part, truthy (getOptional imdl key) = true /\ parser part = Ok (Some a).
Proof.
  unfold parseIfPresent. destruct (getProp imdl key) as [part|] eqn:Hpart;
    cbn [mbind Result_bind]; [|discriminate].
  destruct (truthy part) eqn:Htruthy; [|discriminate].
  intros H. exists part. split; [|exact H].
  destruct imdl; cbn in Hpart |- *; try discriminate; injection Hpart as <-;
    try exact Htruthy; discriminate.
Qed.

(** X24.  Edge parameters that [parseEdges] returns have at least one of
    segments, silhouettes, polylines and indexed edges, each of them only
    if the JSON has it, with all of its buffers, and every buffer lies
    within the binary data; width and line pixels are those of the display
    parameters. *)
Theorem parseEdges_views imdl displayParams edges :
  parseEdges DisplayParams_width DisplayParams_linePixels document binaryData imdl displayParams
  = Ok (Some edges) ->
  truthy imdl = true
  /\ viewsOf edges <> []
  /\ Forall (within binaryData) (viewsOf edges)
  /\ (segments edges <> None -> truthy (getOptional imdl "segments") = true)
  /\ (silhouettes edges <> None -> truthy (getOptional imdl "silhouettes") = true)
  /\ (indexed edges <> None -> truthy (getOptional imdl "indexed") = true)
  /\ (polylines edges <> None -> truthy (getOptional imdl "polylines") = true)
  /\ weight edges = DisplayParams_width displayParams
  /\ linePixels edges = DisplayParams_linePixels displayParams.
Proof.
  unfold parseEdges. destruct (truthy imdl) eqn:Htruthy; cbn [negb]; [|discriminate].
  destruct (parseIfPresent _ imdl "segments") as [segments|] eqn:Hsegments;
    cbn [mbind Result_bind]; [|discriminate].
  destruct (parseIfPresent _ imdl "silhouettes") as [silhouettes|] eqn:Hsilhouettes;
    cbn [mbind Result_bind]; [|discriminate].
  destruct (parseIfPresent _ imdl "indexed") as [indexed|] eqn:Hindexed;
    cbn [mbind Result_bind]; [|discriminate].
  destruct (parseIfPresent _ imdl "polylines") as [polylines|] eqn:Hpolylines;
    cbn [mbind Result_bind]; [|discriminate].
  intros H.
  assert (Hedges : edges = {| ImdlEdges.segments := segments;
                              ImdlEdges.silhouettes := silhouettes;
                              ImdlEdges.polylines := polylines;
                              ImdlEdges.indexed := indexed;
                              weight := DisplayParams_width displayParams;
                              linePixels := DisplayParams_linePixels displayParams |}
                   /\ (segments <> None \/ silhouettes <> None \/ indexed <> None
                       \/ polylines <> None)).
  { destruct segments, silhouettes, indexed, polylines; try discriminate H;
      injection H as <-; (split; [reflexivity|]);
      first [left; discriminate | right; left; discriminate
            | right; right; left; discriminate | right; right; right; discriminate]. }
  destruct Hedges as [-> Hpresent]. clear H.
  split; [reflexivity|]. unfold viewsOf.
  cbn [ImdlEdges.segments ImdlEdges.silhouettes ImdlEdges.polylines ImdlEdges.indexed
       weight linePixels].
  split.
  { destruct segments, silhouettes, indexed, polylines; cbn; try discriminate.
    destruct Hpresent as [H|[H|[H|H]]]; congruence. }
  split.
  { repeat apply Forall_app_2.
    - destruct segments as [s|]; cbn [optionViews]; [|constructor].
      apply parseIfPresent_Some in Hsegments as (part & _ & Hpart).
      apply parseSegmentEdges_within in Hpart as [? ?].
      repeat (apply Forall_cons_2; [assumption|]); apply Forall_nil_2.
    - destruct silhouettes as [s|]; cbn [optionViews]; [|constructor].
      apply parseIfPresent_Some in Hsilhouettes as (part & _ & Hpart).
      apply parseSilhouetteEdges_within in Hpart as (? & ? & ?).
      repeat (apply Forall_cons_2; [assumption|]); apply Forall_nil_2.
    - destruct polylines as [p|]; cbn [optionViews]; [|constructor].
      apply parseIfPresent_Some in Hpolylines as (part & _ & Hpart).
      apply parseTesselatedPolyline_within in Hpart as (? & ? & ?).
      repeat (apply Forall_cons_2; [assumption|]); apply Forall_nil_2.
    - destruct indexed as [i|]; cbn [optionViews]; [|constructor].
      apply parseIfPresent_Some in Hindexed as (part & _ & Hpart).
      apply parseIndexedEdges_within in Hpart as [? ?].
      repeat (apply Forall_cons_2; [assumption|]); apply Forall_nil_2. }
  repeat split.
  - destruct segments; [|congruence]. intros _.
    apply parseIfPresent_Some in Hsegments as (part & ? & _). assumption.
  - destruct silhouettes; [|congruence]. intros _.
    apply parseIfPresent_Some in Hsilhouettes as (part & ? & _). assumption.
  - destruct indexed; [|congruence]. intros _.
    apply parseIfPresent_Some in Hindexed as (part & ? & _). assumption.
  - destruct polylines; [|congruence]. intros _.
    apply parseIfPresent_Some in Hpolylines as (part & ? & _). assumption.
Qed.

End WithDisplayParams.
Import SampleCore NodeSamples.

Lemma parseEdges_views_witness :
  exists edges,
    parseEdges (fun _ : unit => 1) (fun _ : unit => 0) nodesDocument
      (Uint8Array.mk 166 [x01; x02; x03]) segmentEdges tt = Ok (Some edges)
    /\ Forall (within (Uint8Array.mk 166 [x01; x02; x03])) (viewsOf edges)
    /\ List.length (viewsOf edges) = 2%nat.
Proof.
  assert (Hrun : { edges | parseEdges (fun _ : unit => 1) (fun _ : unit => 0) nodesDocument
                             (Uint8Array.mk 166 [x01; x02; x03]) segmentEdges tt
                           = Ok (Some edges) })
    by (eexists; vm_compute; reflexivity).
  destruct Hrun as [edges Hrun]. exists edges. split; [exact Hrun|].
  destruct (parseEdges_views _ _ _ _ _ _ _ Hrun) as (_ & _ & Hviews & _).
  split; [exact Hviews|].
  vm_compute in Hrun. injection Hrun as <-. reflexivity.
Defined.

End EdgeFacts.

(** ** Fragments and intersections *)

Module FragmentFacts.
Import Curves JointOps Chain PolygonWireOffsetContext ChainNotions.

Section WithKernel.
Context {kernel : GeometryKernel}.

(** X25.  An offset fragment that [createOffsetSegment] returns is a line
    segment labelled with its two base points; it is the edge moved as a
    whole, end minus start being that of the edge; the move has no
    component along the edge in the xy-plane; it leaves z alone when the
    edge is level; and at distance 0 the fragment starts at the base
    point. *)
Theorem createOffsetSegment_translate (A B : Point3d) (distance : Q)
    (fragment : CurvePrimitive) :
  createOffsetSegment (Some A) (Some B) distance = Ok (Some fragment) ->
  baseCurveStart fragment = Some A
  /\ baseCurveEnd fragment = Some B
  /\ isLineSegment3d fragment = true
  /\ let P := startPoint fragment in
     let Q := endPoint fragment in
     (x Q - x P == x B - x A /\ y Q - y P == y B - y A /\ z Q - z P == z B - z A)
     /\ (x P - x A) * (x B - x A) + (y P - y A) * (y B - y A) == 0
     /\ (z A == z B -> z P == z A /\ z Q == z B)
     /\ (distance == 0 -> x P == x A /\ y P == y A /\ z P == z A).
Proof.
  unfold createOffsetSegment.
  destruct (normalize (Vector3d.createStartEnd A B)) as [unitAlong|] eqn:Hunit;
    [|discriminate].
  intros [= <-]. cbv zeta.
  unfold normalize in Hunit. cbv zeta in Hunit.
  destruct (Qle_bool _ _); [discriminate|]. injection Hunit as <-.
  set (m := magnitude (Vector3d.createStartEnd A B)).
  unfold applyBasePoints, LineSegment3d_create, isLineSegment3d, startPoint, endPoint,
    Point3d.plusScaled, Vector3d.rotate90CCWXY, Vector3d.scale, Vector3d.createStartEnd.
  cbn [geometry baseCurveStart baseCurveEnd x y z].
  split; [reflexivity|]. split; [reflexivity|]. split; [reflexivity|].
  split; [repeat split; ring|]. split; [ring|].
  split.
  - intros Hz. split.
    + rewrite Hz. ring.
    + rewrite Hz. ring.
  - intros Hd. repeat split; rewrite Hd; ring.
Qed.

(** What the loop of [selectIntersectionIndexByFraction] has after the
    candidates of a prefix. *)
Lemma select_invariant (fractionA fractionB : Q) (candidates : list CurveLocationDetailPair) :
  let '(index, aMin, i) :=
    fold_left
      (fun (acc : Z * Q * Z) (candidate : CurveLocationDetailPair) =>
         let '(index, aMin, i) := acc in
         let a := Qabs (fraction (detailA candidate) - fractionA)
                  + Qabs (fraction (detailB candidate) - fractionB) in
         if Qltb a aMin then (i, a, i + 1)%Z else (index, aMin, i + 1)%Z)
      candidates (-1, Number_MAX_VALUE, 0)%Z in
  i = Z.of_nat (length candidates)
  /\ ((index = (-1)%Z /\ aMin = Number_MAX_VALUE
       /\ Forall (fun c => Number_MAX_VALUE <= cost fractionA fractionB c) candidates)
      \/ exists best,
           (0 <= index)%Z
           /\ candidates !! Z.to_nat index = Some best
           /\ aMin = cost fractionA fractionB best
           /\ cost fractionA fractionB best < Number_MAX_VALUE
           /\ (forall j c, candidates !! j = Some c ->
                 cost fractionA fractionB best <= cost fractionA fractionB c)
           /\ (forall j c, (j < Z.to_nat index)%nat -> candidates !! j = Some c ->
                 cost fractionA fractionB best < cost fractionA fractionB c)).
Proof.
  induction candidates as [|candidate candidates IH] using rev_ind.
  - cbn. split; [reflexivity|]. left. repeat split. constructor.
  - rewrite fold_left_app. cbn [fold_left].
    destruct (fold_left _ candidates _) as [[index aMin] i].
    destruct IH as [-> IH]. fold (cost fractionA fractionB candidate).
    rewrite length_app. cbn [length].
    destruct (Qltb (cost fractionA fractionB candidate) aMin) eqn:Hlt.
    + split; [lia|]. right. exists candidate.
      apply JointProperties.Qltb_lt in Hlt.
      split; [lia|]. rewrite Nat2Z.id.
      split; [rewrite lookup_app_r by lia; rewrite Nat.sub_diag; reflexivity|].
      split; [reflexivity|].
      destruct IH as [(-> & -> & Hall)|(best & Hindex & Hbest & -> & Hmax & Hmin & Hfirst)].
      * split; [exact Hlt|]. split.
        -- intros j c Hc. apply lookup_app_Some in Hc as [Hc|[_ Hc]].
           ++ rewrite Forall_lookup in Hall. specialize (Hall j c Hc). cbn in Hall.
              apply Qlt_le_weak. eapply Qlt_le_trans; eassumption.
           ++ destruct (j - length candidates)%nat; [|destruct n; discriminate].
              injection Hc as <-. apply Qle_refl.
        -- intros j c Hj Hc. rewrite lookup_app_l in Hc by lia.
           rewrite Forall_lookup in Hall. specialize (Hall j c Hc). cbn in Hall.
           eapply Qlt_le_trans; eassumption.
      * split; [eapply Qlt_trans; eassumption|]. split.
        -- intros j c Hc. apply lookup_app_Some in Hc as [Hc|[_ Hc]].
           ++ apply Qlt_le_weak. eapply Qlt_le_trans; [exact Hlt|]. exact (Hmin j c Hc).
           ++ destruct (j - length candidates)%nat; [|destruct n; discriminate].
              injection Hc as <-. apply Qle_refl.
        -- intros j c Hj Hc. rewrite lookup_app_l in Hc by lia.
           eapply Qlt_le_trans; [exact Hlt|]. exact (Hmin j c Hc).
    + split; [lia|]. apply JointProperties.Qltb_ge in Hlt.
      destruct IH as [(-> & -> & Hall)|(best & Hindex & Hbest & -> & Hmax & Hmin & Hfirst)].
      * left. repeat split. apply Forall_app. split; [exact Hall|].
        constructor; [exact Hlt | constructor].
      * right. exists best. split; [exact Hindex|].
        split; [rewrite lookup_app_l by (apply lookup_lt_Some in Hbest; lia); exact Hbest|].
        split; [reflexivity|]. split; [exact Hmax|]. split.
        -- intros j c Hc. apply lookup_app_Some in Hc as [Hc|[_ Hc]]; [exact (Hmin j c Hc)|].
           destruct (j - length candidates)%nat; [|destruct n; discriminate].
           injection Hc as <-. exact Hlt.
        -- intros j c Hj Hc. apply lookup_lt_Some in Hbest.
           rewrite lookup_app_l in Hc by lia. exact (Hfirst j c Hj Hc).
Qed.

(** X26.  [selectIntersectionIndexByFraction] returns -1 exactly when no
    candidate is closer to the two fractions than [Number.MAX_VALUE], which
    includes the empty array; otherwise it returns the index of a candidate
    whose summed fraction difference is the least of all, and the first
    such index. *)
Theorem selectIntersectionIndexByFraction_least (fractionA fractionB : Q)
    (intersections : list CurveLocationDetailPair) :
  let index := selectIntersectionIndexByFraction fractionA fractionB intersections in
  (index = (-1)%Z
   /\ Forall (fun c => Number_MAX_VALUE <= cost fractionA fractionB c) intersections)
  \/ exists best,
       (0 <= index)%Z
       /\ intersections !! Z.to_nat index = Some best
       /\ cost fractionA fractionB best < Number_MAX_VALUE
       /\ (forall j c, intersections !! j = Some c ->
             cost fractionA fractionB best <= cost fractionA fractionB c)
       /\ (forall j c, (j < Z.to_nat index)%nat -> intersections !! j = Some c ->
             cost fractionA fractionB best < cost fractionA fractionB c).
Proof.
  cbv zeta. unfold selectIntersectionIndexByFraction.
  pose proof (select_invariant fractionA fractionB intersections) as H.
  destruct (fold_left _ intersections _) as [[index aMin] i]. cbn [fst].
  destruct H as [_ [(-> & _ & Hall)|(best & Hindex & Hbest & _ & Hmax & Hmin & Hfirst)]].
  - left. split; [reflexivity | exact Hall].
  - right. exists best. auto.
Qed.

End WithKernel.

Import PlanarKernel GeometrySamples.

Lemma createOffsetSegment_translate_witness :
  exists fragment,
    createOffsetSegment (Some (mkXYZ 0 0 0)) (Some (mkXYZ 4 0 0)) (-1) = Ok (Some fragment)
    /\ baseCurveStart fragment = Some (mkXYZ 0 0 0)
    /\ baseCurveEnd fragment = Some (mkXYZ 4 0 0)
    /\ y (endPoint fragment) - y (startPoint fragment) == 0.
Proof.
  assert (Hrun : { fragment | createOffsetSegment (Some (mkXYZ 0 0 0)) (Some (mkXYZ 4 0 0)) (-1)
                              = Ok (Some fragment) })
    by (eexists; vm_compute; reflexivity).
  destruct Hrun as [fragment Hrun]. exists fragment. split; [exact Hrun|].
  destruct (createOffsetSegment_translate _ _ _ _ Hrun)
    as (Hstart & Hend & _ & (_ & Hy & _) & _).
  split; [exact Hstart|]. split; [exact Hend|]. exact Hy.
Defined.

End FragmentFacts.
